(** * pdf-qa-bot: the retrieval engine of [backend/app/retriever.py] and the
      background indexer of [backend/app/indexer.py]

    The development embeds the Python code shallowly:

    - Python [int] is [Z]; positions in a list are [nat];
    - the [float32]/[float] values that the code only adds, multiplies and
      compares (scores, dot products, the MMR objective) are exact rationals
      [Q]: rounding is idealised away, the control flow is kept;
    - the dict-shaped JSON records are Rocq records, [meta.json] is a [gmap],
      the set of allowed sections a [gset];
    - exceptions are the constructors of [PyExc], raised through the result
      type [Res];
    - the external collaborators (embedding provider, [np.linalg.norm],
      FAISS search, cross-encoder) are the variables of a section. *)

From Stdlib Require Import ZArith QArith Qround Lqa Lia Bool List Sorted.
From stdpp Require Import base option list gmap strings pretty.
Import ListNotations.

#[local] Open Scope Z_scope.

(** ** Python exceptions and results *)

Inductive PyExc : Type :=
  | FileNotFoundError (msg : string)
  | IndexError
  | ValueError
  | TypeError (msg : string)
  | AssertionError
  | ProviderError.

Inductive Res (A : Type) : Type :=
  | Ok (a : A)
  | Raise (e : PyExc).

Arguments Ok {A} a.
Arguments Raise {A} e.

Definition bind {A B : Type} (m : Res A) (k : A -> Res B) : Res B :=
  match m with
  | Ok a => k a
  | Raise e => Raise e
  end.

Notation "'let!' x ':=' m 'in' k" := (bind m (fun x => k))
  (at level 10, x pattern, m at level 200, k at level 200).

(** [l[i]] for a position that is known to be non-negative. *)
Definition item {A : Type} (l : list A) (i : nat) : Res A :=
  match l !! i with
  | Some a => Ok a
  | None => Raise IndexError
  end.

(** ** Vectors *)

Definition vec : Type := list Q.

(** [u @ v] for two one-dimensional arrays of one dimension. *)
Fixpoint dot (u v : vec) : Q :=
  match u, v with
  | a :: u', b :: v' => a * b + dot u' v'
  | _, _ => 0
  end%Q.

(** ** NumPy and list primitives used by the selection loop *)

(** [np.argmax] scans left to right and keeps the first maximum. *)
Fixpoint argmax_from (best_pos : nat) (best : Q) (pos : nat) (l : list Q) : nat :=
  match l with
  | [] => best_pos
  | x :: t =>
      if Qle_bool x best
      then argmax_from best_pos best (S pos) t
      else argmax_from pos x (S pos) t
  end.

Definition np_argmax (l : list Q) : Res nat :=
  match l with
  | [] => Raise ValueError
  | x :: t => Ok (argmax_from 0%nat x 1%nat t)
  end.

(** [row.max()] of a non-empty row. *)
Fixpoint max_of (x : Q) (l : list Q) : Q :=
  match l with
  | [] => x
  | y :: t => max_of (if Qle_bool y x then x else y) t
  end.

(** [x in l] and [l.index(x)] on a list of ints. *)
Definition py_in (x : Z) (l : list Z) : bool := existsb (Z.eqb x) l.

Fixpoint py_index (x : Z) (l : list Z) : nat :=
  match l with
  | [] => 0
  | y :: t => if Z.eqb x y then 0 else S (py_index x t)
  end%nat.

(** [array.size] of a two-dimensional array. *)
Definition np_size (X : list vec) : nat := list_sum (map (@length Q) X).

(** ** The MMR selection loop

    The loop is the same text in [VectorStore.search] (lines 140-169) and in
    [VectorStore.search_advanced] (lines 245-273). *)

Module MMR.

Record state : Type := mk_state {
  selected : list Z;
  selected_scores : list Q;
  candidates : list (Z * Q);
  cand_vecs : list vec;
  cand_idxs : list Z
}.

(** [while len(selected) < min(top_k, len(candidates)) and cand_idxs:] *)
Definition loop_cond (top_k : Z) (st : state) : bool :=
  (Z.of_nat (length (selected st))
     <? Z.min top_k (Z.of_nat (length (candidates st))))
  && negb (match cand_idxs st with [] => true | _ => false end).

(** [cand_vecs[[cand_idxs.index(si) for si in selected if si in cand_idxs]]] *)
Definition selected_positions (st : state) : list nat :=
  map (fun si => py_index si (cand_idxs st))
      (List.filter (fun si => py_in si (cand_idxs st)) (selected st)).

Fixpoint take_rows (X : list vec) (ps : list nat) : Res (list vec) :=
  match ps with
  | [] => Ok []
  | p :: ps' =>
      let! r := item X p in
      let! rs := take_rows X ps' in
      Ok (r :: rs)
  end.

(** The [diversity] array of the [else] branch. *)
Definition diversity (st : state) (selected_vecs : list vec) : list Q :=
  if Nat.eqb (np_size selected_vecs) 0
  then map (fun _ => 0%Q) (cand_idxs st)
  else map (fun v => match map (dot v) selected_vecs with
                     | [] => 0%Q
                     | x :: t => max_of x t
                     end) (cand_vecs st).

(** [mmr_lambda * sim_to_query + (1 - mmr_lambda) * (1 - diversity)]; the two
    arrays must have one length to be combined (they have, whenever the
    provider returns one row per text). *)
Definition mmr_scores (lam : Q) (sim div : list Q) : Res (list Q) :=
  if Nat.eqb (length sim) (length div)
  then Ok (zip_with (fun s d => lam * s + (1 - lam) * (1 - d))%Q sim div)
  else Raise ValueError.

(** The choice made by one iteration: [chosen_pos] and [chosen_global_idx]. *)
Definition choose (lam : Q) (q_vec : vec) (st : state) : Res (nat * Z) :=
  match selected st with
  | [] =>
      let! best := np_argmax (map snd (candidates st)) in
      let! c := item (candidates st) best in
      Ok (best, fst c)
  | _ :: _ =>
      let! selected_vecs := take_rows (cand_vecs st) (selected_positions st) in
      let sim_to_query := map (fun v => dot v q_vec) (cand_vecs st) in
      let! mmr := mmr_scores lam sim_to_query (diversity st selected_vecs) in
      let! chosen_pos := np_argmax mmr in
      let! chosen_global_idx := item (cand_idxs st) chosen_pos in
      Ok (chosen_pos, chosen_global_idx)
  end.

(** One iteration of the loop body; [del cand_idxs[chosen_pos]] and
    [np.delete(cand_vecs, chosen_pos, axis=0)] raise on a position out of
    range. *)
Definition step (lam : Q) (q_vec : vec) (st : state) : Res state :=
  let! chosen := choose lam q_vec st in
  let chosen_pos := fst chosen in
  let chosen_global_idx := snd chosen in
  let! c := item (candidates st) chosen_pos in
  let! _ := item (cand_idxs st) chosen_pos in
  let! _ := item (cand_vecs st) chosen_pos in
  Ok {| selected := selected st ++ [chosen_global_idx];
        selected_scores := selected_scores st ++ [snd c];
        candidates := delete chosen_pos (candidates st);
        cand_vecs := delete chosen_pos (cand_vecs st);
        cand_idxs := delete chosen_pos (cand_idxs st) |}.

(** The loop, with the pool size as fuel: every iteration removes one
    candidate, so the loop cannot run longer (see [loop_spec]). *)
Fixpoint loop (fuel : nat) (top_k : Z) (lam : Q) (q_vec : vec) (st : state)
  : Res state :=
  match fuel with
  | O => Ok st
  | S fuel' =>
      if loop_cond top_k st
      then let! st' := step lam q_vec st in loop fuel' top_k lam q_vec st'
      else Ok st
  end.

Definition init (cands : list (Z * Q)) (vecs : list vec) : state :=
  {| selected := []; selected_scores := [];
     candidates := cands; cand_vecs := vecs; cand_idxs := map fst cands |}.

Definition run (top_k : Z) (lam : Q) (q_vec : vec)
    (cands : list (Z * Q)) (vecs : list vec) : Res state :=
  loop (length cands) top_k lam q_vec (init cands vecs).

(** [zip(selected, selected_scores)], the selection in selection order. *)
Definition select (top_k : Z) (lam : Q) (q_vec : vec)
    (cands : list (Z * Q)) (vecs : list vec) : Res (list (Z * Q)) :=
  let! st := run top_k lam q_vec cands vecs in
  Ok (zip (selected st) (selected_scores st)).

End MMR.

(** ** Settings ([backend/app/settings.py]) *)

Record Settings : Type := {
  STORAGE_DIR : string;
  DEFAULT_PDF_PATH : string;
  EMBEDDING_MODEL_NAME : string;
  RERANK : bool;
  RERANK_MODEL_NAME : string;
  HIERARCHICAL_RETRIEVAL : bool;
  SECTION_TOP_K : Z
}.

(** ** Records, files and the [VectorStore] object *)

(** A chunk record as [ingest.chunk_sections] writes it; the fields that the
    retriever reads with [.get] are optional. *)
Record Chunk : Type := {
  id : string;
  section_title : option string;
  section_id : option string;
  level : Z;
  page_start : option Z;
  page_end : option Z;
  chunk_index : Z;
  text : string;
  approx_tokens : Z
}.

(** A section record as [ingest.ingest_pdf] writes it. *)
Record Section_ : Type := {
  s_id : option string;
  s_title : string;
  s_level : Z;
  s_text : string
}.

(** A FAISS [IndexFlatIP]: its dimension [d] and the rows added to it. *)
Record Index : Type := {
  d : Z;
  rows : list vec
}.

Definition ntotal (ix : Index) : Z := Z.of_nat (length (rows ix)).

Inductive Json : Type :=
  | JNull
  | JInt (n : Z)
  | JStr (s : string).

(** The files of the storage directory; [None] is a file that does not
    exist. *)
Record Files : Type := {
  chunks_jsonl : option (list Chunk);
  sections_jsonl : option (list Section_);
  index_faiss : option Index;
  store_jsonl : option (list Chunk);
  index_sections_faiss : option Index;
  store_sections_jsonl : option (list Section_);
  meta_json : option (gmap string Json)
}.

Record SearchResult : Type := {
  r_id : string;
  r_text : string;
  r_section_title : option string;
  r_page_start : option Z;
  r_page_end : option Z;
  r_score : Q;
  r_rerank_score : option Q
}.

(** A loaded cross-encoder: [predict] on (query, text) pairs. *)
Definition Reranker : Type := list (string * string) -> Res (list Q).

Record VectorStore : Type := {
  dim : Z;
  index : option Index;
  s_index : option Index;
  _reranker : option Reranker
}.

(** The state that the methods of [VectorStore] read and write: the object
    itself and the storage directory. *)
Record Env : Type := {
  self : VectorStore;
  disk : Files
}.

(** ** A state and exception monad for the methods

    A raised exception keeps the writes made before it. *)

Definition M (S A : Type) : Type := S -> Res A * S.

Definition ret {S A : Type} (a : A) : M S A := fun s => (Ok a, s).

Definition raise {S A : Type} (e : PyExc) : M S A := fun s => (Raise e, s).

Definition mbind_ {S A B : Type} (m : M S A) (k : A -> M S B) : M S B :=
  fun s => match m s with
           | (Ok a, s') => k a s'
           | (Raise e, s') => (Raise e, s')
           end.

Definition lift {S A : Type} (r : Res A) : M S A := fun s => (r, s).

Definition get {S : Type} : M S S := fun s => (Ok s, s).

Definition modify {S : Type} (f : S -> S) : M S unit := fun s => (Ok tt, f s).

(** [try: m except Exception: h] *)
Definition try_except {S A : Type} (m : M S A) (h : PyExc -> M S A) : M S A :=
  fun s => match m s with
           | (Ok a, s') => (Ok a, s')
           | (Raise e, s') => h e s'
           end.

Notation "x <- m ;; k" := (mbind_ m (fun x => k))
  (at level 100, m at next level, right associativity).
Notation "m ;;; k" := (mbind_ m (fun _ => k))
  (at level 100, right associativity).

(** ** Python list and numeric helpers of the retriever *)

(** [l[i]] for a Python int: negative positions count from the end. *)
Definition py_item {A : Type} (l : list A) (i : Z) : Res A :=
  let n := Z.of_nat (length l) in
  if (0 <=? i) && (i <? n) then item l (Z.to_nat i)
  else if (- n <=? i) && (i <? 0) then item l (Z.to_nat (n + i))
  else Raise IndexError.

Fixpoint map_res {A B : Type} (f : A -> Res B) (l : list A) : Res (list B) :=
  match l with
  | [] => Ok []
  | a :: t =>
      let! b := f a in
      let! bs := map_res f t in
      Ok (b :: bs)
  end.

(** [[(int(i), float(s)) for i, s in zip(idxs, scores) if i != -1]] *)
Definition drop_sentinel (idxs : list Z) (scores : list Q) : list (Z * Q) :=
  List.filter (fun c => negb (fst c =? -1)) (zip idxs scores).

(** [X.mean(axis=0)]: the mean of the rows, column by column. *)
Fixpoint sum_rows (X : list vec) : vec :=
  match X with
  | [] => []
  | [r] => r
  | r :: X' => zip_with Qplus r (sum_rows X')
  end.

Definition mean_axis0 (X : list vec) : vec :=
  map (fun a => a / inject_Z (Z.of_nat (length X)))%Q (sum_rows X).

(** A stable sort by descending key: [list.sort(key=..., reverse=True)]. *)
Fixpoint insert_desc {A : Type} (key : A -> Q) (x : A) (l : list A) : list A :=
  match l with
  | [] => [x]
  | y :: t =>
      if Qle_bool (key y) (key x) then x :: l else y :: insert_desc key x t
  end.

Definition sort_desc {A : Type} (key : A -> Q) (l : list A) : list A :=
  foldr (insert_desc key) [] l.

Definition index_missing : PyExc :=
  FileNotFoundError "FAISS index missing; build the index first".

Definition chunks_missing : PyExc :=
  FileNotFoundError "chunks.jsonl not found; run ingestion first".

(** What [open(path, "r")] raises for a file that does not exist; the
    message is [str(e)], with the path between quotes. *)
Definition no_such_file (path : string) : PyExc :=
  FileNotFoundError ("[Errno 2] No such file or directory: '" ++ path ++ "'").

Fixpoint filter_res {A : Type} (f : A -> Res bool) (l : list A) : Res (list A) :=
  match l with
  | [] => Ok []
  | a :: t =>
      let! keep := f a in
      let! rest := filter_res f t in
      Ok (if keep then a :: rest else rest)
  end.

(** Truth value of an [Optional[str]]: [None] and the empty string are
    false. *)
Definition truthy (s : option string) : bool :=
  match s with
  | Some s => negb (String.eqb s "")
  | None => false
  end.

(** Writes to the files and to the attributes of the object. *)
Definition set_index_faiss (ix : Index) (f : Files) : Files :=
  {| chunks_jsonl := chunks_jsonl f; sections_jsonl := sections_jsonl f;
     index_faiss := Some ix; store_jsonl := store_jsonl f;
     index_sections_faiss := index_sections_faiss f;
     store_sections_jsonl := store_sections_jsonl f;
     meta_json := meta_json f |}.

Definition set_store_jsonl (cs : list Chunk) (f : Files) : Files :=
  {| chunks_jsonl := chunks_jsonl f; sections_jsonl := sections_jsonl f;
     index_faiss := index_faiss f; store_jsonl := Some cs;
     index_sections_faiss := index_sections_faiss f;
     store_sections_jsonl := store_sections_jsonl f;
     meta_json := meta_json f |}.

Definition set_index_sections_faiss (ix : Index) (f : Files) : Files :=
  {| chunks_jsonl := chunks_jsonl f; sections_jsonl := sections_jsonl f;
     index_faiss := index_faiss f; store_jsonl := store_jsonl f;
     index_sections_faiss := Some ix;
     store_sections_jsonl := store_sections_jsonl f;
     meta_json := meta_json f |}.

Definition set_store_sections_jsonl (ss : list Section_) (f : Files) : Files :=
  {| chunks_jsonl := chunks_jsonl f; sections_jsonl := sections_jsonl f;
     index_faiss := index_faiss f; store_jsonl := store_jsonl f;
     index_sections_faiss := index_sections_faiss f;
     store_sections_jsonl := Some ss;
     meta_json := meta_json f |}.

Definition set_meta_json (m : gmap string Json) (f : Files) : Files :=
  {| chunks_jsonl := chunks_jsonl f; sections_jsonl := sections_jsonl f;
     index_faiss := index_faiss f; store_jsonl := store_jsonl f;
     index_sections_faiss := index_sections_faiss f;
     store_sections_jsonl := store_sections_jsonl f;
     meta_json := Some m |}.

Definition write (w : Files -> Files) : M Env unit :=
  modify (fun e => {| self := self e; disk := w (disk e) |}).

Definition set_index (ix : Index) : M Env unit :=
  modify (fun e =>
    {| self := {| dim := dim (self e); index := Some ix;
                  s_index := s_index (self e);
                  _reranker := _reranker (self e) |};
       disk := disk e |}).

Definition set_s_index (ix : Index) : M Env unit :=
  modify (fun e =>
    {| self := {| dim := dim (self e); index := index (self e);
                  s_index := Some ix;
                  _reranker := _reranker (self e) |};
       disk := disk e |}).

Definition set_reranker (rr : Reranker) : M Env unit :=
  modify (fun e =>
    {| self := {| dim := dim (self e); index := index (self e);
                  s_index := s_index (self e);
                  _reranker := Some rr |};
       disk := disk e |}).

(** [r["rerank_score"] = float(s)] over [zip(results, rerank_scores)] *)
Fixpoint assign_rerank (results : list SearchResult) (scores : list Q)
  : list SearchResult :=
  match results, scores with
  | r :: rs, s :: ss =>
      {| r_id := r_id r; r_text := r_text r;
         r_section_title := r_section_title r;
         r_page_start := r_page_start r; r_page_end := r_page_end r;
         r_score := r_score r; r_rerank_score := Some s |}
      :: assign_rerank rs ss
  | _, _ => results
  end.

(** [lambda x: x.get("rerank_score", x["score"])] *)
Definition sort_key (r : SearchResult) : Q :=
  default (r_score r) (r_rerank_score r).

(** The result dict built from a store row and its score. *)
Definition make_result (store : list Chunk) (c : Z * Q) : Res SearchResult :=
  let! it := py_item store (fst c) in
  Ok {| r_id := id it; r_text := text it;
        r_section_title := section_title it;
        r_page_start := page_start it; r_page_end := page_end it;
        r_score := snd c; r_rerank_score := None |}.

(** ** [VectorStore] ([backend/app/retriever.py]) *)

Section Retriever.

Variable settings : Settings.

(** [self.model.encode(texts, ...).astype("float32")]: the embedding
    provider, one row per text when it succeeds. *)
Variable encode : list string -> Res (list vec).

(** [np.linalg.norm] of one row. *)
Variable norm : vec -> Q.

(** [faiss.Index.search(q, k)]: for each query row, the scores and the row
    numbers found. *)
Variable index_search :
  Index -> list vec -> Z -> Res (list (list Q) * list (list Z)).

(** [CrossEncoder(name)] *)
Variable cross_encoder : string -> Res Reranker.

Variable abspath : string -> string.

Definition index_path : string := STORAGE_DIR settings ++ "/index.faiss".
Definition store_path : string := STORAGE_DIR settings ++ "/store.jsonl".
Definition s_index_path : string :=
  STORAGE_DIR settings ++ "/index_sections.faiss".
Definition s_store_path : string :=
  STORAGE_DIR settings ++ "/store_sections.jsonl".

Definition eps : Q := 1 # 10000000000.

(** [X / (np.linalg.norm(X, axis=1, keepdims=True) + 1e-10)], as the exact
    quotient.  In [float32] the sum [norm + 1e-10] rounds to [norm] for a row
    of ordinary length and the quotient is rounded again: the length of a
    normalized row is 1 up to that rounding, which the exact quotient does
    not show. *)
Definition _normalize (X : list vec) : list vec :=
  map (fun row => map (fun a => a / (norm row + eps))%Q row) X.

Definition _load_chunks : M Env (list Chunk) :=
  e <- get ;;
  match chunks_jsonl (disk e) with
  | None => raise chunks_missing
  | Some items => ret items
  end.

Definition _load_sections : M Env (list Section_) :=
  e <- get ;;
  match sections_jsonl (disk e) with
  | None => ret []
  | Some items => ret items
  end.

(** [meta.update({...})] of [build]. *)
Definition update_meta (n_chunks : nat) (sections : list Section_)
    (meta : gmap string Json) : gmap string Json :=
  <["sections_embedded" := JInt (Z.of_nat (length sections))]>
  (<["faiss_index_sections" :=
       match sections with
       | [] => JNull
       | _ => JStr (abspath s_index_path)
       end]>
  (<["faiss_index" := JStr (abspath index_path)]>
  (<["embedding_model" := JStr (EMBEDDING_MODEL_NAME settings)]>
  (<["embeddings" := JInt (Z.of_nat n_chunks)]> meta)))).

(** [VectorStore.build]: returns [(embeddings, dim)]. *)
Definition build : M Env (Z * Z) :=
  chunks <- _load_chunks ;;
  let texts := map text chunks in
  emb <- lift (encode texts) ;;
  let emb := _normalize emb in
  e <- get ;;
  write (set_index_faiss {| d := dim (self e); rows := emb |}) ;;;
  write (set_store_jsonl chunks) ;;;
  sections <- _load_sections ;;
  match sections with
  | [] => ret tt
  | _ :: _ =>
      let s_texts := map s_text sections in
      s_emb <- lift (encode s_texts) ;;
      let s_emb := _normalize s_emb in
      write (set_index_sections_faiss {| d := dim (self e); rows := s_emb |}) ;;;
      write (set_store_sections_jsonl sections)
  end ;;;
  e' <- get ;;
  let meta := match meta_json (disk e') with
              | Some m => m
              | None => ∅
              end in
  write (set_meta_json (update_meta (length chunks) sections meta)) ;;;
  ret (Z.of_nat (length chunks), dim (self e)).

Definition _ensure_loaded : M Env unit :=
  e <- get ;;
  match index (self e) with
  | None =>
      match index_faiss (disk e) with
      | None => raise index_missing
      | Some ix => set_index ix
      end
  | Some _ => ret tt
  end ;;;
  e' <- get ;;
  match s_index (self e'), index_sections_faiss (disk e') with
  | None, Some six => set_s_index six
  | _, _ => ret tt
  end.

Definition _load_store : M Env (list Chunk) :=
  e <- get ;;
  match store_jsonl (disk e) with
  | None => raise (no_such_file store_path)
  | Some items => ret items
  end.

Definition _encode_query (texts : list string) : Res (list vec) :=
  let! q := encode texts in
  Ok (_normalize q).

(** [assert self.index is not None] *)
Definition the_index : M Env Index :=
  e <- get ;;
  match index (self e) with
  | Some ix => ret ix
  | None => raise AssertionError
  end.

(** The optional cross-encoder pass that ends both searches. *)
Definition rerank (query : string) (results : list SearchResult)
  : M Env (list SearchResult) :=
  if RERANK settings && negb (bool_decide (results = []))
  then
    try_except
      (e <- get ;;
       rr <- match _reranker (self e) with
             | None =>
                 ce <- lift (cross_encoder (RERANK_MODEL_NAME settings)) ;;
                 set_reranker ce ;;;
                 ret ce
             | Some ce => ret ce
             end ;;
       let pairs := map (fun r => (query, r_text r)) results in
       rerank_scores <- lift (rr pairs) ;;
       ret (sort_desc sort_key (assign_rerank results rerank_scores)))
      (fun _ => ret results)
  else ret results.

(** Lines 140-182, shared by the two searches: re-embed the candidates,
    run the MMR loop, build the result dicts. *)
Definition mmr_and_results (store : list Chunk) (candidates : list (Z * Q))
    (q_vec : list vec) (top_k : Z) (mmr_lambda : Q)
  : Res (list SearchResult) :=
  let! texts := map_res (fun c => let! it := py_item store (fst c) in
                                  Ok (text it)) candidates in
  let! cv := encode texts in
  let cand_vecs := _normalize cv in
  let! q_single := item q_vec 0 in
  let! sel := MMR.select top_k mmr_lambda q_single candidates cand_vecs in
  map_res (make_result store) sel.

(** The size of the request to the chunk index in [search] (line 131). *)
Definition search_k (top_k mmr_candidates : Z) (ix : Index) : Z :=
  Z.min (Z.max (top_k * 4) mmr_candidates) (ntotal ix).

(** [VectorStore.search] *)
Definition search (query : string) (top_k : Z) (mmr_lambda : Q)
    (mmr_candidates : Z) : M Env (list SearchResult) :=
  _ensure_loaded ;;;
  ix <- the_index ;;
  q <- lift (_encode_query [query]) ;;
  found <- lift (index_search ix q (search_k top_k mmr_candidates ix)) ;;
  scores <- lift (item (fst found) 0) ;;
  idxs <- lift (item (snd found) 0) ;;
  store <- _load_store ;;
  let candidates := drop_sentinel idxs scores in
  results <- lift (mmr_and_results store candidates q top_k mmr_lambda) ;;
  rerank query results.

(** The size of the request to the chunk index in [search_advanced]
    (line 221). *)
Definition search_advanced_k (top_k mmr_candidates : Z) (ix : Index) : Z :=
  Z.min (Z.max (top_k * 8) (mmr_candidates * 2)) (ntotal ix).

(** The query embedding of [search_advanced] (lines 215-219). *)
Definition query_vector (query : string) (hyde : option string)
  : Res (list vec) :=
  match hyde with
  | Some h =>
      if truthy hyde
      then let! rows := _encode_query [query; h] in Ok [mean_axis0 rows]
      else _encode_query [query]
  | None => _encode_query [query]
  end.

(** [sid] of the rows found in the section index (lines 232-235). *)
Definition section_ids (sec_store : list Section_) (s_idxs : list Z)
  : Res (list (option string)) :=
  map_res (fun i => let! s := py_item sec_store i in Ok (s_id s))
    (List.filter (fun i => negb (i =? -1)
                           && (i <? Z.of_nat (length sec_store))) s_idxs).

(** [set([sid for sid in s_ids if sid]) if s_ids else None] *)
Definition allowed_set (s_ids : list (option string)) : option (gset string) :=
  match s_ids with
  | [] => None
  | _ :: _ =>
      Some (list_to_set
              (omap (fun sid => if truthy sid then sid else None) s_ids))
  end.

(** Lines 226-236. *)
Definition allowed_sections_of (use_h : bool) (sec_k : Z) (q_vec : list vec)
  : M Env (option (gset string)) :=
  e <- get ;;
  match use_h, s_index (self e), store_sections_jsonl (disk e) with
  | true, Some six, Some sec_store =>
      found <- lift (index_search six q_vec (Z.min sec_k (ntotal six))) ;;
      s_idxs <- lift (item (snd found) 0) ;;
      s_ids <- lift (section_ids sec_store s_idxs) ;;
      ret (allowed_set s_ids)
  | _, _, _ => ret None
  end.

(** [store[i].get("section_id") in allowed_sections] *)
Definition in_allowed (store : list Chunk) (allowed : gset string)
    (c : Z * Q) : Res bool :=
  let! it := py_item store (fst c) in
  Ok (match section_id it with
      | Some sid => bool_decide (sid ∈ allowed)
      | None => false
      end).

(** Lines 239-242: the hierarchical filter and its fallback. *)
Definition section_filter (store : list Chunk)
    (allowed_sections : option (gset string)) (top_k mmr_candidates : Z)
    (candidates : list (Z * Q)) : Res (list (Z * Q)) :=
  match allowed_sections with
  | Some allowed =>
      if bool_decide (allowed = ∅) then Ok candidates
      else
        let! filtered := filter_res (in_allowed store allowed) candidates in
        if Z.max (top_k * 2) mmr_candidates <=? Z.of_nat (length filtered)
        then Ok filtered
        else Ok candidates
  | None => Ok candidates
  end.

(** [VectorStore.search_advanced] *)
Definition search_advanced (query : string) (top_k : Z) (mmr_lambda : Q)
    (mmr_candidates : Z) (hyde : option string)
    (use_hierarchical : option bool) (section_top_k : option Z)
  : M Env (list SearchResult) :=
  _ensure_loaded ;;;
  ix <- the_index ;;
  let use_h := match use_hierarchical with
               | None => HIERARCHICAL_RETRIEVAL settings
               | Some b => b
               end in
  let sec_k := match section_top_k with
               | None => SECTION_TOP_K settings
               | Some k => k
               end in
  q_vec <- lift (query_vector query hyde) ;;
  found <- lift (index_search ix q_vec
                   (search_advanced_k top_k mmr_candidates ix)) ;;
  scores <- lift (item (fst found) 0) ;;
  idxs <- lift (item (snd found) 0) ;;
  store <- _load_store ;;
  allowed_sections <- allowed_sections_of use_h sec_k q_vec ;;
  let candidates := drop_sentinel idxs scores in
  candidates <- lift (section_filter store allowed_sections top_k
                        mmr_candidates candidates) ;;
  results <- lift (mmr_and_results store candidates q_vec top_k mmr_lambda) ;;
  rerank query results.

End Retriever.

(** ** Calling a Python method with keyword arguments *)

(** A [def]: its qualified name ([__qualname__], which the interpreter
    writes in the message of the [TypeError] since CPython 3.10; the compiled
    files of the repository are those of CPython 3.11), its parameter names,
    and whether it takes [**kwargs]. *)
Record Signature : Type := {
  sig_name : string;
  sig_params : list string;
  sig_var_keyword : bool
}.

(** Binding the keyword arguments of a call: a keyword that names no
    parameter is a [TypeError] unless the function takes [**kwargs]. *)
Definition bind_keywords (sig : Signature) (keywords : list string) : Res unit :=
  match List.filter (fun k => negb (bool_decide (k ∈ sig_params sig))) keywords with
  | [] => Ok tt
  | k :: _ =>
      if sig_var_keyword sig then Ok tt
      else Raise (TypeError (sig_name sig
                             ++ "() got an unexpected keyword argument '"
                             ++ k ++ "'"))
  end.

(** [def build(self) -> Dict[str, Any]:] in [class VectorStore]
    (retriever.py, line 55) *)
Definition build_signature : Signature :=
  {| sig_name := "VectorStore.build"; sig_params := ["self"];
     sig_var_keyword := false |}.

(** [str(e)] *)
Definition exc_str (e : PyExc) : string :=
  match e with
  | FileNotFoundError msg => msg
  | TypeError msg => msg
  | IndexError => "list index out of range"
  | ValueError => "attempt to get argmax of an empty sequence"
  | AssertionError => ""
  | ProviderError => "embedding provider failed"
  end.

(** ** [Indexer] ([backend/app/indexer.py]) *)

Record Indexer : Type := {
  status : string;
  progress : Z;
  message : string;
  started_at : option Q;
  ended_at : option Q;
  last_error : option string
}.

(** [info] as [ingest_pdf] returns it, the two entries that [_run] reads. *)
Record IngestInfo : Type := {
  pages : Z;
  chunks : Z
}.

(** What the indexer's methods read and write: the object, the storage
    directory, whether [self._thread] is set and alive, whether
    [self._lock] is held, and, to observe the intermediate states, the
    states stored by [_set] so far, oldest first. *)
Record World : Type := {
  me : Indexer;
  files : Files;
  thread_alive : bool;
  locked : bool;
  history : list Indexer
}.

(** What a call that takes [self._lock] comes to: it returns, or it waits
    for ever. *)
Inductive Call (A : Type) : Type :=
  | Returns (a : A)
  | Blocks.

Arguments Returns {A} a.
Arguments Blocks {A}.

(** Sequencing calls that may wait: what follows a call that waits for ever
    is not run. *)
Definition wait_bind {S A B : Type} (m : M S (Call A))
    (k : A -> M S (Call B)) : M S (Call B) :=
  c <- m ;;
  match c with
  | Returns a => k a
  | Blocks => ret Blocks
  end.

Notation "x <~ m ;; k" := (wait_bind m (fun x => k))
  (at level 100, m at next level, right associativity).
Notation "m ;;~ k" := (wait_bind m (fun _ => k))
  (at level 100, right associativity).

(** A step that takes no lock. *)
Definition served {S A : Type} (m : M S A) : M S (Call A) :=
  a <- m ;;
  ret (Returns a).

Definition set_locked (b : bool) (w : World) : World :=
  {| me := me w; files := files w; thread_alive := thread_alive w;
     locked := b; history := history w |}.

(** [with self._lock: body].  The lock is a [threading.Lock], which is not
    reentrant and has no owner: whoever asks for it while it is held waits
    until it is released.  A thread holds it for the time of a [body] only,
    so between two steps it is held only by a call that waits inside its
    [body], and that call never releases it.  The bodies below raise
    nothing. *)
Definition with_lock {A : Type} (body : M World (Call A))
  : M World (Call A) :=
  w <- get ;;
  if locked w then ret Blocks
  else
    modify (set_locked true) ;;;
    a <~ body ;;
    modify (set_locked false) ;;;
    ret (Returns a).

(** [Indexer._set]: one locked update of the attributes. *)
Definition _set (f : Indexer -> Indexer) : M World (Call unit) :=
  with_lock
    (served
       (modify (fun w =>
          {| me := f (me w); files := files w;
             thread_alive := thread_alive w; locked := locked w;
             history := history w ++ [f (me w)] |}))).

(** [Indexer._progress] *)
Definition _progress (pct : Z) (msg : string) : M World (Call unit) :=
  _set (fun i =>
    {| status := status i; progress := Z.max 0 (Z.min 100 pct);
       message := msg; started_at := started_at i;
       ended_at := ended_at i; last_error := last_error i |}).

(** [Indexer.status_json] *)
Definition status_json : M World (Call Indexer) :=
  with_lock (w <- get ;; ret (Returns (me w))).

(** Running a method of the retriever on the storage directory. *)
Definition on_files {A : Type} (vs : VectorStore) (m : M Env A) : M World A :=
  fun w =>
    match m {| self := vs; disk := files w |} with
    | (r, e) =>
        (r, {| me := me w; files := disk e;
               thread_alive := thread_alive w; locked := locked w;
               history := history w |})
    end.

Section IndexerMethods.

Variable settings : Settings.
Variable encode : list string -> Res (list vec).
Variable norm : vec -> Q.
Variable abspath : string -> string.

(** [ingest.ingest_pdf], the PDF parser and chunker: it writes
    [chunks.jsonl], [sections.jsonl] and [meta.json], or raises. *)
Variable ingest_pdf : string -> Files -> Res IngestInfo * Files.

(** [VectorStore()]: loads the embedding model. *)
Variable new_VectorStore : Res VectorStore.

(** The two readings of [time.time()] in one [_run]. *)
Variables (t_start t_end : Q).

(** [vs.build(progress_cb=cb)]: the call binds its keyword before the body
    of [build] runs; the value of [cb] plays no role in that. *)
Definition call_build (keywords : list string) (vs : VectorStore)
  : M World (Z * Z) :=
  lift (bind_keywords build_signature keywords) ;;;
  on_files vs (build settings encode norm abspath).

(** [Indexer._run] *)
Definition _run (pdf_path : string) : M World (Call unit) :=
  _set (fun i =>
    {| status := "indexing"; progress := 1;
       message := "Starting indexing…"; started_at := Some t_start;
       ended_at := None; last_error := None |}) ;;~
  try_except
    (_progress 10 "Parsing and chunking PDF…" ;;~
     info <~ served
               (fun w =>
                  match ingest_pdf pdf_path (files w) with
                  | (r, f) =>
                      (r, {| me := me w; files := f;
                             thread_alive := thread_alive w;
                             locked := locked w;
                             history := history w |})
                  end) ;;
     _progress 55 ("Parsed " ++ pretty (pages info) ++ " pages, "
                   ++ pretty (chunks info)
                   ++ " chunks. Loading embedding model…") ;;~
     vs <~ served (lift new_VectorStore) ;;
     _progress 56 "Building vectors…" ;;~
     served (call_build ["progress_cb"] vs) ;;~
     _progress 100 "Index ready" ;;~
     _set (fun i =>
       {| status := "ready"; progress := progress i; message := message i;
          started_at := started_at i; ended_at := Some t_end;
          last_error := last_error i |}))
    (fun e =>
     _set (fun i =>
       {| status := "error"; progress := progress i; message := message i;
          started_at := started_at i; ended_at := Some t_end;
          last_error := Some (exc_str e) |})).

(** [Indexer.start]: what [status_json()] returns and, when the call starts
    the background thread, the path that the thread runs [_run] on.  The
    [return] of line 67 is inside [with self._lock:]; the two others are
    outside of it.  After [t.start()] the status is read while the thread
    runs: it is the status before the run, as here, or one of those that
    the run stores, which are in [history]. *)
Definition start (pdf_path : option string)
  : M World (Call (Indexer * option string)) :=
  let path := if truthy pdf_path
              then default "" pdf_path
              else DEFAULT_PDF_PATH settings in
  live <~ with_lock
            (w <- get ;;
             if String.eqb (status (me w)) "indexing" && thread_alive w
             then i <~ status_json ;; ret (Returns (Some i))
             else ret (Returns None)) ;;
  match live with
  | Some i => ret (Returns (i, None))
  | None =>
      w <- get ;;
      match index_faiss (files w) with
      | Some _ =>
          _set (fun i =>
            {| status := "ready"; progress := 100; message := "Index ready";
               started_at := started_at i; ended_at := ended_at i;
               last_error := last_error i |}) ;;~
          i <~ status_json ;;
          ret (Returns (i, None))
      | None =>
          modify (fun w =>
            {| me := me w; files := files w; thread_alive := true;
               locked := locked w; history := history w |}) ;;;
          i <~ status_json ;;
          ret (Returns (i, Some path))
      end
  end.

(** [start] followed by the whole run of the thread it started, if any: the
    status after that run, or the status that [start] returned when it
    started no thread. *)
Definition start_and_join (pdf_path : option string)
  : M World (Call Indexer) :=
  r <~ start pdf_path ;;
  match snd r with
  | Some path =>
      _run path ;;~
      modify (fun w =>
        {| me := me w; files := files w; thread_alive := false;
           locked := locked w; history := history w |}) ;;;
      w <- get ;;
      ret (Returns (me w))
  | None => ret (Returns (fst r))
  end.

End IndexerMethods.

(** ** Reference collaborators for the worked examples *)

(** Modelled from the spec: the Vector Index search of section 4.1 (FAISS
    is an external library): the top [k] rows by descending inner product,
    all of them when [k] exceeds their number, ties broken by lowest row. *)
Definition flat_ip_search (ix : Index) (q : list vec) (k : Z)
  : Res (list (list Q) * list (list Z)) :=
  let found qv :=
    take (Z.to_nat k)
      (sort_desc snd (imap (fun i row => (Z.of_nat i, dot row qv)) (rows ix))) in
  Ok (map (fun qv => map snd (found qv)) q,
      map (fun qv => map fst (found qv)) q).

(** A norm for the examples: the square root of the sum of squares, to ten
    decimal places. *)
Definition norm10 (v : vec) : Q :=
  Z.sqrt (Qfloor (dot v v * inject_Z (10 ^ 20))) # 10000000000.

(** ** The selector in the words of the specification (section 4.4)

    First pick: the highest raw relevance. Later picks: the argmax over the
    remaining candidates of
    [lambda * sim(candidate, query) + (1 - lambda) * (1 - max similarity to
    the items already selected)], ties to the lowest ordinal. Exactly
    [min(top_k, |candidates|)] iterations. *)
Module MMRSpec.

Definition cand : Type := (Z * Q * vec)%type.

Definition objective (lam : Q) (q_vec : vec) (selected : list cand)
    (c : cand) : Q :=
  match selected with
  | [] => snd (fst c)
  | s :: sel =>
      lam * dot (snd c) q_vec
      + (1 - lam) * (1 - max_of (dot (snd c) (snd s))
                                (map (fun s' => dot (snd c) (snd s')) sel))
  end%Q.

Fixpoint loop (iterations : nat) (lam : Q) (q_vec : vec)
    (selected pool : list cand) : list cand :=
  match iterations with
  | O => selected
  | S n =>
      match np_argmax (map (objective lam q_vec selected) pool) with
      | Ok pos =>
          match pool !! pos with
          | Some c => loop n lam q_vec (selected ++ [c]) (delete pos pool)
          | None => selected
          end
      | Raise _ => selected
      end
  end.

Definition select (top_k : Z) (lam : Q) (q_vec : vec)
    (cands : list (Z * Q)) (vecs : list vec) : list (Z * Q) :=
  map fst
    (loop (Z.to_nat (Z.min top_k (Z.of_nat (length cands)))) lam q_vec []
          (zip cands vecs)).

End MMRSpec.

(** ** Predicates used in the statements *)

(** The filter of line 240 as a boolean test, false when the store lookup
    fails. *)
Definition keeps (store : list Chunk) (allowed : gset string) (c : Z * Q)
  : bool :=
  match in_allowed store allowed c with
  | Ok b => b
  | Raise _ => false
  end.

(** The request of [search_advanced] in the words of the specification:
    factor 8 and the floor [mmr_candidates] itself. *)
Definition claimed_advanced_k (top_k mmr_candidates : Z) (ix : Index) : Z :=
  Z.min (Z.max (top_k * 8) mmr_candidates) (ntotal ix).

(** The index that a search finds: the cached one, else the one on file. *)
Definition available (env : Env) : option Index :=
  match index (self env) with
  | Some ix => Some ix
  | None => index_faiss (disk env)
  end.

(** Exceptions raised by list indexing and [np.argmax]. *)
Definition benign (e : PyExc) : Prop := e = IndexError \/ e = ValueError.

(** The keys that [build] writes into the metadata record. *)
Definition meta_keys : list string :=
  ["embeddings"; "embedding_model"; "faiss_index"; "faiss_index_sections";
   "sections_embedded"].

(** The three parallel lists of the loop describe one pool. *)
Definition aligned (st : MMR.state) : Prop :=
  length (MMR.cand_vecs st) = length (MMR.candidates st)
  /\ MMR.cand_idxs st = map fst (MMR.candidates st).

(** The rows already selected are not in the pool any more. *)
Definition fresh (st : MMR.state) : Prop :=
  NoDup (MMR.cand_idxs st)
  /\ Forall (fun si => si ∉ MMR.cand_idxs st) (MMR.selected st).

(** Relevance order on (row, score) pairs: higher score first, lowest row
    first among equal scores. *)
Definition rel_before (c1 c2 : Z * Q) : Prop :=
  (snd c2 < snd c1)%Q \/ ((snd c1 == snd c2)%Q /\ fst c1 <= fst c2).




(** The bound of the specification: [min(top_k, |candidates|)]. *)
Definition claimed_size (top_k : Z) (cands : list (Z * Q)) : Z :=
  Z.min top_k (Z.of_nat (length cands)).

(** The order in which an index search lists its rows (section 4.1). *)
Definition index_ordered (cands : list (Z * Q)) : Prop :=
  StronglySorted rel_before cands.



(** The number of picks that the loop makes on a pool of [n] candidates:
    [min(top_k, ceil(n / 2))], none when [top_k <= 0]. *)
Definition picks_of (top_k : Z) (n : nat) : nat :=
  Z.to_nat (Z.min top_k ((Z.of_nat n + 1) / 2)).

(** Squared length one. *)
Definition unit_vector (v : vec) : Prop := (dot v v == 1)%Q.

(** ** The three-chunk scenario of the specification *)

Module Scenario.

Definition mk_chunk (name body sec : string) (i : Z) : Chunk :=
  {| id := name; section_title := Some sec; section_id := Some sec;
     level := 1; page_start := Some 1; page_end := Some 1;
     chunk_index := i; text := body; approx_tokens := 1 |}.

Definition chunk_a : Chunk := mk_chunk "chunk_a" "a" "s1" 0.
Definition chunk_b : Chunk := mk_chunk "chunk_b" "b" "s2" 0.
Definition chunk_c : Chunk := mk_chunk "chunk_c" "c" "s2" 1.

Definition store : list Chunk := [chunk_a; chunk_b; chunk_c].

(** An index of a hundred rows. *)
Definition big_index : Index := {| d := 2; rows := replicate 100 [1; 0]%Q |}.

(** The embedding provider of the scenario: the known vectors. *)
Definition embed (t : string) : vec :=
  (if String.eqb t "a" then [1; 0]
   else if String.eqb t "b" then [0; 1]
   else if String.eqb t "c" then [7 # 10; 7 # 10]
   else if String.eqb t "h" then [0; 1]
   else [1; 0])%Q.

Definition encode (texts : list string) : Res (list vec) :=
  Ok (map embed texts).

Definition settings : Settings :=
  {| STORAGE_DIR := "storage"; DEFAULT_PDF_PATH := "data/manual.pdf";
     EMBEDDING_MODEL_NAME := "sentence-transformers/all-MiniLM-L6-v2";
     RERANK := false;
     RERANK_MODEL_NAME := "cross-encoder/ms-marco-MiniLM-L-6-v2";
     HIERARCHICAL_RETRIEVAL := true; SECTION_TOP_K := 3 |}.

Definition no_reranker (name : string) : Res Reranker := Raise ProviderError.

Definition empty_files : Files :=
  {| chunks_jsonl := None; sections_jsonl := None; index_faiss := None;
     store_jsonl := None; index_sections_faiss := None;
     store_sections_jsonl := None; meta_json := None |}.

Definition ingested : Files :=
  {| chunks_jsonl := Some store;
     sections_jsonl := None; index_faiss := None;
     store_jsonl := None; index_sections_faiss := None;
     store_sections_jsonl := None; meta_json := None |}.

Definition fresh_store : VectorStore :=
  {| dim := 2; index := None; s_index := None; _reranker := None |}.

(** The query vector and the pool of the scenario, in index order: (row,
    score) with chunk_a at row 0, chunk_b at row 1, chunk_c at row 2. *)
Definition q_vec : vec := [1; 0]%Q.
Definition pool : list (Z * Q) := [(0, 1%Q); (2, 7 # 10); (1, 0%Q)].
Definition pool_vecs : list vec := [[1; 0]; [7 # 10; 7 # 10]; [0; 1]]%Q.

(** An index that answers requests of one size only. *)
Definition only_at (size : Index -> Z) (ix : Index) (q : list vec) (k : Z)
  : Res (list (list Q) * list (list Z)) :=
  if k =? size ix then flat_ip_search ix q k else Raise AssertionError.

(** The state after a successful [build] on the three chunks. *)
Definition built : Env :=
  snd (build settings encode norm10 (fun p => p)
         {| self := fresh_store; disk := ingested |}).

(** The index that this build wrote. *)
Definition built_index : Index :=
  {| d := 2;
     rows := _normalize norm10 [[1; 0]; [0; 1]; [7 # 10; 7 # 10]]%Q |}.

(** A new process whose embedding model has dimension 3, on the files of
    the build above. *)
Definition other_model : Env :=
  {| self := {| dim := 3; index := None; s_index := None;
                _reranker := None |};
     disk := disk built |}.

(** A second ingestion left one chunk and one section on the files of the
    build above; its build runs with a provider that fails on the text of
    the section. *)
Definition section_1 : Section_ :=
  {| s_id := Some "s2"; s_title := "Two"; s_level := 1; s_text := "boom" |}.

Definition flaky_encode (texts : list string) : Res (list vec) :=
  if bool_decide ("boom" ∈ texts) then Raise ProviderError
  else Ok (map embed texts).

Definition rebuild : Env :=
  {| self := fresh_store;
     disk := {| chunks_jsonl := Some [chunk_b];
                sections_jsonl := Some [section_1];
                index_faiss := index_faiss (disk built);
                store_jsonl := store_jsonl (disk built);
                index_sections_faiss := index_sections_faiss (disk built);
                store_sections_jsonl := store_sections_jsonl (disk built);
                meta_json := meta_json (disk built) |} |}.

(** The same chunks with two sections on file: section s1 (of chunk_a)
    embeds as [0, 1], section s2 (of chunk_b and chunk_c) as [1, 0], so that
    s2 is the section nearest to the query. *)
Definition section_s1 : Section_ :=
  {| s_id := Some "s1"; s_title := "One"; s_level := 1; s_text := "b" |}.
Definition section_s2 : Section_ :=
  {| s_id := Some "s2"; s_title := "Two"; s_level := 1; s_text := "a" |}.

Definition built_with_sections : Env :=
  snd (build settings encode norm10 (fun p => p)
         {| self := fresh_store;
            disk := {| chunks_jsonl := Some store;
                       sections_jsonl := Some [section_s1; section_s2];
                       index_faiss := None; store_jsonl := None;
                       index_sections_faiss := None;
                       store_sections_jsonl := None;
                       meta_json := None |} |}).

(** [search_advanced("q", top_k, 0.5, mmr_candidates, None, use_h, 1)] on
    that build; the ids of the results. *)
Definition run_advanced (top_k mmr_candidates : Z) (use_h : bool)
  : Res (list string) :=
  match fst (search_advanced settings encode norm10 flat_ip_search
               no_reranker "q" top_k (1 # 2) mmr_candidates None
               (Some use_h) (Some 1)
               {| self := fresh_store; disk := disk built_with_sections |})
  with
  | Ok results => Ok (map r_id results)
  | Raise e => Raise e
  end.

(** [search("q", top_k, mmr_lambda, 24)] on the built index. *)
Definition run_search (top_k : Z) (mmr_lambda : Q) : Res (list SearchResult) :=
  fst (search settings encode norm10 flat_ip_search no_reranker
         "q" top_k mmr_lambda 24
         {| self := fresh_store; disk := disk built |}).

(** That search step by step: the query row, the answer of the index to
    the request for 3 rows, the candidates, their texts and the rows that
    the provider gives for these texts. *)
Definition query_rows : list vec := _normalize norm10 [embed "q"].

Definition answer : list (list Q) * list (list Z) :=
  match flat_ip_search built_index query_rows 3 with
  | Ok found => found
  | Raise _ => ([], [])
  end.

Definition found_scores : list Q := default [] (fst answer !! 0%nat).
Definition found_rows : list Z := default [] (snd answer !! 0%nat).

Definition found_candidates : list (Z * Q) :=
  drop_sentinel found_rows found_scores.


(** The files of the build with [store.jsonl] removed. *)
Definition without_store : Env :=
  {| self := fresh_store;
     disk := {| chunks_jsonl := chunks_jsonl (disk built);
                sections_jsonl := sections_jsonl (disk built);
                index_faiss := index_faiss (disk built);
                store_jsonl := None;
                index_sections_faiss := index_sections_faiss (disk built);
                store_sections_jsonl := store_sections_jsonl (disk built);
                meta_json := meta_json (disk built) |} |}.







(** An indexer that has not run yet, on an empty storage directory, and an
    ingestion that succeeds with the three chunks. *)
Definition idle_world : World :=
  {| me := {| status := "idle"; progress := 0; message := "";
              started_at := None; ended_at := None; last_error := None |};
     files := empty_files; thread_alive := false; locked := false;
     history := [] |}.

(** The same indexer while a first run is under way: status "indexing",
    thread alive. *)
Definition busy_world : World :=
  {| me := {| status := "indexing"; progress := 10;
              message := "Parsing and chunking PDF…";
              started_at := Some 0%Q; ended_at := None; last_error := None |};
     files := empty_files; thread_alive := true; locked := false;
     history := [] |}.

Definition ingest_ok (pdf_path : string) (f : Files)
  : Res IngestInfo * Files :=
  (Ok {| pages := 1; chunks := 3 |}, ingested).

End Scenario.

(** ** [GET /stats] ([backend/app/main.py]) *)

Record StatsResponse : Type := {
  st_chunks : Z;
  st_sections : Z;
  st_pages : Z;
  st_embedding_model : string;
  st_rerank_enabled : bool;
  st_has_index : bool;
  st_storage_dir : string
}.

Section Stats.

Variable settings : Settings.
Variable abspath : string -> string.

(** [int(s)] for a string, a builtin. *)
Variable int_of_str : string -> Res Z.

(** [int(m.get(key, 0))] on the values that [meta.json] holds. *)
Definition meta_int (m : gmap string Json) (key : string) : Res Z :=
  match m !! key with
  | None => Ok 0
  | Some (JInt n) => Ok n
  | Some (JStr s) => int_of_str s
  | Some JNull =>
      Raise (TypeError "int() argument must be a string, a bytes-like object or a real number, not 'NoneType'")
  end.

(** The handler [stats]. *)
Definition stats (f : Files) : Res StatsResponse :=
  let has_index := match index_faiss f with Some _ => true | None => false end in
  let! counts :=
    match meta_json f with
    | Some m =>
        let! pages := meta_int m "pages" in
        let! sections := meta_int m "sections" in
        let! chunks := meta_int m "chunks" in
        Ok (pages, sections, chunks)
    | None => Ok (0, 0, 0)
    end in
  Ok {| st_chunks := snd counts;
        st_sections := snd (fst counts);
        st_pages := fst (fst counts);
        st_embedding_model := EMBEDDING_MODEL_NAME settings;
        st_rerank_enabled := RERANK settings;
        st_has_index := has_index;
        st_storage_dir := abspath (STORAGE_DIR settings) |}.

End Stats.

(** The sections that [build] embeds: none when [sections.jsonl] is
    absent. *)
Definition sections_on_file (f : Files) : list Section_ :=
  match sections_jsonl f with
  | Some items => items
  | None => []
  end.

(** The results differ at most in their [rerank_score]. *)
Definition same_hit (r r' : SearchResult) : Prop :=
  r_id r' = r_id r /\ r_text r' = r_text r
  /\ r_section_title r' = r_section_title r
  /\ r_page_start r' = r_page_start r /\ r_page_end r' = r_page_end r
  /\ r_score r' = r_score r.

(** A result is the store row [i] with the score [s]. *)
Definition hit_of (store : list Chunk) (c : Z * Q) (r : SearchResult) : Prop :=
  exists it,
    py_item store (fst c) = Ok it
    /\ r_id r = id it /\ r_text r = text it
    /\ r_section_title r = section_title it
    /\ r_page_start r = page_start it /\ r_page_end r = page_end it
    /\ r_score r = snd c.

(** The predictor that [rerank] would call from a state, if it can get
    one: the cached cross-encoder, else a newly constructed one. *)
Definition predictor (settings : Settings)
    (cross_encoder : string -> Res Reranker) (env : Env) : Res Reranker :=
  match _reranker (self env) with
  | Some rr => Ok rr
  | None => cross_encoder (RERANK_MODEL_NAME settings)
  end.

(** [stats] with [has_index] set. *)
Definition with_index (r : StatsResponse) : StatsResponse :=
  {| st_chunks := st_chunks r; st_sections := st_sections r;
     st_pages := st_pages r; st_embedding_model := st_embedding_model r;
     st_rerank_enabled := st_rerank_enabled r; st_has_index := true;
     st_storage_dir := st_storage_dir r |}.

(** ** Data of the further examples *)

Module Examples.

(** Reranking switched on. *)
Definition reranking : Settings :=
  {| STORAGE_DIR := "storage"; DEFAULT_PDF_PATH := "data/manual.pdf";
     EMBEDDING_MODEL_NAME := "sentence-transformers/all-MiniLM-L6-v2";
     RERANK := true;
     RERANK_MODEL_NAME := "cross-encoder/ms-marco-MiniLM-L-6-v2";
     HIERARCHICAL_RETRIEVAL := true; SECTION_TOP_K := 3 |}.

Definition hit (name body : string) (score : Q) : SearchResult :=
  {| r_id := name; r_text := body; r_section_title := None;
     r_page_start := Some 1; r_page_end := Some 1; r_score := score;
     r_rerank_score := None |}.

Definition two_results : list SearchResult :=
  [hit "chunk_a" "a" 1; hit "chunk_c" "cc" (7 # 10)].

(** A cross-encoder that scores a pair by the length of its text. *)
Definition length_scores : Reranker :=
  fun pairs =>
    Ok (map (fun p => inject_Z (Z.of_nat (String.length (snd p)))) pairs).

Definition by_length (name : string) : Res Reranker := Ok length_scores.

(** An idle indexer on the storage directory of the built scenario. *)
Definition built_world : World :=
  {| me := me Scenario.idle_world; files := disk Scenario.built;
     thread_alive := false; locked := false; history := [] |}.

End Examples.


(** ** Text: [backend/app/utils/tokenize.py]

    The chunker works on the characters of a [str]: a text is the list of its
    code points.  [str.isspace] of one character, which is also what [\s]
    matches in a [str] pattern, is a variable of the section. *)

Definition pystr : Type := list N.

(** [bool(s)] of a [str] or of a list. *)
Definition nonempty {A : Type} (l : list A) : bool :=
  match l with
  | [] => false
  | _ :: _ => true
  end.

(** [s[-n:]] for [n > 0]: the last [n] characters, all of [s] when it is
    shorter. *)
Definition last_chars {A : Type} (n : nat) (s : list A) : list A :=
  drop (length s - n) s.

(** [s.startswith(d)]. *)
Fixpoint startswith (d s : pystr) : bool :=
  match d, s with
  | [], _ => true
  | _ :: _, [] => false
  | a :: d', b :: s' => (a =? b)%N && startswith d' s'
  end.

(** [s.split(d)] for a non-empty separator [d], scanning from the left;
    [skip] counts the characters of a separator that are still to be
    passed over.  The head of the result is the piece being read. *)
Fixpoint split_skip (d s : pystr) (skip : nat) : list pystr :=
  match s with
  | [] => [[]]
  | c :: s' =>
      match skip with
      | S k => split_skip d s' k
      | O =>
          if startswith d s then [] :: split_skip d s' (length d - 1)
          else match split_skip d s' 0 with
               | p :: ps => (c :: p) :: ps
               | [] => [[c]]
               end
      end
  end.

Definition str_split (d s : pystr) : list pystr := split_skip d s 0.

(** [d.join(l)]. *)
Fixpoint str_join (d : pystr) (l : list pystr) : pystr :=
  match l with
  | [] => []
  | [p] => p
  | p :: ps => p ++ d ++ str_join d ps
  end.

(** [_delims]: a blank line, the three bullet openings, the end of a
    sentence. *)
Definition _delims : list pystr :=
  [ [10; 10]; [10; 45; 32]; [10; 8226; 32]; [10; 42; 32]; [46; 32] ]%N.

(** [max(1, int(len(text) / 5))]: [int] truncates a non-negative quotient. *)
Definition rough_token_count (text : pystr) : Z :=
  Z.max 1 (Z.of_nat (length text) / 5).

(** The three variables of the word loop of [smart_split]. *)
Record WordLoop : Type := {
  chunks_ : list pystr;
  cur : list pystr;
  cur_tokens : Z
}.

Section Tokenize.

Variable isspace : N -> bool.

Fixpoint lstrip (s : pystr) : pystr :=
  match s with
  | [] => []
  | c :: s' => if isspace c then lstrip s' else s
  end.

Definition rstrip (s : pystr) : pystr := reverse (lstrip (reverse s)).

(** [s.strip()]. *)
Definition strip (s : pystr) : pystr := lstrip (rstrip s).

(** [re.split(r"(\s+)", s)]: the runs without whitespace, and between two of
    them the run of whitespace that separates them (the group is captured);
    the first and the last run are empty when [s] starts or ends with
    whitespace. *)
Fixpoint re_split_ws (s : pystr) : list pystr :=
  match s with
  | [] => [[]]
  | c :: s' =>
      let r := re_split_ws s' in
      if isspace c then
        match r with
        | [] :: ws :: rest => [] :: (c :: ws) :: rest
        | _ => [] :: [c] :: r
        end
      else
        match r with
        | p :: ps => (c :: p) :: ps
        | [] => [[c]]
        end
  end.

(** One pass of [for d in _delims]: a part within the limit is kept, a
    larger one is replaced by its non-empty pieces. *)
Definition split_parts (max_tokens : Z) (d : pystr) (parts : list pystr)
  : list pystr :=
  flat_map
    (fun p =>
       if rough_token_count p <=? max_tokens then [p]
       else List.filter nonempty (str_split d p))
    parts.

Definition delim_parts (max_tokens : Z) (text : pystr) : list pystr :=
  fold_left (fun parts d => split_parts max_tokens d parts) _delims [text].

(** The body of [for w in words]. *)
Definition word_step (max_tokens overlap_tokens : Z) (a : WordLoop)
    (w : pystr) : WordLoop :=
  let t := rough_token_count w in
  let a' :=
    if (cur_tokens a + t >? max_tokens) && nonempty (cur a) then
      let chunk := strip (concat (cur a)) in
      let overlap_chars := Z.max 0 (overlap_tokens * 5) in
      let tail :=
        if (overlap_chars >? 0) && nonempty chunk
        then last_chars (Z.to_nat overlap_chars) chunk
        else [] in
      {| chunks_ := chunks_ a ++ [chunk];
         cur := [tail];
         cur_tokens := rough_token_count tail |}
    else a in
  {| chunks_ := chunks_ a';
     cur := cur a' ++ [w];
     cur_tokens := cur_tokens a' + t |}.

(** The body of [for p in parts]: [cur] and [cur_tokens] start afresh,
    [chunks] is carried on. *)
Definition part_step (max_tokens overlap_tokens : Z) (cs : list pystr)
    (p : pystr) : list pystr :=
  let a :=
    fold_left (word_step max_tokens overlap_tokens) (re_split_ws p)
      {| chunks_ := cs; cur := []; cur_tokens := 0 |} in
  if nonempty (cur a) then chunks_ a ++ [strip (concat (cur a))]
  else chunks_ a.

Definition smart_split (text : pystr) (max_tokens overlap_tokens : Z)
  : list pystr :=
  if negb (nonempty text) then []
  else if rough_token_count text <=? max_tokens then [strip text]
  else
    let parts := delim_parts max_tokens text in
    let cs := fold_left (part_step max_tokens overlap_tokens) parts [] in
    List.filter nonempty cs.

End Tokenize.

(** [c] occurs in [s] as a run of consecutive characters. *)
Definition occurs_in (c s : pystr) : Prop := exists l r, s = l ++ c ++ r.

(** [c] is cut out of [text]. *)
Definition cut_of (text c : pystr) : Prop := occurs_in c text.

(** [c] is made of a tail and of a run of the text: it is the stripped join
    of [tail], at most [n] characters that end a non-empty chunk of [cs] (or
    none), and of consecutive characters of [text]. *)
Definition tail_and_run (isspace : N -> bool) (text : pystr) (n : nat)
    (cs : list pystr) (c : pystr) : Prop :=
  exists tail s,
    c = strip isspace (tail ++ s) /\
    occurs_in s text /\
    (length tail <= n)%nat /\
    (tail = [] \/ exists c', c' ∈ cs /\ c' <> [] /\ tail `suffix_of` c').

(** ASCII whitespace, as [str.isspace] has it below 128. *)
Definition ascii_space (c : N) : bool :=
  ((9 <=? c) && (c <=? 13) || (28 <=? c) && (c <=? 32))%N.

(** The code points of a literal. *)
Fixpoint chars (s : string) : pystr :=
  match s with
  | EmptyString => []
  | String a s' => Ascii.N_of_ascii a :: chars s'
  end.

(** ** Sections and chunks: [backend/app/ingest.py]

    A page is the dict that [load_pdf_blocks] builds from PyMuPDF: a key that
    the code reads with [.get] is optional.  [str(uuid.uuid4())] is drawn from
    a supply [uuid4]: the functions that draw carry the number of values
    drawn so far.  [str.lower] and [str.isdigit] of one character are
    variables like [isspace]. *)

Module Ingest.

Record Span : Type := {
  span_text : option pystr;
  span_size : option Q
}.

Record Line : Type := { spans : option (list Span) }.

Record Block : Type := { lines : option (list Line) }.

Record Page : Type := {
  blocks : option (list Block);
  plain_text : option pystr
}.

(** The dataclass [Section]. *)
Record Section_ : Type := {
  title : pystr;
  level : Z;
  page_start : Z;
  page_end : Z;
  text : pystr;
  id : option pystr
}.

(** The dict that [chunk_sections] appends; the field [c_k] is its key [k]. *)
Record Chunk : Type := {
  c_id : pystr;
  c_section_title : pystr;
  c_section_id : option pystr;
  c_level : Z;
  c_page_start : Z;
  c_page_end : Z;
  c_chunk_index : Z;
  c_text : pystr;
  c_approx_tokens : Z
}.

(** The variables of the page loop of [build_sections]; [drawn] counts the
    identifiers drawn. *)
Record Building : Type := {
  sections : list Section_;
  cur_title : pystr;
  cur_level : Z;
  cur_text_parts : list pystr;
  cur_start : Z;
  drawn : nat
}.

(** How the loops of [chunk_sections] end: by [return chunks] or by running
    out of pieces. *)
Inductive Flow : Type :=
  | Return (chunks : list Chunk) (drawn : nat)
  | Continue (chunks : list Chunk) (drawn : nat).

(** [sorted] on floats. *)
Fixpoint insert_asc (x : Q) (l : list Q) : list Q :=
  match l with
  | [] => [x]
  | y :: t => if Qle_bool x y then x :: l else y :: insert_asc x t
  end.

Definition sorted (l : list Q) : list Q := foldr insert_asc [] l.

(** [d.get(k, default)]; [d.get(k) or default] for a string. *)
Definition get_default {A : Type} (o : option A) (d : A) : A :=
  match o with
  | Some a => a
  | None => d
  end.

Definition get_or_empty (o : option pystr) : pystr :=
  match o with
  | Some (c :: s) => c :: s
  | _ => []
  end.

(** [f"\n\n[Page {idx}]\n"]. *)
Definition page_marker (idx : Z) : pystr :=
  ([10; 10] ++ chars "[Page " ++ chars (pretty idx) ++ [93; 10])%N.

Section Functions.

Variable isspace : N -> bool.
Variable lower : pystr -> pystr.
Variable isdigit : N -> bool.
Variable uuid4 : nat -> pystr.

(** [s.split()]: the runs without whitespace.  [runs] keeps the empty runs
    between two whitespace characters, which [split] drops. *)
Fixpoint runs (s : pystr) : list pystr :=
  match s with
  | [] => [[]]
  | c :: s' =>
      let r := runs s' in
      if isspace c then [] :: r
      else match r with
           | p :: ps => (c :: p) :: ps
           | [] => [[c]]
           end
  end.

Definition split_ws (s : pystr) : list pystr := List.filter nonempty (runs s).

(** [max((span.get("size", 0.0) for span in ...), default=0.0)]. *)
Definition max_size (ss : list Span) : Q :=
  match map (fun sp => get_default (span_size sp) 0%Q) ss with
  | [] => 0%Q
  | x :: t => max_of x t
  end.

(** The list [lines] of [detect_headings]: the text and the largest font
    size of every line whose text is not blank. *)
Definition sized_lines (page_dict : Page) : list (pystr * Q) :=
  flat_map
    (fun block =>
       flat_map
         (fun line =>
            let ss := get_default (spans line) [] in
            let text :=
              strip isspace
                (concat (map (fun sp => get_default (span_text sp) []) ss)) in
            if nonempty text then [(text, max_size ss)] else [])
         (get_default (lines block) []))
    (get_default (blocks page_dict) []).

(** [int(0.75 * (n - 1))] is the integer part of [3 (n - 1) / 4]. *)
Definition detect_headings (page_dict : Page) : Res (list (pystr * Q)) :=
  let lines := sized_lines page_dict in
  if negb (nonempty lines) then Ok []
  else
    let sizes := sorted (map snd lines) in
    let thr_idx := Z.max 0 (3 * (Z.of_nat (length sizes) - 1) / 4) in
    let! size_thr := item sizes (Z.to_nat thr_idx) in
    Ok (List.filter
          (fun ts => Qle_bool size_thr (snd ts) && (length (fst ts) <? 180)%nat)
          lines).

(** [selected_heading[:4].strip().lower() in {"toc", "index"}]. *)
Definition is_toc (selected_heading : pystr) : bool :=
  let k := lower (strip isspace (take 4 selected_heading)) in
  bool_decide (k = chars "toc") || bool_decide (k = chars "index").

(** The level of a heading: 1, or one more than the dots of its first word
    when it starts with a digit, at most 3. *)
Definition heading_level (selected_heading : pystr) : Res Z :=
  match take 1 (strip isspace (take 10 selected_heading)) with
  | [c] =>
      if isdigit c then
        let! first := item (split_ws selected_heading) 0 in
        let dots := Z.of_nat (count_occ N.eq_dec first 46%N) in
        Ok (Z.min 3 (dots + 1))
      else Ok 1
  | _ => Ok 1
  end.

(** The section that is committed when a heading is met, and at the end. *)
Definition commit (b : Building) (last_page : Z) : Section_ :=
  {| title := cur_title b;
     level := cur_level b;
     page_start := cur_start b;
     page_end := last_page;
     text := strip isspace (concat (cur_text_parts b));
     id := Some (uuid4 (drawn b)) |}.

(** The body of [for idx, page in enumerate(page_blocks, start=1)]. *)
Definition page_step (idx : Z) (page : Page) (b : Building) : Res Building :=
  let text_page := get_or_empty (plain_text page) in
  let! candidates := detect_headings page in
  let! b' :=
    match candidates with
    | [] => Ok b
    | (t, _) :: _ =>
        let selected_heading := strip isspace t in
        if is_toc selected_heading then Ok b
        else
          let! level := heading_level selected_heading in
          let committed := nonempty (cur_text_parts b) in
          Ok {| sections :=
                  if committed then sections b ++ [commit b (idx - 1)]
                  else sections b;
                cur_title := selected_heading;
                cur_level := level;
                cur_text_parts := [];
                cur_start := idx;
                drawn := if committed then S (drawn b) else drawn b |}
    end in
  Ok {| sections := sections b';
        cur_title := cur_title b';
        cur_level := cur_level b';
        cur_text_parts := cur_text_parts b' ++ [page_marker idx; text_page];
        cur_start := cur_start b';
        drawn := drawn b' |}.

Fixpoint pages_loop (idx : Z) (page_blocks : list Page) (b : Building)
  : Res Building :=
  match page_blocks with
  | [] => Ok b
  | page :: rest =>
      let! b' := page_step idx page b in
      pages_loop (idx + 1) rest b'
  end.

(** [build_sections], started after [n] identifiers have been drawn. *)
Definition build_sections (page_blocks : list Page) (n : nat)
  : Res (list Section_ * nat) :=
  let! b :=
    pages_loop 1 page_blocks
      {| sections := []; cur_title := chars "Document"; cur_level := 1;
         cur_text_parts := []; cur_start := 1; drawn := n |} in
  if nonempty (cur_text_parts b)
  then Ok (sections b ++ [commit b (Z.of_nat (length page_blocks))],
           S (drawn b))
  else Ok (sections b, drawn b).

(** The dict appended for piece [i] of section [s]. *)
Definition chunk_of (s : Section_) (i : nat) (txt chunk_id : pystr) : Chunk :=
  {| c_id := chunk_id;
     c_section_title := title s;
     c_section_id := id s;
     c_level := level s;
     c_page_start := page_start s;
     c_page_end := page_end s;
     c_chunk_index := Z.of_nat i;
     c_text := txt;
     c_approx_tokens := rough_token_count txt |}.

(** [for i, txt in enumerate(pieces)], from piece [i] on. *)
Fixpoint pieces_loop (max_chunks : Z) (s : Section_) (pieces : list pystr)
    (i : nat) (chunks : list Chunk) (n : nat) : Flow :=
  match pieces with
  | [] => Continue chunks n
  | txt :: rest =>
      let chunks' := chunks ++ [chunk_of s i txt (uuid4 n)] in
      if negb (max_chunks =? 0) && (Z.of_nat (length chunks') >=? max_chunks)
      then Return chunks' (S n)
      else pieces_loop max_chunks s rest (S i) chunks' (S n)
  end.

(** [for s in sections]. *)
Fixpoint sections_loop (chunk_tokens overlap_tokens max_chunks : Z)
    (sections : list Section_) (chunks : list Chunk) (n : nat)
  : list Chunk * nat :=
  match sections with
  | [] => (chunks, n)
  | s :: rest =>
      let pieces := smart_split isspace (text s) chunk_tokens overlap_tokens in
      match pieces_loop max_chunks s pieces 0 chunks n with
      | Return chunks' n' => (chunks', n')
      | Continue chunks' n' =>
          sections_loop chunk_tokens overlap_tokens max_chunks rest chunks' n'
      end
  end.

Definition chunk_sections (sections : list Section_)
    (chunk_tokens overlap_tokens max_chunks : Z) (n : nat)
  : list Chunk * nat :=
  sections_loop chunk_tokens overlap_tokens max_chunks sections [] n.

(** The chunks of all the pieces of all the sections, in order, each with
    the identifier drawn for it: what the loops append when nothing stops
    them. *)
Fixpoint all_chunks (chunk_tokens overlap_tokens : Z)
    (sections : list Section_) (n : nat) : list Chunk :=
  match sections with
  | [] => []
  | s :: rest =>
      let pieces := smart_split isspace (text s) chunk_tokens overlap_tokens in
      imap (fun i txt => chunk_of s i txt (uuid4 (n + i))) pieces
      ++ all_chunks chunk_tokens overlap_tokens rest (n + length pieces)
  end.

End Functions.

(** The first [max(1, max_chunks)] elements when [max_chunks] is not 0. *)
Definition capped {A : Type} (max_chunks : Z) (l : list A) : list A :=
  if max_chunks =? 0 then l else take (Z.to_nat (Z.max 1 max_chunks)) l.

(** The sections cover the pages [from .. upto - 1] one after the other,
    each at least one page. *)
Fixpoint tiles (from : Z) (secs : list Section_) (upto : Z) : Prop :=
  match secs with
  | [] => from = upto
  | s :: rest =>
      page_start s = from /\ from <= page_end s /\
      tiles (page_end s + 1) rest upto
  end.

(** What holds of the loop variables before page [idx], [n] identifiers
    having been drawn before the first page. *)
Definition building (isspace : N -> bool) (uuid4 : nat -> pystr) (n : nat)
    (idx : Z) (b : Building) : Prop :=
  tiles 1 (sections b) (cur_start b) /\
  ((cur_text_parts b = [] /\ cur_start b = idx /\ idx = 1) \/
   (91%N ∈ concat (cur_text_parts b) /\ cur_start b < idx)) /\
  1 <= cur_level b <= 3 /\
  Forall (fun s => 1 <= level s <= 3) (sections b) /\
  (isspace 91%N = false ->
   Forall (fun s => forallb isspace (text s) = false) (sections b)) /\
  map id (sections b)
  = map (fun k => Some (uuid4 k)) (seq n (length (sections b))) /\
  drawn b = (n + length (sections b))%nat.

(** ASCII stand-ins for [str.lower] and [str.isdigit]. *)
Definition ascii_lower (s : pystr) : pystr :=
  map (fun c => if (65 <=? c)%N && (c <=? 90)%N then (c + 32)%N else c) s.

Definition ascii_digit (c : N) : bool := (48 <=? c)%N && (c <=? 57)%N.

(** A supply of identifiers: the decimal numeral of the draw. *)
Definition numbered (n : nat) : pystr := chars (pretty n).

End Ingest.

(** ** Answers: [backend/app/qa.py]

    The functions of [qa.py] wrap their calls to the language model in
    [try: ... except Exception]: which exception is raised does not matter,
    so an evaluation either returns a value or raises.  [settings.NAME] is an
    attribute access on the instance of class [Settings]: it raises when the
    class body (settings.py, lines 18-55) has no such name.  The values of
    the attributes, the chat-completion client and the [str] methods [lower]
    and [capitalize] are variables. *)

Module QA.

Inductive Tried (A : Type) : Type :=
  | Returned (a : A)
  | Raised.

Arguments Returned {A} a.
Arguments Raised {A}.

Definition tbind {A B : Type} (m : Tried A) (k : A -> Tried B) : Tried B :=
  match m with
  | Returned a => k a
  | Raised => Raised
  end.

Notation "'try!' x ':=' m 'in' k" := (tbind m (fun x => k))
  (at level 10, x pattern, m at level 200, k at level 200).

(** The values of the attributes of [Settings]. *)
Inductive Value : Type :=
  | VNone
  | VStr (s : pystr)
  | VBool (b : bool)
  | VInt (z : Z)
  | VFloat (q : Q).

(** [bool(v)]. *)
Definition truthy (v : Value) : bool :=
  match v with
  | VNone => false
  | VStr s => nonempty s
  | VBool b => b
  | VInt z => negb (z =? 0)
  | VFloat q => negb (Qeq_bool q 0)
  end.

(** The names bound in the body of class [Settings]. *)
Definition Settings_attributes : list string :=
  [ "DATA_DIR"; "STORAGE_DIR"; "DEFAULT_PDF_PATH"; "EMBEDDING_MODEL_NAME";
    "EMBEDDING_DIM"; "RERANK"; "RERANK_MODEL_NAME"; "USE_LLM"; "HF_TOKEN";
    "HF_PROVIDER"; "HF_MODEL"; "CHUNK_TOKENS"; "CHUNK_OVERLAP"; "MAX_CHUNKS";
    "TOP_K"; "MMR_LAMBDA"; "MMR_CANDIDATES"; "HIERARCHICAL_RETRIEVAL";
    "SECTION_TOP_K"; "USE_HYDE"; "HOST"; "PORT" ]%string.

(** A retrieved chunk as [qa.py] reads it: [c.get(k)] for three keys,
    [c["text"]] for the text, which every search result has. *)
Record Context : Type := {
  section_title : option pystr;
  page_start : option Z;
  page_end : option Z;
  text : pystr
}.

(** A message of the history, read with [m.get]. *)
Record Message : Type := {
  role : option pystr;
  content : option pystr
}.

Definition nl : pystr := [10%N].

(** [sub in s]. *)
Fixpoint contains (sub s : pystr) : bool :=
  startswith sub s ||
  match s with
  | [] => false
  | _ :: s' => contains sub s'
  end.

(** [s.endswith(d)]. *)
Definition endswith (d s : pystr) : bool := startswith (reverse d) (reverse s).

(** [s.rsplit(" ", 1)[0]]: what precedes the last space, all of [s] when it
    has no space. *)
Fixpoint before_last_space (s : pystr) : option pystr :=
  match s with
  | [] => None
  | c :: s' =>
      match before_last_space s' with
      | Some p => Some (c :: p)
      | None => if (c =? 32)%N then Some [] else None
      end
  end.

Definition rsplit_head (s : pystr) : pystr :=
  match before_last_space s with
  | Some p => p
  | None => s
  end.

(** [x or d] for an optional string [x]. *)
Definition or_else (x : option pystr) (d : pystr) : pystr :=
  match x with
  | Some (c :: s) => c :: s
  | _ => d
  end.

(** [d.get(k, default)]. *)
Definition get_default (x : option pystr) (d : pystr) : pystr :=
  match x with
  | Some s => s
  | None => d
  end.

(** [f"{x}"] for [x = c.get(k)], an int or [None]. *)
Definition fmt (x : option Z) : pystr :=
  match x with
  | Some z => chars (pretty z)
  | None => chars "None"
  end.

(** [f"p.{c.get('page_start')}-{c.get('page_end')}"]. *)
Definition page_range (c : Context) : pystr :=
  chars "p." ++ fmt (page_start c) ++ chars "-" ++ fmt (page_end c).

(** [... if c.get("page_start") else ""]. *)
Definition pages_of (c : Context) : pystr :=
  match page_start c with
  | Some z => if z =? 0 then [] else page_range c
  | None => []
  end.

(** [f"[Context {i} | {pages} | {title}]\n{c['text']}"]. *)
Definition context_item (i : nat) (c : Context) : pystr :=
  chars "[Context " ++ chars (pretty i) ++ chars " | " ++ pages_of c
  ++ chars " | " ++ or_else (section_title c) [] ++ chars "]" ++ nl ++ text c.

(** [f"- p.{...}-{...} • {c.get('section_title') or ''}"]. *)
Definition source_line (c : Context) : pystr :=
  chars "- " ++ page_range c ++ chars " " ++ [8226%N] ++ chars " "
  ++ or_else (section_title c) [].

Definition SYS_PROMPT : pystr :=
  chars "You are Patrick AI, a precise, thoughtful Q&A assistant for a specific PDF manual. "
  ++ chars "Priorities: (1) Ground answers ONLY in provided context; (2) Use session context to interpret pronouns and follow instructions; "
  ++ chars "(3) Ask a brief clarifying question if the request is ambiguous; (4) Be concise and conversational. "
  ++ chars "Style: Respond in clean Markdown using short paragraphs and bullet lists. Avoid tables by default. "
  ++ chars "Only use tables when the user explicitly requests a table or when the data is inherently tabular (e.g., a change log matrix). Do not place questions or narrative content into tables. "
  ++ chars "When listing itemized changes (and a tabular view is appropriate), a 4-column table is acceptable: Item | Change | Description | Source. "
  ++ chars "Always include citations as [page_start-page_end, section title] when relevant. If the answer is outside the manual, explain why and offer a next step.".

Section Functions.

Variable isspace : N -> bool.
Variable lower : pystr -> pystr.
Variable capitalize : pystr -> pystr.

(** [settings_value name] is the value of the class attribute [name]. *)
Variable settings_value : string -> Value.

(** [chat provider api_key model system user temperature]: the value of
    [content] after the client has been made and has answered, or an
    exception on the way. *)
Variable chat :
  Value -> Value -> Value -> pystr -> pystr -> Q -> Tried (option pystr).

(** [settings.name]. *)
Definition getattr (name : string) : Tried Value :=
  if bool_decide (name ∈ Settings_attributes)
  then Returned (settings_value name)
  else Raised.

(** [v.lower()]: only a [str] has the method. *)
Definition lower_of (v : Value) : Tried pystr :=
  match v with
  | VStr s => Returned (lower s)
  | _ => Raised
  end.

(** The list [turns] of [build_prompt]. *)
Definition turns_of (history : list Message) : list pystr :=
  flat_map
    (fun m =>
       let role := capitalize (get_default (role m) (chars "user")) in
       let content := strip isspace (get_default (content m) []) in
       if nonempty content then [role ++ chars ": " ++ content] else [])
    (last_chars 8 history).

Definition build_prompt (question : pystr) (contexts : list Context)
    (history : option (list Message)) (directives : option pystr) : pystr :=
  let conv_str :=
    match history with
    | Some (m :: h) => str_join nl (turns_of (m :: h))
    | _ => []
    end in
  let ctx_strs := imap (fun i c => context_item (S i) c) contexts in
  let context_block := str_join (nl ++ nl) ctx_strs in
  let prompt :=
    (match directives with
     | Some (c :: d) =>
         [chars "Session directives:" ++ nl ++ strip isspace (c :: d)]
     | _ => []
     end)
    ++ (if nonempty conv_str
        then [chars "Conversation so far:" ++ nl ++ conv_str] else [])
    ++ [chars "Context:" ++ nl ++ context_block;
        chars "Question: " ++ question;
        chars "Answer:"] in
  str_join (nl ++ nl) prompt.

(** The line of [extractive_answer] for one context. *)
Definition bullet (c : Context) : pystr :=
  let pages := pages_of c in
  let title := or_else (section_title c) [] in
  let excerpt := strip isspace (text c) in
  let excerpt :=
    if (600 <? length excerpt)%nat
    then rsplit_head (take 600 excerpt) ++ [8230%N]
    else excerpt in
  chars "- " ++ excerpt ++ chars " [" ++ pages ++ chars ", " ++ title
  ++ chars "]".

Definition extractive_answer (question : pystr) (contexts : list Context)
    (directives : option pystr) : pystr :=
  let quiz :=
    match directives with
    | Some (c :: d) =>
        contains (chars "Do not reveal answers") (c :: d)
        || contains (chars "Quiz mode") (lower (c :: d))
    | _ => false
    end in
  if quiz then
    chars "I will evaluate your answer against the manual. Please reply with your answer."
    ++ nl ++ nl ++ chars "Sources:" ++ nl
    ++ str_join nl (map source_line contexts)
  else str_join nl (map bullet contexts).

Definition generate_answer (question : pystr) (contexts : list Context)
    (history : option (list Message)) (directives : option pystr)
  : Tried (pystr * bool) :=
  try! use_llm := getattr "USE_LLM" in
  try! enabled :=
    (if truthy use_llm
     then try! token := getattr "HF_TOKEN" in Returned (truthy token)
     else Returned false) in
  let attempt : Tried (option pystr) :=
    try! provider := getattr "HF_PROVIDER" in
    try! api_key := getattr "HF_TOKEN" in
    let prompt := build_prompt question contexts history directives in
    try! model := getattr "HF_MODEL" in
    chat provider api_key model SYS_PROMPT prompt (2 # 10) in
  let answer_used :=
    if enabled then
      match attempt with
      | Returned (Some (c :: s)) => (Some (strip isspace (c :: s)), true)
      | Returned _ => (None, false)
      | Raised => (None, false)
      end
    else (None, false) in
  let answer :=
    match fst answer_used with
    | Some (c :: s) => c :: s
    | _ => extractive_answer question contexts directives
    end in
  Returned (answer, snd answer_used).

(** [settings.LLM_PROVIDER.lower() == "hf" and settings.HF_TOKEN]. *)
Definition hf_enabled : Tried bool :=
  try! provider := getattr "LLM_PROVIDER" in
  try! p := lower_of provider in
  if bool_decide (p = chars "hf")
  then try! token := getattr "HF_TOKEN" in Returned (truthy token)
  else Returned false.

(** What a [try] block comes to: [Returned (Some r)] when it executes
    [return r], [Returned None] when it runs to its end. *)
Definition generate_hypothetical_answer (question : pystr)
    (history : option (list Message)) : option pystr :=
  let attempt : Tried (option (option pystr)) :=
    try! enabled := hf_enabled in
    if enabled then
      try! provider := getattr "HF_PROVIDER" in
      try! api_key := getattr "HF_TOKEN" in
      let sys :=
        chars "You are generating a brief hypothetical answer (2-4 sentences) to a question. "
        ++ chars "Keep it generic and likely given a clinical assessment manual, avoiding hallucinated specifics." in
      let conv :=
        match history with
        | Some (m :: h) =>
            map (fun m =>
                   capitalize (get_default (role m) (chars "user"))
                   ++ chars ": "
                   ++ strip isspace (get_default (content m) []))
              (last_chars 4 (m :: h))
        | _ => []
        end in
      let prompt :=
        (if nonempty conv then str_join nl conv ++ nl else [])
        ++ chars "Question: " ++ question ++ nl
        ++ chars "Hypothetical answer:" in
      try! model := getattr "HF_MODEL" in
      try! content := chat provider api_key model sys prompt (3 # 10) in
      Returned
        (Some match content with
              | Some (c :: s) => Some (strip isspace (c :: s))
              | _ => None
              end)
    else Returned None in
  match attempt with
  | Returned (Some r) => r
  | _ => None
  end.

(** [(f"Session directives:\n{directives}\n\n" if directives else "")]. *)
Definition directives_head (directives : option pystr) : pystr :=
  match directives with
  | Some (c :: d) => chars "Session directives:" ++ nl ++ (c :: d) ++ nl ++ nl
  | _ => []
  end.

Definition context_part (contexts : list Context) : pystr :=
  chars "Context:" ++ nl
  ++ str_join (nl ++ nl)
       (imap (fun i c => context_item (S i) c) (take 4 contexts)).

Definition generate_quiz_question (contexts : list Context)
    (history : option (list Message)) (directives : option pystr)
  : option pystr :=
  let sys :=
    chars "You are Patrick AI. Create ONE exam-style question from the provided context. "
    ++ chars "Do NOT include the answer. Avoid tables. Keep it concise and unambiguous." in
  let attempt : Tried (option pystr) :=
    try! enabled := hf_enabled in
    if enabled then
      try! provider := getattr "HF_PROVIDER" in
      try! api_key := getattr "HF_TOKEN" in
      let prompt :=
        directives_head directives ++ context_part contexts ++ nl ++ nl
        ++ chars "Task: Write ONE question the user should answer. Do not include the answer." in
      try! model := getattr "HF_MODEL" in
      try! content := chat provider api_key model sys prompt (2 # 10) in
      match content with
      | Some (c :: s) =>
          let q := strip isspace (c :: s) in
          let q := if endswith nl q then q else q ++ nl in
          Returned
            (Some (q ++ nl ++ chars "Please type your answer; I" ++ [8217%N]
                   ++ chars "ll validate it against the manual."))
      | _ => Returned None
      end
    else Returned None in
  match attempt with
  | Returned (Some q) => Some q
  | _ =>
      match contexts with
      | c :: _ =>
          let title := or_else (section_title c) (chars "the manual") in
          let pages := pages_of c in
          Some (chars "According to " ++ title ++ chars " (" ++ pages
                ++ chars "), summarize the key instruction described.")
      | [] =>
          Some (chars "From the manual, describe the key instruction mentioned in the provided section.")
      end
  end.

Definition validate_user_answer (user_answer : pystr)
    (contexts : list Context) (directives : option pystr) : pystr :=
  let no_reveal :=
    match directives with
    | Some (c :: d) =>
        contains (chars "Do not reveal answers") (c :: d)
        || contains (chars "do not reveal") (lower (c :: d))
    | _ => false
    end in
  let sys :=
    chars "You are Patrick AI. Evaluate the user's answer against the provided context. "
    ++ chars "Be concise and cite pages/section."
    ++ (if no_reveal
        then chars " Do NOT reveal the correct answer; only say Correct/Incorrect with a brief hint and citations."
        else chars " Provide a brief correction if incorrect, citing the manual.") in
  let attempt : Tried (option pystr) :=
    try! enabled := hf_enabled in
    if enabled then
      try! provider := getattr "HF_PROVIDER" in
      try! api_key := getattr "HF_TOKEN" in
      let prompt :=
        directives_head directives ++ context_part contexts ++ nl ++ nl
        ++ chars "User answer:" ++ nl ++ user_answer ++ nl ++ nl
        ++ chars "Task: Evaluate the user's answer." in
      try! model := getattr "HF_MODEL" in
      try! content := chat provider api_key model sys prompt (2 # 10) in
      match content with
      | Some (c :: s) => Returned (Some (strip isspace (c :: s)))
      | _ => Returned None
      end
    else Returned None in
  match attempt with
  | Returned (Some r) => r
  | _ =>
      let lines :=
        [chars "Based on the manual excerpts, your answer will be evaluated when more detail is available."]
        ++ (if nonempty contexts
            then chars "Sources:" :: map source_line (take 4 contexts)
            else []) in
      str_join nl lines
  end.

End Functions.

(** A stand-in for [str.capitalize] on ASCII letters. *)
Definition ascii_capitalize (s : pystr) : pystr :=
  match s with
  | [] => []
  | c :: r =>
      (if (97 <=? c)%N && (c <=? 122)%N then (c - 32)%N else c)
      :: Ingest.ascii_lower r
  end.

End QA.

(** ** The search query and the directives of [backend/app/main.py] *)

Module Main.

(** [models.ChatMessage]. *)
Record ChatMessage : Type := {
  role : pystr;
  content : pystr
}.

(** [[m.content for m in history if getattr(m, 'role', '') == 'user']]. *)
Definition user_turns (history : list ChatMessage) : list pystr :=
  map content
    (List.filter (fun m => bool_decide (role m = chars "user")) history).

Section Functions.

Variable isspace : N -> bool.

(** [_build_search_query(question, history)] for the list of messages that
    [query] passes ([req.history or []]).  On such a list the comprehension
    of line 53 raises nothing and its value is overwritten by that of line
    56, which is the one modelled. *)
Definition _build_search_query (question : pystr)
    (history : list ChatMessage) : pystr :=
  if negb (nonempty history) then question
  else
    let user_prev := user_turns history in
    let tail :=
      strip isspace
        (str_join (chars " ") (last_chars 2 user_prev ++ [question])) in
    take 512 tail.

End Functions.

(** The three entries of [flags] in [_derive_directives]. *)
Record Flags : Type := {
  QUIZ_MODE : bool;
  NO_REVEAL : bool;
  NO_TABLES : bool
}.

Definition flags_of (joined : pystr) : Flags :=
  {| QUIZ_MODE :=
       QA.contains (chars "ask me questions") joined
       && QA.contains (chars "validate") joined;
     NO_REVEAL :=
       QA.contains (chars "do not tell me the answer") joined
       || QA.contains (chars "don't tell me the answer") joined;
     NO_TABLES :=
       QA.contains (chars "avoid table") joined
       || QA.contains (chars "no table") joined
       || QA.contains (chars "like chatting") joined
       || QA.contains (chars "chatting") joined
       || QA.contains (chars "conversational") joined |}.

(** The list [parts]. *)
Definition directive_parts (flags : Flags) : list pystr :=
  [ chars "Use conversation context to resolve pronouns and ellipsis.";
    chars "If ambiguous, ask a short clarifying question before answering.";
    chars "Ground everything strictly in the provided context chunks with citations." ]
  ++ (if QUIZ_MODE flags
      then [chars "Quiz mode: Ask succinct, standalone questions from the manual as numbered bullets (not tables). When the user answers, validate strictly against the document with citations and provide targeted feedback."]
      else [])
  ++ (if NO_REVEAL flags
      then [chars "Do not reveal answers directly; only evaluate and guide unless explicitly allowed."]
      else [])
  ++ (if NO_TABLES flags
      then [chars "Avoid tables; prefer short paragraphs and bullet lists unless the user explicitly asks for a table or the data is inherently tabular."]
      else []).

(** ["\n- ".join(["- "+p for p in parts])]. *)
Definition render (flags : Flags) : pystr :=
  str_join (QA.nl ++ chars "- ")
    (map (fun p => chars "- " ++ p) (directive_parts flags)).

Section Directives.

Variable lower : pystr -> pystr.

(** ["\n".join([t.lower() for t in texts if t])]. *)
Definition joined_texts (history : list ChatMessage) : pystr :=
  str_join QA.nl
    (map lower (List.filter nonempty (map content history))).

(** [_derive_directives(history)] for a list of messages. *)
Definition _derive_directives (history : list ChatMessage) : pystr :=
  render (flags_of (joined_texts history)).

End Directives.

End Main.

(** A two-page document and a short text, with the ASCII stand-ins. *)
Module Manual.

Definition span (s : string) (size : Q) : Ingest.Span :=
  {| Ingest.span_text := Some (chars s); Ingest.span_size := Some size |}.

Definition line (s : string) (size : Q) : Ingest.Line :=
  {| Ingest.spans := Some [span s size] |}.

Definition page_1 : Ingest.Page :=
  {| Ingest.blocks :=
       Some [ {| Ingest.lines := Some [line "1.2 Scope" 14] |};
              {| Ingest.lines := None |};
              {| Ingest.lines :=
                   Some [line "The manual covers intake." 10;
                         line "It is revised yearly." 10] |} ];
     Ingest.plain_text :=
       Some (chars
               "1.2 Scope The manual covers intake. It is revised yearly.") |}.

Definition page_2 : Ingest.Page :=
  {| Ingest.blocks := None;
     Ingest.plain_text := Some (chars "Scores run from 0 to 6.") |}.

Definition pages : list Ingest.Page := [page_1; page_2].

Definition sentence : pystr := chars "alpha beta gamma delta epsilon".

Definition build_sections :=
  Ingest.build_sections ascii_space Ingest.ascii_lower Ingest.ascii_digit
    Ingest.numbered.

Definition chunk_sections :=
  Ingest.chunk_sections ascii_space Ingest.numbered.

Definition quiz_directives : pystr :=
  chars "- Quiz mode: Ask succinct questions.".

Definition contexts : list QA.Context :=
  [ {| QA.section_title := Some (chars "Scope");
       QA.page_start := Some 3;
       QA.page_end := Some 4;
       QA.text := chars " Scores run from 0 to 6. " |} ].

Definition quiz_history : list Main.ChatMessage :=
  [ {| Main.role := chars "user";
       Main.content := chars "Please ask me questions and validate them." |} ].

End Manual.
(** * Properties

    ** The selection loop *)

Lemma argmax_from_bound (l : list Q) bp b p :
  (bp < p)%nat -> (argmax_from bp b p l < p + length l)%nat.
Proof.
  revert bp b p; induction l as [|x t IH]; intros bp b p Hlt; simpl.
  - lia.
  - destruct (Qle_bool x b).
    + specialize (IH bp b (S p)). lia.
    + specialize (IH p x (S p)). lia.
Qed.

Lemma np_argmax_bound (l : list Q) i :
  np_argmax l = Ok i -> (i < length l)%nat.
Proof.
  destruct l as [|x t]; simpl; [discriminate|].
  intros [= <-]. pose proof (argmax_from_bound t 0 x 1). lia.
Qed.

Lemma np_argmax_nonempty (l : list Q) :
  l <> [] -> exists i, np_argmax l = Ok i.
Proof. destruct l; [congruence|]. eauto. Qed.

Module MMRFacts.
Import MMR.

Lemma py_index_bound x l : py_in x l = true -> (py_index x l < length l)%nat.
Proof.
  induction l as [|y t IH]; simpl; [discriminate|].
  destruct (Z.eqb x y); simpl; [lia|]. intros H. apply IH in H. lia.
Qed.

Lemma py_in_spec x l : py_in x l = true <-> x ∈ l.
Proof.
  unfold py_in. rewrite existsb_exists, list_elem_of_In. split.
  - intros (y & Hy & E). apply Z.eqb_eq in E. by subst.
  - intros H. exists x. split; [done|]. apply Z.eqb_refl.
Qed.

Lemma take_rows_ok (X : list vec) ps :
  Forall (fun p => (p < length X)%nat) ps ->
  exists rows, take_rows X ps = Ok rows.
Proof.
  induction 1 as [|p ps Hp _ [rows IH]]; simpl; [eauto|].
  rewrite IH. unfold item.
  destruct (lookup_lt_is_Some_2 X p Hp) as [r ->]. simpl. eauto.
Qed.

Lemma selected_positions_bound st :
  Forall (fun p => (p < length (cand_idxs st))%nat) (selected_positions st).
Proof.
  unfold selected_positions. apply Forall_map, Forall_forall.
  intros si Hin. apply list_elem_of_In, filter_In in Hin as [_ Hin].
  by apply py_index_bound.
Qed.

Lemma length_diversity st sv :
  aligned st -> length (diversity st sv) = length (candidates st).
Proof.
  intros [Hv Hi]. unfold diversity. destruct (np_size sv =? 0)%nat.
  - by rewrite length_map, Hi, length_map.
  - by rewrite length_map.
Qed.


Lemma choose_ok lam q st :
  aligned st -> candidates st <> [] ->
  exists pos c, choose lam q st = Ok (pos, fst c) /\ candidates st !! pos = Some c.
Proof.
  intros [Hv Hi] Hne. unfold choose. destruct (selected st) as [|s0 sel] eqn:Hsel.
  - destruct (np_argmax_nonempty (map snd (candidates st))) as [best Hbest].
    { destruct (candidates st); [congruence|discriminate]. }
    rewrite Hbest. simpl. pose proof (np_argmax_bound _ _ Hbest) as Hlt.
    rewrite length_map in Hlt. unfold item.
    destruct (lookup_lt_is_Some_2 _ _ Hlt) as [c Hc]. rewrite Hc. simpl. eauto.
  - destruct (take_rows_ok (cand_vecs st) (selected_positions st)) as [rows ->].
    { eapply Forall_impl; [apply selected_positions_bound|].
      simpl. intros p Hp. rewrite Hi, length_map in Hp. lia. }
    simpl. unfold mmr_scores.
    rewrite length_map, (length_diversity st rows (conj Hv Hi)), Hv, Nat.eqb_refl.
    simpl.
    set (mmr := zip_with _ _ _).
    assert (Hlen : length mmr = length (candidates st)).
    { unfold mmr. rewrite length_zip_with, length_map,
        (length_diversity st rows (conj Hv Hi)). lia. }
    destruct (np_argmax_nonempty mmr) as [pos Hpos].
    { intros E. rewrite E in Hlen. destruct (candidates st); [congruence|discriminate]. }
    rewrite Hpos. simpl. apply np_argmax_bound in Hpos. rewrite Hlen in Hpos.
    destruct (lookup_lt_is_Some_2 _ _ Hpos) as [c Hc].
    exists pos, c. split; [|done]. unfold item. rewrite Hi, list_lookup_fmap, Hc. done.
Qed.

Lemma step_ok lam q st :
  aligned st -> candidates st <> [] ->
  exists pos c, candidates st !! pos = Some c /\
    choose lam q st = Ok (pos, fst c) /\
    step lam q st = Ok {| selected := selected st ++ [fst c];
                          selected_scores := selected_scores st ++ [snd c];
                          candidates := delete pos (candidates st);
                          cand_vecs := delete pos (cand_vecs st);
                          cand_idxs := delete pos (cand_idxs st) |}.
Proof.
  intros Hal Hne. destruct (choose_ok lam q st Hal Hne) as (pos & c & Hch & Hc).
  exists pos, c. split; [done|]. split; [done|].
  unfold step. rewrite Hch. simpl. unfold item. rewrite Hc. simpl.
  destruct Hal as [Hv Hi]. rewrite Hi, list_lookup_fmap, Hc. simpl.
  destruct (lookup_lt_is_Some_2 (cand_vecs st) pos) as [v ->]; [|done].
  rewrite Hv. by eapply lookup_lt_Some.
Qed.

Lemma aligned_delete st pos sel sc :
  aligned st -> is_Some (candidates st !! pos) ->
  aligned {| selected := sel; selected_scores := sc;
             candidates := delete pos (candidates st);
             cand_vecs := delete pos (cand_vecs st);
             cand_idxs := delete pos (cand_idxs st) |}.
Proof.
  intros [Hv Hi] Hpos. split; simpl.
  - rewrite !length_delete; [lia|done|].
    apply lookup_lt_is_Some. rewrite Hv. by apply lookup_lt_is_Some.
  - by rewrite Hi, list_fmap_delete.
Qed.

Lemma loop_cond_false_empty top_k st :
  candidates st = [] -> loop_cond top_k st = false.
Proof.
  intros E. unfold loop_cond. rewrite E. simpl.
  apply andb_false_intro1. apply Z.ltb_ge. lia.
Qed.

Lemma loop_cond_true top_k st :
  loop_cond top_k st = true ->
  Z.of_nat (length (selected st)) < top_k
  /\ (length (selected st) < length (candidates st))%nat.
Proof.
  unfold loop_cond. intros H. apply andb_true_iff in H as [H _].
  apply Z.ltb_lt in H. lia.
Qed.

Lemma loop_cond_false top_k st :
  aligned st -> loop_cond top_k st = false ->
  top_k <= Z.of_nat (length (selected st))
  \/ (length (candidates st) <= length (selected st))%nat.
Proof.
  intros [_ Hi] H. unfold loop_cond in H. apply andb_false_iff in H as [H|H].
  - apply Z.ltb_ge in H. lia.
  - rewrite Hi in H. destruct (candidates st); simpl in *; [right; lia|discriminate].
Qed.

(** What the loop returns: it stops with its condition false, and the
    picks are appended to [selected] and [selected_scores] in step. *)
Lemma loop_spec fuel top_k lam q st :
  aligned st -> (length (candidates st) <= fuel)%nat ->
  exists st' picks,
    loop fuel top_k lam q st = Ok st'
    /\ aligned st' /\ loop_cond top_k st' = false
    /\ selected st' = selected st ++ map fst picks
    /\ selected_scores st' = selected_scores st ++ map snd picks
    /\ (length picks + length (candidates st') = length (candidates st))%nat
    /\ (picks <> [] ->
        Z.of_nat (length (selected st')) <= top_k
        /\ (length (selected st') <= S (length (candidates st')))%nat).
Proof.
  revert st; induction fuel as [|fuel IH]; intros st Hal Hfuel.
  - exists st, []. simpl. rewrite !app_nil_r.
    split; [done|]. split; [done|]. split.
    { apply loop_cond_false_empty. destruct (candidates st); [done|simpl in *; lia]. }
    repeat split; done.
  - simpl. destruct (loop_cond top_k st) eqn:Hc.
    + destruct (loop_cond_true _ _ Hc) as [Hk Hn].
      assert (Hne : candidates st <> []).
      { intros E. rewrite E in Hn. simpl in Hn. lia. }
      destruct (step_ok lam q st Hal Hne) as (pos & c & Hpos & _ & ->). simpl.
      set (st1 := {| selected := _ |}).
      assert (Hal1 : aligned st1) by (apply aligned_delete; eauto).
      assert (Hlen1 : length (candidates st1) = (length (candidates st) - 1)%nat).
      { simpl. apply length_delete. eauto. }
      destruct (IH st1 Hal1) as (st' & picks & Hl & Hal' & Hc' & Hs & Hsc & Hlen & Hb).
      { lia. }
      exists st', (c :: picks). rewrite Hl. simpl in Hs, Hsc.
      rewrite <- !app_assoc in Hs, Hsc.
      split; [done|]. split; [done|]. split; [done|]. split; [done|]. split; [done|].
      split. { simpl. apply lookup_lt_Some in Hpos. lia. }
      intros _. destruct picks as [|p picks].
      * simpl in *.
        assert (length (selected st') = S (length (selected st))) as E.
        { rewrite Hs, length_app. simpl. lia. }
        rewrite E. lia.
      * apply Hb. discriminate.
    + exists st, []. simpl. rewrite !app_nil_r.
      split; [done|]. split; [done|]. repeat split; done.
Qed.

Lemma run_spec top_k lam q cands vecs :
  length vecs = length cands ->
  exists st' picks,
    run top_k lam q cands vecs = Ok st'
    /\ select top_k lam q cands vecs = Ok picks
    /\ aligned st' /\ loop_cond top_k st' = false
    /\ selected st' = map fst picks
    /\ (length picks + length (candidates st') = length cands)%nat
    /\ (picks <> [] ->
        Z.of_nat (length picks) <= top_k
        /\ (length picks <= S (length (candidates st')))%nat).
Proof.
  intros Hlen.
  destruct (loop_spec (length cands) top_k lam q (init cands vecs))
    as (st' & picks & Hl & Hal & Hc & Hs & Hsc & Hn & Hb).
  { by split. } { done. }
  simpl in *. exists st', picks. unfold select, run. rewrite Hl. simpl.
  rewrite Hs, Hsc. split; [done|]. split.
  { f_equal. clear. induction picks as [|[i s] t IH]; simpl; [done|]. by rewrite IH. }
  split; [done|]. split; [done|]. split; [done|]. split; [done|].
  intros Hne. specialize (Hb Hne). rewrite Hs, length_map in Hb. done.
Qed.

(** The number of picks in closed form. *)
Lemma select_length top_k lam q cands vecs :
  length vecs = length cands ->
  exists picks,
    select top_k lam q cands vecs = Ok picks
    /\ Z.of_nat (length picks)
       = Z.max 0 (Z.min top_k ((Z.of_nat (length cands) + 1) / 2)).
Proof.
  intros Hlen.
  destruct (run_spec top_k lam q cands vecs Hlen)
    as (st' & picks & _ & Hsel & Hal & Hc & Hs & Hn & Hb).
  exists picks. split; [done|].
  apply loop_cond_false in Hc; [|done]. rewrite Hs, length_map in Hc.
  destruct picks as [|p picks].
  - simpl in *. Z.div_mod_to_equations. lia.
  - destruct Hb as [Hb1 Hb2]; [discriminate|]. simpl length in *.
    Z.div_mod_to_equations. lia.
Qed.


(** *** [np.argmax] returns a first maximum *)

Lemma argmax_from_head (l : list Q) bp b p :
  Forall (fun x => (x <= b)%Q) l -> argmax_from bp b p l = bp.
Proof.
  revert p. induction l as [|x t IH]; intros p H; simpl; [done|].
  apply Forall_cons in H as [Hx Ht].
  apply Qle_bool_iff in Hx. rewrite Hx. by apply IH.
Qed.



(** C2 (what the code does): on a pool of [n] candidates the loop of
    [search] and [search_advanced] ends after [min(top_k, ceil(n / 2))]
    iterations (none when [top_k <= 0]) and returns that many picks, because
    its bound [min(top_k, len(candidates))] is evaluated on the list that
    the loop shrinks. This is the claimed [min(top_k, n)] only when
    [top_k <= ceil(n / 2)] or [n <= 1]. *)
Theorem selection_size top_k lam q_vec cands vecs :
  length vecs = length cands ->
  exists picks,
    select top_k lam q_vec cands vecs = Ok picks
    /\ Z.of_nat (length picks)
       = Z.max 0 (Z.min top_k ((Z.of_nat (length cands) + 1) / 2))
    /\ (Z.of_nat (length picks) = Z.max 0 (claimed_size top_k cands)
        <-> (top_k <= (Z.of_nat (length cands) + 1) / 2
             \/ (length cands <= 1)%nat)).
Proof.
  intros Hlen. destruct (select_length top_k lam q_vec cands vecs Hlen)
    as (picks & Hsel & Hn).
  exists picks. split; [done|]. split; [done|].
  rewrite Hn. unfold claimed_size. Z.div_mod_to_equations. lia.
Qed.

Lemma selection_size_witness :
  exists picks,
    select 3 (1 # 2) Scenario.q_vec Scenario.pool Scenario.pool_vecs = Ok picks
    /\ Z.of_nat (length picks) = 2
    /\ (Z.of_nat (length picks) = 3 <-> (3 <= 2 \/ (3 <= 1)%nat)).
Proof.
  exact (selection_size 3 (1 # 2) Scenario.q_vec Scenario.pool
           Scenario.pool_vecs eq_refl).
Defined.

(** *** Pure relevance: [mmr_lambda = 1] *)


Lemma zip_fst_snd {A B : Type} (l : list (A * B)) :
  zip (map fst l) (map snd l) = l.
Proof. induction l as [|[a b] l IH]; simpl; [done|]. by rewrite IH. Qed.


(** The pool of the scenario is in index order, and the run with
    [mmr_lambda = 1] and [top_k = 2] selects chunk_a then chunk_c; through
    [build] and [search] the scores are 1 and 0.7071 up to the epsilon of
    [_normalize]. *)
Example scenario_lambda_one :
  index_ordered Scenario.pool
  /\ select 2 1 Scenario.q_vec Scenario.pool Scenario.pool_vecs
     = Ok [(0, 1%Q); (2, 7 # 10)]
  /\ exists ra rc,
      Scenario.run_search 2 1 = Ok [ra; rc]
      /\ r_id ra = "chunk_a" /\ r_id rc = "chunk_c"
      /\ (1 - (1 # 1000000000) <= r_score ra <= 1)%Q
      /\ ((7071 # 10000) <= r_score rc <= (7072 # 10000))%Q.
Proof.
  split.
  { unfold index_ordered, Scenario.pool.
    repeat (apply SSorted_cons || apply SSorted_nil || apply Forall_cons_2
            || apply Forall_nil_2);
      left; reflexivity. }
  split; [reflexivity|].
  eexists _, _. split; [vm_compute; reflexivity|].
  repeat split; vm_compute; discriminate || reflexivity.
Qed.

(** *** The diversity term *)

Lemma filter_none {A : Type} (f : A -> bool) (l : list A) :
  Forall (fun x => f x = false) l -> List.filter f l = [].
Proof. induction 1 as [|x l Hx _ IH]; simpl; [done|]. by rewrite Hx. Qed.

Lemma selected_positions_fresh st : fresh st -> selected_positions st = [].
Proof.
  intros [_ Hsel]. unfold selected_positions. rewrite filter_none; [done|].
  eapply Forall_impl; [exact Hsel|]. simpl. intros si Hsi.
  destruct (py_in si (cand_idxs st)) eqn:E; [|done].
  by apply py_in_spec in E.
Qed.

Lemma zip_with_zeros (f : Q -> Q -> Q) (g : vec -> Q) (vecs : list vec)
    (idxs : list Z) :
  length vecs = length idxs ->
  zip_with f (map g vecs) (map (fun _ => 0%Q) idxs)
  = map (fun v => f (g v) 0%Q) vecs.
Proof.
  revert idxs. induction vecs as [|v vecs IH]; intros [|i idxs] H;
    simpl in *; try done. f_equal. apply IH. lia.
Qed.

(** In a state whose selected rows have left the pool, the list of selected
    vectors is empty and the diversity of every candidate is zero: the
    objective of a later pick is [lambda * sim + (1 - lambda)], whatever was
    selected before. *)
Lemma choose_ignores_selected lam q st :
  aligned st -> fresh st -> selected st <> [] ->
  choose lam q st
  = (let! chosen_pos :=
       np_argmax (map (fun v => lam * dot v q + (1 - lam) * (1 - 0))%Q
                      (cand_vecs st)) in
     let! chosen_global_idx := item (cand_idxs st) chosen_pos in
     Ok (chosen_pos, chosen_global_idx)).
Proof.
  intros [Hv Hi] Hf Hsel. unfold choose.
  destruct (selected st) as [|s0 sel]; [done|].
  rewrite selected_positions_fresh by done. simpl.
  unfold diversity, mmr_scores. simpl.
  rewrite !length_map, Hi, length_map, Hv, Nat.eqb_refl. simpl.
  rewrite zip_with_zeros; [done|]. by rewrite length_map.
Qed.

Lemma not_in_delete (l : list Z) i x :
  NoDup l -> l !! i = Some x -> x ∉ delete i l.
Proof.
  intros Hnd Hi. rewrite delete_take_drop.
  rewrite <- (take_drop_middle l i x Hi) in Hnd.
  apply NoDup_app in Hnd as (_ & H1 & H2). apply NoDup_cons in H2 as [H2 _].
  intros H. apply elem_of_app in H as [H|H]; [|done].
  apply (H1 x H). left.
Qed.

Lemma init_fresh cands vecs : NoDup (map fst cands) -> fresh (init cands vecs).
Proof. intros H. split; simpl; [done|constructor]. Qed.

(** The loop keeps that state: a row is deleted from the pool when it is
    selected. *)
Lemma step_fresh lam q st st' :
  aligned st -> fresh st -> step lam q st = Ok st' -> fresh st'.
Proof.
  intros Hal [Hnd Hsel] Hstep.
  destruct (candidates st) as [|c0 ct] eqn:Ec.
  { unfold step, choose in Hstep. destruct Hal as [Hv Hi].
    rewrite Ec in Hi, Hv. destruct (selected st).
    - rewrite Ec in Hstep. simpl in Hstep. discriminate.
    - destruct (take_rows _ _); simpl in Hstep; [|discriminate].
      destruct (mmr_scores _ _ _) as [mmr|]; simpl in Hstep; [|discriminate].
      destruct (np_argmax mmr); simpl in Hstep; [|discriminate].
      rewrite Hi in Hstep. simpl in Hstep. discriminate. }
  destruct (step_ok lam q st Hal) as (pos & c & Hpos & _ & Hst).
  { rewrite Ec. discriminate. }
  rewrite Hst in Hstep. injection Hstep as <-. destruct Hal as [_ Hi].
  assert (Hg : cand_idxs st !! pos = Some (fst c)).
  { by rewrite Hi, list_lookup_fmap, Hpos. }
  split; simpl.
  - eapply sublist_NoDup; [exact Hnd|apply sublist_delete].
  - apply Forall_app. split.
    + eapply Forall_impl; [exact Hsel|]. simpl. intros si Hsi H.
      apply Hsi. eapply list_elem_of_delete_inv; eauto.
    + constructor; [|constructor]. by apply not_in_delete.
Qed.


(** With [mmr_lambda = 0] the objective of a later pick is the constant 1:
    the loop takes the candidate at position 0 of what is left of the pool,
    the next one in index order. *)
Lemma later_pick_at_lambda_zero lam q st c ct :
  (lam == 0)%Q -> aligned st -> fresh st -> selected st <> [] ->
  candidates st = c :: ct ->
  choose lam q st = Ok (0%nat, fst c).
Proof.
  intros Hlam Hal Hf Hsel Hc. rewrite choose_ignores_selected by done.
  destruct Hal as [Hv Hi]. rewrite Hc in Hv, Hi.
  destruct (cand_vecs st) as [|v vt]; [discriminate|].
  simpl. rewrite argmax_from_head.
  - rewrite Hi. done.
  - apply Forall_map, Forall_forall. intros v' _. simpl. rewrite Hlam.
    ring_simplify. apply Qle_refl.
Qed.

(** Through [build] and [search], three candidates and [top_k = 3] give two
    results. *)
Example scenario_three_of_three :
  exists ra rc,
    Scenario.run_search 3 (1 # 2) = Ok [ra; rc]
    /\ r_id ra = "chunk_a" /\ r_id rc = "chunk_c".
Proof. eexists _, _. split; [vm_compute; reflexivity|]. split; reflexivity. Qed.

(** C1 (the code at the scenario of the specification): with
    [mmr_lambda = 0.0] and [top_k = 2] on the three chunks, [search] returns
    chunk_a then chunk_c: the second pick is the next candidate in index
    order, not chunk_b. The selector written from the words of the
    specification picks chunk_b (row 1) on the same pool. *)
Theorem lambda_zero_second_pick :
  select 2 0 Scenario.q_vec Scenario.pool Scenario.pool_vecs
    = Ok [(0, 1%Q); (2, 7 # 10)]
  /\ MMRSpec.select 2 0 Scenario.q_vec Scenario.pool Scenario.pool_vecs
    = [(0, 1%Q); (1, 0%Q)]
  /\ exists ra rc,
      Scenario.run_search 2 0 = Ok [ra; rc]
      /\ r_id ra = "chunk_a" /\ r_id rc = "chunk_c".
Proof.
  split; [reflexivity|]. split; [reflexivity|].
  eexists _, _. split; [vm_compute; reflexivity|]. split; reflexivity.
Qed.
End MMRFacts.

(** ** The hierarchical filter *)

Lemma filter_res_spec {A : Type} (f : A -> Res bool) (l r : list A) :
  filter_res f l = Ok r ->
  r = List.filter (fun a => match f a with Ok b => b | Raise _ => false end) l.
Proof.
  revert r. induction l as [|a t IH]; simpl; intros r.
  - by intros [= <-].
  - destruct (f a) as [keep|]; simpl; [|discriminate].
    destruct (filter_res f t) as [rest|]; simpl; [|discriminate].
    intros [= <-]. rewrite (IH rest eq_refl). by destruct keep.
Qed.

Lemma keeps_spec store allowed c :
  keeps store allowed c = true <->
  exists it sid, py_item store (fst c) = Ok it
                 /\ section_id it = Some sid /\ sid ∈ allowed.
Proof.
  unfold keeps, in_allowed. destruct (py_item store (fst c)) as [it|]; simpl.
  - destruct (section_id it) as [sid|] eqn:E; split.
    + intros H. apply bool_decide_eq_true in H. eauto.
    + intros (it' & sid' & Hit & Hsid & H). injection Hit as <-.
      rewrite E in Hsid. injection Hsid as <-. by apply bool_decide_eq_true.
    + discriminate.
    + intros (it' & sid' & Hit & Hsid & _). injection Hit as <-. congruence.
  - split; [discriminate|]. intros (it' & sid' & Hit & _). discriminate.
Qed.

(** The fallback and the filter through [search_advanced], on the chunks
    with sections: the allowed set is {s2}, which holds chunk_c and chunk_b.
    With [top_k = 5] and the default floor 24 the filter is dropped and
    chunk_a, of section s1, is returned first, as without the hierarchy;
    with [top_k = 1] and [mmr_candidates = 1] the two filtered candidates
    are enough and chunk_c is returned in place of chunk_a. *)
Example scenario_hierarchical :
  Scenario.run_advanced 5 24 true = Ok ["chunk_a"; "chunk_c"]
  /\ Scenario.run_advanced 5 24 false = Ok ["chunk_a"; "chunk_c"]
  /\ Scenario.run_advanced 1 1 true = Ok ["chunk_c"]
  /\ Scenario.run_advanced 1 1 false = Ok ["chunk_a"].
Proof. repeat split; vm_compute; reflexivity. Qed.

(** ** The candidate retriever *)

Lemma drop_sentinel_spec idxs scores c :
  c ∈ drop_sentinel idxs scores <-> c ∈ zip idxs scores /\ fst c <> -1.
Proof.
  unfold drop_sentinel.
  rewrite list_elem_of_In, filter_In, <- list_elem_of_In, negb_true_iff.
  by rewrite Z.eqb_neq.
Qed.

Lemma mbind_ext {S A B : Type} (m : M S A) (k1 k2 : A -> M S B) (s : S) :
  (forall a s', k1 a s' = k2 a s') -> mbind_ m k1 s = mbind_ m k2 s.
Proof.
  intros H. unfold mbind_. destruct (m s) as [[a|e] s']; [apply H|done].
Qed.

Lemma mbind_ext_l {S A B : Type} (m1 m2 : M S A) (k : A -> M S B) (s : S) :
  m1 s = m2 s -> mbind_ m1 k s = mbind_ m2 k s.
Proof. intros H. unfold mbind_. by rewrite H. Qed.

Section Requests.

Variable settings : Settings.
Variable encode : list string -> Res (list vec).
Variable norm : vec -> Q.
Variable cross_encoder : string -> Res Reranker.
Variables os1 os2 : Index -> list vec -> Z -> Res (list (list Q) * list (list Z)).

(** [search] consults the index for [search_k] rows only. *)
Lemma search_request query top_k lam mmc env :
  (forall ix q, os1 ix q (search_k top_k mmc ix)
                = os2 ix q (search_k top_k mmc ix)) ->
  search settings encode norm os1 cross_encoder query top_k lam mmc env
  = search settings encode norm os2 cross_encoder query top_k lam mmc env.
Proof.
  intros H. unfold search.
  apply mbind_ext. intros _ env1. apply mbind_ext. intros ix env2.
  apply mbind_ext. intros q env3. by rewrite H.
Qed.

(** [search_advanced] consults the chunk index for [search_advanced_k] rows
    and the section index for [min(sec_k, ntotal)] rows only. *)
Lemma search_advanced_request query top_k lam mmc hyde use_h stk env :
  (forall ix q k,
     k = search_advanced_k top_k mmc ix
     \/ k = Z.min (match stk with
                   | None => SECTION_TOP_K settings
                   | Some k' => k'
                   end) (ntotal ix) ->
     os1 ix q k = os2 ix q k) ->
  search_advanced settings encode norm os1 cross_encoder
    query top_k lam mmc hyde use_h stk env
  = search_advanced settings encode norm os2 cross_encoder
    query top_k lam mmc hyde use_h stk env.
Proof.
  intros H. unfold search_advanced.
  apply mbind_ext. intros _ env1. apply mbind_ext. intros ix env2.
  apply mbind_ext. intros q env3. rewrite (H ix q) by (by left).
  apply mbind_ext. intros found env4. apply mbind_ext. intros scores env5.
  apply mbind_ext. intros idxs env6. apply mbind_ext. intros store env7.
  apply mbind_ext_l. unfold allowed_sections_of.
  apply mbind_ext. intros e' s'.
  destruct use_h as [[|]|]; try done;
    destruct (HIERARCHICAL_RETRIEVAL settings); try done;
    destruct (s_index (self e')) as [six|]; try done;
    destruct (store_sections_jsonl (disk e')); try done;
    by rewrite (H six q) by (by right).
Qed.

End Requests.

(** C5 (amended): [search] asks the chunk index for
    [min(max(top_k * 4, mmr_candidates), ntotal)] rows and
    [search_advanced] for [min(max(top_k * 8, mmr_candidates * 2), ntotal)]
    rows (its floor is twice [mmr_candidates]); the result of either search
    depends on the index only through the answer to the request of that size
    (and, for [search_advanced], to the request of [min(sec_k, ntotal)]
    sections); the rows numbered -1 are dropped from the candidates and all
    the others are kept. *)
Theorem candidate_requests settings encode norm cross_encoder top_k mmc :
  (forall ix,
     search_k top_k mmc ix = Z.min (Z.max (top_k * 4) mmc) (ntotal ix))
  /\ (forall ix,
        search_advanced_k top_k mmc ix
        = Z.min (Z.max (top_k * 8) (mmc * 2)) (ntotal ix))
  /\ (forall os1 os2 query lam env,
        (forall ix q,
           os1 ix q (Z.min (Z.max (top_k * 4) mmc) (ntotal ix))
           = os2 ix q (Z.min (Z.max (top_k * 4) mmc) (ntotal ix))) ->
        search settings encode norm os1 cross_encoder query top_k lam mmc env
        = search settings encode norm os2 cross_encoder query top_k lam mmc
            env)
  /\ (forall os1 os2 query lam hyde use_h stk env,
        (forall ix q k,
           k = Z.min (Z.max (top_k * 8) (mmc * 2)) (ntotal ix)
           \/ k = Z.min (match stk with
                         | None => SECTION_TOP_K settings
                         | Some k' => k'
                         end) (ntotal ix) ->
           os1 ix q k = os2 ix q k) ->
        search_advanced settings encode norm os1 cross_encoder
          query top_k lam mmc hyde use_h stk env
        = search_advanced settings encode norm os2 cross_encoder
            query top_k lam mmc hyde use_h stk env)
  /\ (forall idxs scores c,
        c ∈ drop_sentinel idxs scores
        <-> c ∈ zip idxs scores /\ fst c <> -1).
Proof.
  split; [done|]. split; [done|]. split.
  { intros. by apply search_request. }
  split.
  { intros. by apply search_advanced_request. }
  apply drop_sentinel_spec.
Qed.

Lemma candidate_requests_witness :
  search Scenario.settings Scenario.encode norm10 flat_ip_search
    Scenario.no_reranker "q" 2 1 24
    {| self := Scenario.fresh_store; disk := disk Scenario.built |}
  = search Scenario.settings Scenario.encode norm10
      (Scenario.only_at (search_k 2 24))
      Scenario.no_reranker "q" 2 1 24
      {| self := Scenario.fresh_store; disk := disk Scenario.built |}.
Proof.
  apply (proj1 (proj2 (proj2
    (candidate_requests Scenario.settings Scenario.encode norm10
       Scenario.no_reranker 2 24)))).
  intros ix q. unfold Scenario.only_at, search_k. by rewrite Z.eqb_refl.
Defined.

(** C5 as the specification words it fails: with [top_k = 1] and the default
    floor 24 on an index of a hundred rows, [search_advanced] asks for 48
    rows, not for [max(1 * 8, 24) = 24]. *)
Lemma advanced_floor_is_doubled :
  search_advanced_k 1 24 Scenario.big_index = 48
  /\ claimed_advanced_k 1 24 Scenario.big_index = 24
  /\ search_advanced_k 1 24 Scenario.big_index
     <> claimed_advanced_k 1 24 Scenario.big_index.
Proof. split; [reflexivity|]. split; [reflexivity|]. discriminate. Qed.

(** ** Loading the index *)

Section Loading.

Variable settings : Settings.
Variable encode : list string -> Res (list vec).
Variable norm : vec -> Q.
Variable index_search :
  Index -> list vec -> Z -> Res (list (list Q) * list (list Z)).
Variable cross_encoder : string -> Res Reranker.

Lemma ensure_loaded_missing env :
  index (self env) = None -> index_faiss (disk env) = None ->
  _ensure_loaded env = (Raise index_missing, env).
Proof.
  intros H1 H2. unfold _ensure_loaded, mbind_, get. by rewrite H1, H2.
Qed.

Lemma ensure_loaded_ok env ix :
  available env = Some ix ->
  exists env',
    _ensure_loaded env = (Ok tt, env')
    /\ index (self env') = Some ix
    /\ dim (self env') = dim (self env)
    /\ disk env' = disk env.
Proof.
  unfold available, _ensure_loaded, mbind_, get. intros H.
  destruct (index (self env)) as [ix'|] eqn:E.
  - injection H as ->. unfold ret.
    destruct (s_index (self env)), (index_sections_faiss (disk env));
      simpl; eauto 10.
  - rewrite H. simpl.
    destruct (s_index (self env)), (index_sections_faiss (disk env));
      simpl; eauto 10.
Qed.

Lemma ensure_loaded_raises env :
  fst (_ensure_loaded env) = Raise index_missing
  <-> index (self env) = None /\ index_faiss (disk env) = None.
Proof.
  split.
  - intros H. destruct (available env) as [ix|] eqn:E.
    + destruct (ensure_loaded_ok env ix E) as (env' & Hl & _).
      rewrite Hl in H. discriminate.
    + unfold available in E. destruct (index (self env)); [discriminate|done].
  - intros [H1 H2]. by rewrite ensure_loaded_missing.
Qed.


Lemma item_raise {A : Type} (l : list A) i e : item l i = Raise e -> benign e.
Proof. unfold item. destruct (l !! i); [discriminate|]. intros [= <-]. by left. Qed.

Lemma py_item_raise {A : Type} (l : list A) i e :
  py_item l i = Raise e -> benign e.
Proof.
  unfold py_item. destruct (_ && _); [apply item_raise|].
  destruct (_ && _); [apply item_raise|]. intros [= <-]. by left.
Qed.

Lemma map_res_raise {A B : Type} (P : PyExc -> Prop) (f : A -> Res B) l e :
  (forall a e', f a = Raise e' -> P e') -> map_res f l = Raise e -> P e.
Proof.
  intros Hf. induction l as [|a t IH]; simpl; [discriminate|].
  destruct (f a) eqn:Ea; simpl; [|intros [= <-]; eauto].
  destruct (map_res f t); simpl; [discriminate|]. intros [= <-]. by apply IH.
Qed.

Lemma take_rows_raise X ps e : MMR.take_rows X ps = Raise e -> benign e.
Proof.
  induction ps as [|p ps IH]; simpl; [discriminate|].
  destruct (item X p) eqn:Ei; simpl; [|intros [= <-]; by eapply item_raise].
  destruct (MMR.take_rows X ps); simpl; [discriminate|]. intros [= <-]. by apply IH.
Qed.

Lemma np_argmax_raise l e : np_argmax l = Raise e -> benign e.
Proof. destruct l; simpl; [|discriminate]. intros [= <-]. by right. Qed.

Lemma choose_raise lam q st e : MMR.choose lam q st = Raise e -> benign e.
Proof.
  unfold MMR.choose. destruct (MMR.selected st).
  - destruct (np_argmax _) eqn:E1; simpl; [|intros [= <-]; by eapply np_argmax_raise].
    destruct (item _ _) eqn:E2; simpl; [discriminate|].
    intros [= <-]. by eapply item_raise.
  - destruct (MMR.take_rows _ _) eqn:E1; simpl;
      [|intros [= <-]; by eapply take_rows_raise].
    unfold MMR.mmr_scores. destruct (_ =? _)%nat; simpl;
      [|intros [= <-]; by right].
    destruct (np_argmax _) eqn:E2; simpl; [|intros [= <-]; by eapply np_argmax_raise].
    destruct (item _ _) eqn:E3; simpl; [discriminate|].
    intros [= <-]. by eapply item_raise.
Qed.

Lemma step_raise lam q st e : MMR.step lam q st = Raise e -> benign e.
Proof.
  unfold MMR.step. destruct (MMR.choose lam q st) eqn:E1; simpl;
    [|intros [= <-]; by eapply choose_raise].
  destruct (item (MMR.candidates st) _) eqn:E2; simpl;
    [|intros [= <-]; by eapply item_raise].
  destruct (item (MMR.cand_idxs st) _) eqn:E3; simpl;
    [|intros [= <-]; by eapply item_raise].
  destruct (item (MMR.cand_vecs st) _) eqn:E4; simpl; [discriminate|].
  intros [= <-]. by eapply item_raise.
Qed.

Lemma loop_raise fuel top_k lam q st e :
  MMR.loop fuel top_k lam q st = Raise e -> benign e.
Proof.
  revert st. induction fuel as [|fuel IH]; intros st; simpl; [discriminate|].
  destruct (MMR.loop_cond top_k st); [|discriminate].
  destruct (MMR.step lam q st) eqn:E; simpl; [apply IH|].
  intros [= <-]. by eapply step_raise.
Qed.

Lemma select_raise top_k lam q cands vecs e :
  MMR.select top_k lam q cands vecs = Raise e -> benign e.
Proof.
  unfold MMR.select, MMR.run. destruct (MMR.loop _ _ _ _ _) eqn:E; simpl;
    [discriminate|]. intros [= <-]. by eapply loop_raise.
Qed.

Lemma benign_not_missing e : benign e -> e <> index_missing.
Proof. intros [->| ->]; discriminate. Qed.

Lemma mmr_and_results_raise store cands q top_k lam e :
  (forall texts, encode texts <> Raise index_missing) ->
  mmr_and_results encode norm store cands q top_k lam = Raise e ->
  e <> index_missing.
Proof.
  intros Henc. unfold mmr_and_results.
  destruct (map_res _ cands) as [texts|] eqn:E1; simpl.
  2:{ intros [= <-]. apply benign_not_missing.
      eapply (map_res_raise benign); [|exact E1]. simpl. intros c e'.
      destruct (py_item store (fst c)) eqn:E; simpl; [discriminate|].
      intros [= <-]. by eapply py_item_raise. }
  destruct (encode texts) eqn:E2; simpl.
  2:{ intros [= <-] ->. by eapply Henc. }
  destruct (item q 0) eqn:E3; simpl.
  2:{ intros [= <-]. apply benign_not_missing. by eapply item_raise. }
  destruct (MMR.select _ _ _ _ _) eqn:E4; simpl.
  2:{ intros [= <-]. apply benign_not_missing. by eapply select_raise. }
  intros H. apply benign_not_missing.
  eapply (map_res_raise benign); [|exact H]. intros c e'. unfold make_result.
  destruct (py_item store (fst c)) eqn:E; simpl; [discriminate|].
  intros [= <-]. by eapply py_item_raise.
Qed.

Lemma rerank_never_raises query results env :
  exists results' env', rerank settings cross_encoder query results env
                        = (Ok results', env').
Proof.
  unfold rerank. destruct (_ && _); [|unfold ret; eauto].
  unfold try_except.
  destruct (mbind_ _ _ env) as [[r|e] env']; unfold ret; eauto.
Qed.

Lemma search_after_load query top_k lam mmc env ix :
  (forall texts, encode texts <> Raise index_missing) ->
  (forall ix q k, index_search ix q k <> Raise index_missing) ->
  available env = Some ix ->
  fst (search settings encode norm index_search cross_encoder
         query top_k lam mmc env) <> Raise index_missing.
Proof.
  intros Henc Hidx Hav.
  destruct (ensure_loaded_ok env ix Hav) as (env' & Hl & Hix & _).
  unfold search, mbind_. rewrite Hl. unfold the_index, mbind_, get.
  rewrite Hix. unfold ret, lift, _encode_query.
  destruct (encode [query]) as [q|e] eqn:E1; simpl.
  2:{ intros [= ->]. by eapply Henc. }
  destruct (index_search ix _ _) as [found|e] eqn:E2; simpl.
  2:{ intros [= ->]. by eapply Hidx. }
  destruct (item (fst found) 0) as [scores|e] eqn:E3; simpl.
  2:{ intros [= ->]. by apply item_raise, benign_not_missing in E3. }
  destruct (item (snd found) 0) as [idxs|e] eqn:E4; simpl.
  2:{ intros [= ->]. by apply item_raise, benign_not_missing in E4. }
  unfold _load_store, mbind_, get.
  destruct (store_jsonl (disk env')) as [store|]; simpl; [|discriminate].
  destruct (mmr_and_results _ _ _ _ _ _ _) as [results|e] eqn:E5; simpl.
  2:{ intros [= ->]. by eapply mmr_and_results_raise in E5. }
  destruct (rerank_never_raises query results env') as (r' & env'' & ->).
  discriminate.
Qed.

End Loading.

Lemma update_meta_other settings abspath n sections (meta : gmap string Json) k :
  k ∉ meta_keys ->
  update_meta settings abspath n sections meta !! k = meta !! k.
Proof.
  intros Hk. unfold update_meta, meta_keys in *.
  rewrite !lookup_insert_ne; [done|..]; intros <-; apply Hk; set_solver.
Qed.

(** C8 (amended): loading the index for a search compares no dimensions:
    whenever a chunk index is cached or its file exists, [_ensure_loaded]
    succeeds and keeps that very index in memory, whatever its dimension [d]
    and whatever the dimension [dim] of the current embedding provider; and
    the metadata record that [build] writes gets the counts, the model name
    and the index paths, no dimension: every other key is left as it
    was. *)
Theorem load_ignores_dimension env ix :
  available env = Some ix ->
  (exists env',
     _ensure_loaded env = (Ok tt, env')
     /\ index (self env') = Some ix
     /\ dim (self env') = dim (self env))
  /\ (forall settings abspath n sections (meta : gmap string Json) k,
        k ∉ meta_keys ->
        update_meta settings abspath n sections meta !! k = meta !! k).
Proof.
  intros Hav. split.
  - destruct (ensure_loaded_ok env ix Hav) as (env' & ? & ? & ? & _). eauto.
  - intros. by apply update_meta_other.
Qed.

Lemma load_ignores_dimension_witness :
  available Scenario.other_model = Some Scenario.built_index
  /\ exists env',
       _ensure_loaded Scenario.other_model = (Ok tt, env')
       /\ index (self env') = Some Scenario.built_index
       /\ dim (self env') = 3.
Proof.
  assert (H : available Scenario.other_model = Some Scenario.built_index)
    by (vm_compute; reflexivity).
  split; [exact H|].
  exact (proj1 (load_ignores_dimension Scenario.other_model
                  Scenario.built_index H)).
Defined.

(** C8 as the specification words it fails: the index on file has dimension
    2, the provider of the object has dimension 3, and the loader returns
    normally with that index. *)
Lemma mismatch_is_not_detected :
  d Scenario.built_index = 2
  /\ dim (self Scenario.other_model) = 3
  /\ index_faiss (disk Scenario.other_model) = Some Scenario.built_index
  /\ fst (_ensure_loaded Scenario.other_model) = Ok tt
  /\ index (self (snd (_ensure_loaded Scenario.other_model)))
     = Some Scenario.built_index.
Proof. vm_compute. repeat split. Qed.

(** ** Building the index *)

Section Build.

Variable settings : Settings.
Variable encode : list string -> Res (list vec).
Variable norm : vec -> Q.
Variable abspath : string -> string.

(** The provider fails on the chunks: nothing has been written yet. *)
Lemma build_fails_on_chunks env chunks e :
  chunks_jsonl (disk env) = Some chunks ->
  encode (map text chunks) = Raise e ->
  build settings encode norm abspath env = (Raise e, env).
Proof.
  intros Hc He. unfold build, _load_chunks. unfold mbind_, get, lift. simpl.
  rewrite Hc. unfold ret. by rewrite He.
Qed.

(** The provider fails on the sections: the chunk index and the chunk store
    have been overwritten by then. *)
Lemma build_fails_on_sections env chunks emb s ss e :
  chunks_jsonl (disk env) = Some chunks ->
  encode (map text chunks) = Ok emb ->
  sections_jsonl (disk env) = Some (s :: ss) ->
  encode (map s_text (s :: ss)) = Raise e ->
  build settings encode norm abspath env
  = (Raise e,
     {| self := self env;
        disk := set_store_jsonl chunks
                  (set_index_faiss
                     {| d := dim (self env); rows := _normalize norm emb |}
                     (disk env)) |}).
Proof.
  intros Hc He Hs Hse. unfold build, _load_chunks, _load_sections, write.
  unfold mbind_, get, lift, modify. simpl.
  rewrite Hc. unfold ret. rewrite He, Hs. by rewrite Hse.
Qed.

End Build.

(** C7 (amended): when the embedding provider fails on the chunk texts,
    [build] aborts before it writes anything and every artifact is as it
    was. When it fails on the section texts, [build] aborts with the section
    index file, the section store file and the metadata record as they
    were, and with the chunk index file and the chunk store file already
    replaced by those of the build under way. *)
Theorem build_failure_effects settings encode norm abspath env chunks e :
  chunks_jsonl (disk env) = Some chunks ->
  (encode (map text chunks) = Raise e ->
   build settings encode norm abspath env = (Raise e, env))
  /\ (forall emb s ss,
        encode (map text chunks) = Ok emb ->
        sections_jsonl (disk env) = Some (s :: ss) ->
        encode (map s_text (s :: ss)) = Raise e ->
        exists env',
          build settings encode norm abspath env = (Raise e, env')
          /\ self env' = self env
          /\ index_sections_faiss (disk env') = index_sections_faiss (disk env)
          /\ store_sections_jsonl (disk env') = store_sections_jsonl (disk env)
          /\ meta_json (disk env') = meta_json (disk env)
          /\ index_faiss (disk env')
             = Some {| d := dim (self env); rows := _normalize norm emb |}
          /\ store_jsonl (disk env') = Some chunks).
Proof.
  intros Hc. split.
  - intros He. by apply (build_fails_on_chunks _ _ _ _ env chunks e).
  - intros emb s ss He Hs Hse. eexists. split.
    + by apply (build_fails_on_sections _ _ _ _ env chunks emb s ss e).
    + simpl. repeat split.
Qed.

Lemma build_failure_effects_witness :
  chunks_jsonl (disk Scenario.rebuild) = Some [Scenario.chunk_b]
  /\ exists env',
       build Scenario.settings Scenario.flaky_encode norm10 (fun p => p)
         Scenario.rebuild = (Raise ProviderError, env')
       /\ self env' = self Scenario.rebuild
       /\ index_sections_faiss (disk env')
          = index_sections_faiss (disk Scenario.rebuild)
       /\ store_sections_jsonl (disk env')
          = store_sections_jsonl (disk Scenario.rebuild)
       /\ meta_json (disk env') = meta_json (disk Scenario.rebuild)
       /\ index_faiss (disk env')
          = Some {| d := 2; rows := _normalize norm10 [[0; 1]]%Q |}
       /\ store_jsonl (disk env') = Some [Scenario.chunk_b].
Proof.
  split; [reflexivity|].
  exact (proj2 (build_failure_effects Scenario.settings Scenario.flaky_encode
                  norm10 (fun p => p) Scenario.rebuild [Scenario.chunk_b]
                  ProviderError eq_refl)
           [[0; 1]]%Q Scenario.section_1 [] eq_refl eq_refl eq_refl).
Defined.

(** C7 as the specification words it fails: a rebuild over the artifacts of
    an earlier build, with a provider that fails on the section texts, ends
    in the provider's exception and leaves a chunk index file and a chunk
    store file that are not the earlier ones. *)
Lemma failed_build_overwrites_chunk_index :
  fst (build Scenario.settings Scenario.flaky_encode norm10 (fun p => p)
         Scenario.rebuild) = Raise ProviderError
  /\ index_faiss (disk Scenario.rebuild) = Some Scenario.built_index
  /\ index_faiss (disk (snd (build Scenario.settings Scenario.flaky_encode
                               norm10 (fun p => p) Scenario.rebuild)))
     <> index_faiss (disk Scenario.rebuild)
  /\ store_jsonl (disk (snd (build Scenario.settings Scenario.flaky_encode
                               norm10 (fun p => p) Scenario.rebuild)))
     <> store_jsonl (disk Scenario.rebuild).
Proof.
  split; [vm_compute; reflexivity|]. split; [vm_compute; reflexivity|].
  split; vm_compute; discriminate.
Qed.

(** ** The query vector *)

Lemma mean_of_two (u v : vec) :
  length u = length v ->
  (dot (mean_axis0 [u; v]) (mean_axis0 [u; v])
   == (dot u u + 2 * dot u v + dot v v) / 4)%Q.
Proof.
  unfold mean_axis0. simpl. revert v.
  induction u as [|a u IH]; intros [|b v] Hlen; simpl in *; try discriminate.
  - reflexivity.
  - rewrite (IH v) by lia. field.
Qed.

(** The mean of two unit vectors is a unit vector only when their inner
    product is 1, that is, when they are one vector. *)
Lemma mean_of_units (u v : vec) :
  length u = length v -> unit_vector u -> unit_vector v ->
  (unit_vector (mean_axis0 [u; v]) <-> (dot u v == 1)%Q).
Proof.
  unfold unit_vector. intros Hlen Hu Hv. rewrite mean_of_two by done.
  rewrite Hu, Hv. split; intros H.
  - assert ((1 + 2 * dot u v + 1) / 4 * 4 == 1 * 4)%Q as H4 by (by rewrite H).
    field_simplify in H4. lra.
  - rewrite H. reflexivity.
Qed.

(** C6 (the code on a question and a hypothetical answer with orthogonal
    embeddings): without HyDE text the query row that [search_advanced]
    hands to the index has squared length 1 within 1e-9; with the HyDE text
    the row is the plain mean of the two normalized rows, it is not
    normalized again, and its squared length is at most 1/2. *)
Theorem hyde_query_is_not_unit :
  (exists u,
     query_vector Scenario.encode norm10 "q" None = Ok [u]
     /\ (1 - (1 # 1000000000) <= dot u u <= 1)%Q)
  /\ (exists v,
        query_vector Scenario.encode norm10 "q" (Some "h") = Ok [v]
        /\ (dot v v <= 1 # 2)%Q).
Proof.
  split; eexists; (split; [vm_compute; reflexivity|]).
  - split; vm_compute; discriminate.
  - vm_compute; discriminate.
Qed.

(** ** From the loop to the results of a search *)

Lemma map_res_length {A B : Type} (f : A -> Res B) (l : list A) (r : list B) :
  map_res f l = Ok r -> length r = length l.
Proof.
  revert r. induction l as [|a t IH]; simpl; intros r.
  - by intros [= <-].
  - destruct (f a); simpl; [|discriminate].
    destruct (map_res f t) as [bs|]; simpl; [|discriminate].
    intros [= <-]. simpl. by rewrite (IH bs).
Qed.

Lemma length_insert_desc {A : Type} (key : A -> Q) (x : A) (l : list A) :
  length (insert_desc key x l) = S (length l).
Proof.
  induction l as [|y t IH]; simpl; [done|].
  destruct (Qle_bool (key y) (key x)); simpl; [done|]. by rewrite IH.
Qed.

Lemma length_sort_desc {A : Type} (key : A -> Q) (l : list A) :
  length (sort_desc key l) = length l.
Proof.
  induction l as [|x t IH]; simpl; [done|].
  rewrite length_insert_desc. by rewrite <- IH.
Qed.

Lemma length_assign_rerank results scores :
  length (assign_rerank results scores) = length results.
Proof.
  revert scores. induction results as [|r rs IH]; intros [|s ss]; simpl;
    try done. by rewrite IH.
Qed.

Section Results.

Variable settings : Settings.
Variable encode : list string -> Res (list vec).
Variable norm : vec -> Q.
Variable index_search :
  Index -> list vec -> Z -> Res (list (list Q) * list (list Z)).
Variable cross_encoder : string -> Res Reranker.

(** The cross-encoder pass reorders the results; it neither adds nor drops
    one. *)
Lemma rerank_length query results env results' env' :
  rerank settings cross_encoder query results env = (Ok results', env') ->
  length results' = length results.
Proof.
  unfold rerank. destruct (_ && _); [|by intros [= <- _]].
  unfold try_except, mbind_, get, lift, ret.
  destruct (_reranker (self env)) as [rr|].
  - destruct (rr _) as [scores|]; intros [= <- _]; [|done].
    by rewrite length_sort_desc, length_assign_rerank.
  - destruct (cross_encoder _) as [ce|]; [|by intros [= <- _]].
    unfold set_reranker, modify.
    destruct (ce _) as [scores|]; intros [= <- _]; [|done].
    by rewrite length_sort_desc, length_assign_rerank.
Qed.

(** The result dicts are the picks of the loop, one for one. *)
Lemma mmr_and_results_picks store cands q top_k lam results :
  mmr_and_results encode norm store cands q top_k lam = Ok results ->
  exists q_single vecs picks,
    item q 0 = Ok q_single
    /\ MMR.select top_k lam q_single cands vecs = Ok picks
    /\ length results = length picks.
Proof.
  unfold mmr_and_results.
  destruct (map_res _ cands) as [texts|]; simpl; [|discriminate].
  destruct (encode texts) as [cv|]; simpl; [|discriminate].
  destruct (item q 0) as [q_single|]; simpl; [|discriminate].
  destruct (MMR.select _ _ _ _ _) as [picks|] eqn:E; simpl; [|discriminate].
  intros H. apply map_res_length in H. eauto 6.
Qed.

(** [search] returns as many results as its selection loop made picks. *)
Lemma search_returns_picks query top_k lam mmc env results env' :
  search settings encode norm index_search cross_encoder
    query top_k lam mmc env = (Ok results, env') ->
  exists q_single cands vecs picks,
    MMR.select top_k lam q_single cands vecs = Ok picks
    /\ length results = length picks.
Proof.
  unfold search, mbind_.
  destruct (_ensure_loaded env) as [[[]|] env1]; [|discriminate].
  destruct (the_index env1) as [[ix|] env2]; [|discriminate].
  unfold lift.
  destruct (_encode_query encode norm [query]) as [q|]; [|discriminate].
  destruct (index_search ix q _) as [found|]; [|discriminate].
  destruct (item (fst found) 0) as [scores|]; [|discriminate].
  destruct (item (snd found) 0) as [idxs|]; [|discriminate].
  destruct (_load_store settings env2) as [[store|] env3]; [|discriminate].
  destruct (mmr_and_results _ _ _ _ _ _ _) as [res|] eqn:E; [|discriminate].
  intros H. apply rerank_length in H.
  apply mmr_and_results_picks in E as (q_single & vecs & picks & _ & Hsel & Hl).
  exists q_single, (drop_sentinel idxs scores), vecs, picks.
  split; [done|]. by rewrite H.
Qed.

End Results.

(** ** The background indexer *)

Lemma build_rejects_progress_cb :
  bind_keywords build_signature ["progress_cb"]
  = Raise (TypeError
      "VectorStore.build() got an unexpected keyword argument 'progress_cb'").
Proof. reflexivity. Qed.

Lemma set_locked_same b w : locked w = b -> set_locked b w = w.
Proof. destruct w. simpl. by intros ->. Qed.

(** With the lock free an update is made and the lock is free again; with
    the lock held nothing happens any more. *)
Lemma set_served f w :
  locked w = false ->
  _set f w
  = (Ok (Returns tt),
     {| me := f (me w); files := files w; thread_alive := thread_alive w;
        locked := false; history := history w ++ [f (me w)] |}).
Proof.
  intros H. unfold _set, with_lock, wait_bind, served, mbind_, get, modify,
    ret, set_locked. by rewrite H.
Qed.


Lemma status_json_served w :
  locked w = false -> status_json w = (Ok (Returns (me w)), w).
Proof.
  destruct w as [i f a l h]. simpl. intros ->. reflexivity.
Qed.

Lemma status_json_blocked w :
  locked w = true -> status_json w = (Ok Blocks, w).
Proof.
  intros H. unfold status_json, with_lock, mbind_, get, ret. by rewrite H.
Qed.

Section IndexerFacts.

Variable settings : Settings.
Variable encode : list string -> Res (list vec).
Variable norm : vec -> Q.
Variable abspath : string -> string.
Variable ingest_pdf : string -> Files -> Res IngestInfo * Files.
Variable new_VectorStore : Res VectorStore.
Variables (t_start t_end : Q).




(** [start] on a live run: the call takes the lock and waits for it in
    [status_json]; nothing is stored, no thread is started and the lock
    stays held. *)
Lemma start_blocks pdf_path w :
  locked w = false ->
  status (me w) = "indexing" -> thread_alive w = true ->
  start settings pdf_path w = (Ok Blocks, set_locked true w).
Proof.
  destruct w as [i f a l h]. simpl. intros -> Hs ->.
  unfold start, status_json, with_lock, wait_bind, mbind_, get, modify, ret,
    set_locked. simpl. by rewrite Hs.
Qed.

Lemma not_live_run w :
  ~ (status (me w) = "indexing" /\ thread_alive w = true) ->
  String.eqb (status (me w)) "indexing" && thread_alive w = false.
Proof.
  intros Hn. apply not_true_is_false. intros H.
  apply andb_true_iff in H as [H1 H2]. apply String.eqb_eq in H1. by apply Hn.
Qed.

(** [start] when no run is live: the first [with self._lock:] is left with
    the lock free and nothing changed. *)
Lemma start_not_live pdf_path w :
  locked w = false ->
  ~ (status (me w) = "indexing" /\ thread_alive w = true) ->
  start settings pdf_path w
  = match index_faiss (files w) with
    | Some _ =>
        (_set (fun i =>
           {| status := "ready"; progress := 100; message := "Index ready";
              started_at := started_at i; ended_at := ended_at i;
              last_error := last_error i |}) ;;~
         i <~ status_json ;;
         ret (Returns (i, None))) w
    | None =>
        (modify (fun w =>
           {| me := me w; files := files w; thread_alive := true;
              locked := locked w; history := history w |}) ;;;
         i <~ status_json ;;
         ret (Returns (i, Some (if truthy pdf_path
                                then default "" pdf_path
                                else DEFAULT_PDF_PATH settings)))) w
    end.
Proof.
  intros Hfree Hn. apply not_live_run in Hn.
  destruct w as [i f a l h]. simpl in *. subst l.
  unfold start. unfold wait_bind at 1, mbind_ at 1.
  unfold with_lock, wait_bind at 1, mbind_, get, modify, ret, set_locked.
  simpl. rewrite Hn. simpl. by destruct (index_faiss f).
Qed.

End IndexerFacts.




(** The run of the witness, evaluated: the last error is the [TypeError]
    and no index file has been written. *)
Example idle_world_run :
  let r := start_and_join Scenario.settings Scenario.encode norm10
             (fun p => p) Scenario.ingest_ok (Ok Scenario.fresh_store) 0 1
             (Some "manual.pdf") Scenario.idle_world in
  fst r = Ok (Returns (me (snd r)))
  /\ status (me (snd r)) = "error"
  /\ last_error (me (snd r))
     = Some "VectorStore.build() got an unexpected keyword argument 'progress_cb'"
  /\ map status (history (snd r))
     = ["indexing"; "indexing"; "indexing"; "indexing"; "error"]
  /\ index_faiss (files (snd r)) = None.
Proof. vm_compute. repeat split. Qed.

(** * Further properties of the retriever

    ** A successful build *)

Section BuildOutcome.

Variable settings : Settings.
Variable encode : list string -> Res (list vec).
Variable norm : vec -> Q.
Variable abspath : string -> string.

(** The state that a build leaves when every call to the provider
    succeeds. *)
Lemma build_ok env chunks emb s_emb :
  chunks_jsonl (disk env) = Some chunks ->
  encode (map text chunks) = Ok emb ->
  (sections_on_file (disk env) <> [] ->
   encode (map s_text (sections_on_file (disk env))) = Ok s_emb) ->
  exists f1,
    build settings encode norm abspath env
    = (Ok (Z.of_nat (length chunks), dim (self env)),
       {| self := self env;
          disk := set_meta_json
                    (update_meta settings abspath (length chunks)
                       (sections_on_file (disk env))
                       (match meta_json (disk env) with
                        | Some m => m
                        | None => ∅
                        end)) f1 |})
    /\ chunks_jsonl f1 = chunks_jsonl (disk env)
    /\ sections_jsonl f1 = sections_jsonl (disk env)
    /\ index_faiss f1
       = Some {| d := dim (self env); rows := _normalize norm emb |}
    /\ store_jsonl f1 = Some chunks
    /\ match sections_on_file (disk env) with
       | [] =>
           index_sections_faiss f1 = index_sections_faiss (disk env)
           /\ store_sections_jsonl f1 = store_sections_jsonl (disk env)
       | _ :: _ =>
           index_sections_faiss f1
           = Some {| d := dim (self env); rows := _normalize norm s_emb |}
           /\ store_sections_jsonl f1 = Some (sections_on_file (disk env))
       end.
Proof.
  intros Hc He Hs. unfold build, _load_chunks, _load_sections, write.
  unfold mbind_, get, lift, modify. simpl. rewrite Hc. unfold ret.
  rewrite He. unfold sections_on_file in *.
  destruct (sections_jsonl (disk env)) as [[|s ss]|] eqn:Es.
  - eexists. split; [reflexivity|]. simpl. by rewrite Es.
  - rewrite Hs by discriminate. eexists. split; [reflexivity|].
    simpl. by rewrite Es.
  - eexists. split; [reflexivity|]. simpl. by rewrite Es.
Qed.

End BuildOutcome.

(** X1 (row alignment): after a build in which the provider succeeds with one
    row per text, the chunk store file holds the records of [chunks.jsonl]
    in their order and the chunk index file holds as many rows, row [i]
    being the normalized embedding returned for record [i]; the index has
    the dimension of the object and [build] returns the number of chunks
    and that dimension. *)
Theorem build_aligns_rows settings encode norm abspath env chunks emb s_emb :
  chunks_jsonl (disk env) = Some chunks ->
  encode (map text chunks) = Ok emb ->
  length emb = length chunks ->
  (sections_on_file (disk env) <> [] ->
   encode (map s_text (sections_on_file (disk env))) = Ok s_emb) ->
  exists env' ix,
    build settings encode norm abspath env
    = (Ok (Z.of_nat (length chunks), dim (self env)), env')
    /\ self env' = self env
    /\ chunks_jsonl (disk env') = Some chunks
    /\ store_jsonl (disk env') = Some chunks
    /\ index_faiss (disk env') = Some ix
    /\ d ix = dim (self env)
    /\ ntotal ix = Z.of_nat (length chunks)
    /\ (forall i c, chunks !! i = Some c ->
          exists e, emb !! i = Some e
                    /\ rows ix !! i
                       = Some (map (fun a => a / (norm e + eps))%Q e)).
Proof.
  intros Hc He Hlen Hs.
  destruct (build_ok settings encode norm abspath env chunks emb s_emb Hc He Hs)
    as (f1 & Hb & Hc1 & _ & Hi & Hst & _).
  eexists _, _. split; [exact Hb|]. simpl.
  split; [done|]. split; [by rewrite Hc1|]. split; [done|].
  split; [exact Hi|]. split; [done|]. split.
  { unfold ntotal, _normalize. simpl. by rewrite length_map, Hlen. }
  intros i c Hic. simpl.
  destruct (lookup_lt_is_Some_2 emb i) as [e Hie].
  { rewrite Hlen. by eapply lookup_lt_Some. }
  exists e. split; [done|]. unfold _normalize.
  by rewrite list_lookup_fmap, Hie.
Qed.

Lemma build_aligns_rows_witness :
  exists env' ix,
    build Scenario.settings Scenario.encode norm10 (fun p => p)
      {| self := Scenario.fresh_store; disk := Scenario.ingested |}
    = (Ok (3, 2), env')
    /\ self env' = Scenario.fresh_store
    /\ chunks_jsonl (disk env') = Some Scenario.store
    /\ store_jsonl (disk env') = Some Scenario.store
    /\ index_faiss (disk env') = Some ix
    /\ d ix = 2
    /\ ntotal ix = 3
    /\ (forall i c, Scenario.store !! i = Some c ->
          exists e, map Scenario.embed (map text Scenario.store) !! i = Some e
                    /\ rows ix !! i
                       = Some (map (fun a => a / (norm10 e + eps))%Q e)).
Proof.
  exact (build_aligns_rows Scenario.settings Scenario.encode norm10
           (fun p => p)
           {| self := Scenario.fresh_store; disk := Scenario.ingested |}
           Scenario.store (map Scenario.embed (map text Scenario.store)) []
           eq_refl eq_refl eq_refl (fun H => False_ind _ (H eq_refl))).
Defined.

(** X2 (missing inputs): without [chunks.jsonl], [build] raises its
    [FileNotFoundError] before it calls the provider or writes anything.
    Without sections (no [sections.jsonl], or an empty one) the build
    succeeds, records that no section index exists ([faiss_index_sections]
    null, [sections_embedded] 0), and leaves the section index file and the
    section store file of an earlier build where they are: a new object
    loads that earlier section index. *)
Theorem build_without_inputs settings encode norm abspath env :
  (chunks_jsonl (disk env) = None ->
   build settings encode norm abspath env = (Raise chunks_missing, env))
  /\ (forall chunks emb,
        chunks_jsonl (disk env) = Some chunks ->
        encode (map text chunks) = Ok emb ->
        sections_on_file (disk env) = [] ->
        exists env' meta,
          build settings encode norm abspath env
          = (Ok (Z.of_nat (length chunks), dim (self env)), env')
          /\ index_sections_faiss (disk env')
             = index_sections_faiss (disk env)
          /\ store_sections_jsonl (disk env')
             = store_sections_jsonl (disk env)
          /\ meta_json (disk env') = Some meta
          /\ meta !! "faiss_index_sections" = Some JNull
          /\ meta !! "sections_embedded" = Some (JInt 0)
          /\ forall vs,
               s_index vs = None ->
               s_index (self (snd (_ensure_loaded
                                     {| self := vs; disk := disk env' |})))
               = index_sections_faiss (disk env)).
Proof.
  split.
  - intros Hc. unfold build, _load_chunks. unfold mbind_, get. simpl.
    by rewrite Hc.
  - intros chunks emb Hc He Hs.
    destruct (build_ok settings encode norm abspath env chunks emb [] Hc He)
      as (f1 & Hb & _ & _ & Hi & _ & Hsec).
    { by rewrite Hs. }
    rewrite Hs in Hsec, Hb. destruct Hsec as [Hsi Hss].
    eexists _, _. split; [exact Hb|]. simpl.
    split; [done|]. split; [done|]. split; [reflexivity|].
    split. { unfold update_meta. rewrite lookup_insert_ne by done.
             apply lookup_insert_eq. }
    split. { unfold update_meta. apply lookup_insert_eq. }
    intros vs Hvs. unfold _ensure_loaded, mbind_, get. simpl. rewrite Hi.
    destruct (index vs); simpl; rewrite Hvs, Hsi;
      by destruct (index_sections_faiss (disk env)).
Qed.

Lemma build_without_inputs_witness :
  build Scenario.settings Scenario.encode norm10 (fun p => p)
    {| self := Scenario.fresh_store; disk := Scenario.empty_files |}
  = (Raise chunks_missing,
     {| self := Scenario.fresh_store; disk := Scenario.empty_files |}).
Proof.
  exact (proj1 (build_without_inputs Scenario.settings Scenario.encode norm10
                  (fun p => p)
                  {| self := Scenario.fresh_store;
                     disk := Scenario.empty_files |}) eq_refl).
Defined.

(** ** [GET /stats] after a build *)

Lemma update_meta_keeps settings abspath n sections (m : gmap string Json) k :
  k ∉ meta_keys ->
  update_meta settings abspath n sections m !! k = m !! k.
Proof.
  intros Hk. unfold update_meta, meta_keys in *.
  rewrite !lookup_insert_ne; [done|..]; intros <-; apply Hk;
    repeat (apply list_elem_of_here || apply list_elem_of_further).
Qed.

(** X3: a successful build changes what [stats] reports in one field only,
    [has_index], which becomes true: the page, section and chunk counts are
    read from keys that [build] does not write, so they are those of the
    ingestion (or 0 when ingestion left no [meta.json]), whatever number of
    chunks the build embedded. *)
Theorem stats_after_build settings encode norm abspath int_of_str env
    chunks emb s_emb env' r :
  chunks_jsonl (disk env) = Some chunks ->
  encode (map text chunks) = Ok emb ->
  (sections_on_file (disk env) <> [] ->
   encode (map s_text (sections_on_file (disk env))) = Ok s_emb) ->
  build settings encode norm abspath env = (Ok r, env') ->
  stats settings abspath int_of_str (disk env')
  = match stats settings abspath int_of_str (disk env) with
    | Ok resp => Ok (with_index resp)
    | Raise e => Raise e
    end.
Proof.
  intros Hc He Hs Hb.
  destruct (build_ok settings encode norm abspath env chunks emb s_emb Hc He Hs)
    as (f1 & Hb' & _ & _ & Hi & _).
  rewrite Hb' in Hb. injection Hb as _ <-. unfold stats. simpl. rewrite Hi.
  unfold meta_int.
  rewrite !update_meta_keeps
    by (apply (bool_decide_eq_false_1 _); vm_compute; reflexivity).
  destruct (meta_json (disk env)) as [m|]; simpl.
  - destruct (m !! "pages") as [[| |]|]; simpl; try done;
      destruct (m !! "sections") as [[| |]|]; simpl; try done;
      destruct (m !! "chunks") as [[| |]|]; simpl; try done;
      repeat (match goal with
              | |- context [int_of_str ?s] => destruct (int_of_str s); simpl
              end; try done).
  - rewrite !lookup_empty. done.
Qed.

Lemma stats_after_build_witness :
  stats Scenario.settings (fun p => p) (fun _ => Raise ValueError)
    (disk Scenario.built)
  = match stats Scenario.settings (fun p => p) (fun _ => Raise ValueError)
            Scenario.ingested with
    | Ok resp => Ok (with_index resp)
    | Raise e => Raise e
    end.
Proof.
  exact (stats_after_build Scenario.settings Scenario.encode norm10
           (fun p => p) (fun _ => Raise ValueError)
           {| self := Scenario.fresh_store; disk := Scenario.ingested |}
           Scenario.store (map Scenario.embed (map text Scenario.store)) []
           Scenario.built (3, 2)
           eq_refl eq_refl (fun H => False_ind _ (H eq_refl)) eq_refl).
Defined.

(** ** The memoized load *)

(** X4: once [_ensure_loaded] has succeeded, the object keeps the chunk
    index it holds: a later call succeeds and leaves that index in place
    whatever has become of the files (rewritten by a rebuild, or deleted),
    and on unchanged files the later call changes nothing at all. *)
Theorem ensure_loaded_memoized env env' :
  _ensure_loaded env = (Ok tt, env') ->
  _ensure_loaded env' = (Ok tt, env')
  /\ forall files',
       exists env'',
         _ensure_loaded {| self := self env'; disk := files' |}
         = (Ok tt, env'')
         /\ index (self env'') = index (self env')
         /\ is_Some (index (self env'')).
Proof.
  unfold _ensure_loaded, mbind_, get. simpl.
  destruct env as [[dm ix six rr] f]. simpl.
  destruct ix as [ix|]; simpl.
  - destruct six as [six|]; simpl.
    + intros [= <-]. simpl. split; [done|]. intros files'. eauto.
    + destruct (index_sections_faiss f) as [sf|] eqn:Ef; simpl.
      * intros [= <-]. simpl. split; [done|]. intros files'. eauto.
      * intros [= <-]. simpl. rewrite Ef. split; [done|]. intros files'.
        destruct (index_sections_faiss files'); simpl; eauto.
  - destruct (index_faiss f) as [fx|] eqn:Ex; simpl; [|discriminate].
    destruct six as [six|]; simpl.
    + intros [= <-]. simpl. split; [done|]. intros files'. eauto.
    + destruct (index_sections_faiss f) as [sf|] eqn:Ef; simpl.
      * intros [= <-]. simpl. split; [done|]. intros files'. eauto.
      * intros [= <-]. simpl. rewrite Ef. split; [done|]. intros files'.
        destruct (index_sections_faiss files'); simpl; eauto.
Qed.

Lemma ensure_loaded_memoized_witness :
  _ensure_loaded (snd (_ensure_loaded
                         {| self := Scenario.fresh_store;
                            disk := disk Scenario.built |}))
  = (Ok tt, snd (_ensure_loaded {| self := Scenario.fresh_store;
                                   disk := disk Scenario.built |})).
Proof.
  exact (proj1 (ensure_loaded_memoized
                  {| self := Scenario.fresh_store;
                     disk := disk Scenario.built |} _ eq_refl)).
Defined.

(** ** The cross-encoder pass *)

Lemma insert_desc_perm {A : Type} (key : A -> Q) (x : A) (l : list A) :
  insert_desc key x l ≡ₚ x :: l.
Proof.
  induction l as [|y t IH]; simpl; [done|].
  destruct (Qle_bool (key y) (key x)); [done|].
  rewrite IH. apply Permutation_swap.
Qed.

Lemma sort_desc_perm {A : Type} (key : A -> Q) (l : list A) :
  sort_desc key l ≡ₚ l.
Proof.
  induction l as [|x t IH]; simpl; [done|].
  rewrite insert_desc_perm. by rewrite IH.
Qed.

Lemma insert_desc_sorted {A : Type} (key : A -> Q) (x : A) (l : list A) :
  StronglySorted (fun a b => (key b <= key a)%Q) l ->
  StronglySorted (fun a b => (key b <= key a)%Q) (insert_desc key x l).
Proof.
  induction 1 as [|y t Ht IH Hy]; simpl.
  - repeat constructor.
  - destruct (Qle_bool (key y) (key x)) eqn:E.
    + apply Qle_bool_iff in E. constructor; [by constructor|].
      constructor; [done|]. eapply Forall_impl; [exact Hy|].
      simpl. intros z Hz. by apply Qle_trans with (key y).
    + assert (key x <= key y)%Q as Hxy.
      { apply Qlt_le_weak, Qnot_le_lt. intros H.
        apply Qle_bool_iff in H. congruence. }
      constructor; [exact IH|].
      rewrite insert_desc_perm. by constructor.
Qed.

Lemma sort_desc_sorted {A : Type} (key : A -> Q) (l : list A) :
  StronglySorted (fun a b => (key b <= key a)%Q) (sort_desc key l).
Proof.
  induction l as [|x t IH]; simpl; [constructor|].
  by apply insert_desc_sorted.
Qed.

Lemma assign_rerank_same results scores :
  Forall2 same_hit results (assign_rerank results scores).
Proof.
  revert scores. induction results as [|r rs IH]; intros [|s ss]; simpl.
  - constructor.
  - constructor.
  - apply Forall2_same_length_lookup_2; [done|].
    intros i x y Hx Hy. rewrite Hx in Hy. injection Hy as <-.
    by repeat split.
  - constructor; [by repeat split|apply IH].
Qed.

Lemma assign_rerank_scored results scores :
  (length results <= length scores)%nat ->
  Forall (fun r => is_Some (r_rerank_score r)) (assign_rerank results scores).
Proof.
  revert scores. induction results as [|r rs IH]; intros [|s ss] H;
    simpl in *; try lia.
  - constructor.
  - constructor.
  - constructor; [simpl; eauto|]. apply IH. lia.
Qed.

Section Rerank.

Variable settings : Settings.
Variable cross_encoder : string -> Res Reranker.

(** What the pass returns when a predictor is there and answers. *)
Lemma rerank_ok query results env rr scores :
  RERANK settings = true -> results <> [] ->
  predictor settings cross_encoder env = Ok rr ->
  rr (map (fun r => (query, r_text r)) results) = Ok scores ->
  exists env',
    rerank settings cross_encoder query results env
    = (Ok (sort_desc sort_key (assign_rerank results scores)), env')
    /\ disk env' = disk env
    /\ _reranker (self env') = Some rr
    /\ index (self env') = index (self env).
Proof.
  intros Hr Hne Hp Hs. unfold rerank. rewrite Hr.
  rewrite bool_decide_eq_false_2 by done. simpl.
  unfold try_except, mbind_, get, lift, ret, predictor in *.
  destruct (_reranker (self env)) as [rr'|] eqn:E.
  - injection Hp as ->. rewrite Hs. eauto.
  - rewrite Hp. unfold set_reranker, modify. rewrite Hs. simpl. eauto.
Qed.

End Rerank.

(** X5: the cross-encoder pass is best effort. It never raises and never
    touches the files; when reranking is switched off, when there is no
    result, when the cross-encoder cannot be constructed or when its
    [predict] raises, the results come back as they were given, in the same
    order and without a [rerank_score]. *)
Theorem rerank_fallback settings cross_encoder query results env :
  (exists out, fst (rerank settings cross_encoder query results env) = Ok out)
  /\ disk (snd (rerank settings cross_encoder query results env)) = disk env
  /\ (RERANK settings = false
      \/ results = []
      \/ (exists e, predictor settings cross_encoder env = Raise e)
      \/ (exists rr e,
            predictor settings cross_encoder env = Ok rr
            /\ rr (map (fun r => (query, r_text r)) results) = Raise e) ->
      fst (rerank settings cross_encoder query results env) = Ok results).
Proof.
  unfold rerank, predictor.
  destruct (RERANK settings); simpl.
  2:{ unfold ret. simpl. eauto. }
  destruct (bool_decide (results = [])) eqn:Eb; simpl.
  { unfold ret. simpl. eauto. }
  apply bool_decide_eq_false in Eb.
  unfold try_except, mbind_, get, lift, ret, set_reranker, modify.
  destruct (_reranker (self env)) as [rr|]; simpl.
  - destruct (rr _) as [scores|e] eqn:Es; simpl.
    + split; [eauto|]. split; [done|].
      intros [H|[H|[[e H]|(rr' & e & H1 & H2)]]]; try done.
      injection H1 as <-. congruence.
    + split; [eauto|]. split; [done|]. done.
  - destruct (cross_encoder _) as [ce|e] eqn:Ec; simpl.
    + destruct (ce _) as [scores|e] eqn:Es; simpl.
      * split; [eauto|]. split; [done|].
        intros [H|[H|[[e H]|(rr' & e & H1 & H2)]]]; try done.
        injection H1 as <-. congruence.
      * split; [eauto|]. split; [done|]. done.
    + split; [eauto|]. split; [done|]. done.
Qed.

Lemma rerank_fallback_witness :
  fst (rerank Examples.reranking Scenario.no_reranker "q"
         Examples.two_results
         {| self := Scenario.fresh_store; disk := Scenario.empty_files |})
  = Ok Examples.two_results.
Proof.
  refine (proj2 (proj2
    (rerank_fallback Examples.reranking Scenario.no_reranker "q"
       Examples.two_results
       {| self := Scenario.fresh_store; disk := Scenario.empty_files |})) _).
  right. right. left. exists ProviderError. reflexivity.
Defined.

(** X6: when the cross-encoder answers, the results returned are the given
    ones, each with the score of its position attached and nothing else
    changed, reordered by descending [rerank_score] (by [score] for a result
    that [predict] returned no score for); none is added or lost, and the
    object keeps the cross-encoder for the next search. *)
Theorem rerank_sorts settings cross_encoder query results env rr scores :
  RERANK settings = true -> results <> [] ->
  predictor settings cross_encoder env = Ok rr ->
  rr (map (fun r => (query, r_text r)) results) = Ok scores ->
  exists out env',
    rerank settings cross_encoder query results env = (Ok out, env')
    /\ out ≡ₚ assign_rerank results scores
    /\ Forall2 same_hit results (assign_rerank results scores)
    /\ StronglySorted (fun a b => (sort_key b <= sort_key a)%Q) out
    /\ ((length results <= length scores)%nat ->
        Forall (fun r => exists s, r_rerank_score r = Some s
                                   /\ sort_key r = s) out)
    /\ _reranker (self env') = Some rr.
Proof.
  intros Hr Hne Hp Hs.
  destruct (rerank_ok settings cross_encoder query results env rr scores
              Hr Hne Hp Hs) as (env' & Hk & _ & Hrr & _).
  eexists _, _. split; [exact Hk|].
  split; [apply sort_desc_perm|]. split; [apply assign_rerank_same|].
  split; [apply sort_desc_sorted|]. split; [|done].
  intros Hlen. rewrite sort_desc_perm.
  eapply Forall_impl; [by apply assign_rerank_scored|].
  simpl. intros r [s Hrs]. exists s. unfold sort_key. by rewrite Hrs.
Qed.

Lemma rerank_sorts_witness :
  exists out env',
    rerank Examples.reranking Examples.by_length "q" Examples.two_results
      {| self := Scenario.fresh_store; disk := Scenario.empty_files |}
    = (Ok out, env')
    /\ out ≡ₚ assign_rerank Examples.two_results [1; 2]%Q
    /\ Forall2 same_hit Examples.two_results
         (assign_rerank Examples.two_results [1; 2]%Q)
    /\ StronglySorted (fun a b => (sort_key b <= sort_key a)%Q) out
    /\ ((2 <= 2)%nat ->
        Forall (fun r => exists s, r_rerank_score r = Some s
                                   /\ sort_key r = s) out)
    /\ _reranker (self env') = Some Examples.length_scores.
Proof.
  refine (rerank_sorts Examples.reranking Examples.by_length "q"
            Examples.two_results
            {| self := Scenario.fresh_store; disk := Scenario.empty_files |}
            Examples.length_scores [1; 2]%Q eq_refl _ eq_refl eq_refl).
  discriminate.
Defined.

(** The run of the witness: the longer text, scored higher, comes first. *)
Example rerank_by_length :
  match fst (rerank Examples.reranking Examples.by_length "q"
               Examples.two_results
               {| self := Scenario.fresh_store;
                  disk := Scenario.empty_files |}) with
  | Ok out => map r_id out = ["chunk_c"; "chunk_a"]
  | Raise _ => False
  end.
Proof. vm_compute. reflexivity. Qed.

(** ** The selection is part of the pool *)

Lemma loop_takes_from_pool fuel top_k lam q st :
  aligned st -> (length (MMR.candidates st) <= fuel)%nat ->
  exists st' picks,
    MMR.loop fuel top_k lam q st = Ok st'
    /\ MMR.selected st' = MMR.selected st ++ map fst picks
    /\ MMR.selected_scores st' = MMR.selected_scores st ++ map snd picks
    /\ picks ++ MMR.candidates st' ≡ₚ MMR.candidates st.
Proof.
  revert st; induction fuel as [|fuel IH]; intros st Hal Hfuel.
  - exists st, []. simpl. by rewrite !app_nil_r.
  - simpl. destruct (MMR.loop_cond top_k st) eqn:Hc.
    + destruct (MMRFacts.loop_cond_true _ _ Hc) as [_ Hn].
      assert (Hne : MMR.candidates st <> []).
      { intros E. rewrite E in Hn. simpl in Hn. lia. }
      destruct (MMRFacts.step_ok lam q st Hal Hne) as (pos & c & Hpos & _ & ->).
      simpl. set (st1 := MMR.mk_state _ _ _ _ _).
      destruct (IH st1) as (st' & picks & Hl & Hs & Hsc & Hp).
      { apply MMRFacts.aligned_delete; eauto. }
      { simpl. rewrite length_delete by eauto. lia. }
      exists st', (c :: picks). rewrite Hl. simpl in *.
      rewrite <- !app_assoc in Hs, Hsc.
      split; [done|]. split; [done|]. split; [done|].
      rewrite Hp. symmetry. by apply delete_Permutation.
    + exists st, []. simpl. by rewrite !app_nil_r.
Qed.

(** What [MMR.select] returns is taken from the pool. *)
Lemma select_from_pool top_k lam q_vec cands vecs :
  length vecs = length cands ->
  exists picks,
    MMR.select top_k lam q_vec cands vecs = Ok picks
    /\ picks ⊆+ cands
    /\ (forall c, c ∈ picks -> c ∈ cands)
    /\ (NoDup (map fst cands) -> NoDup (map fst picks)).
Proof.
  intros Hlen.
  destruct (loop_takes_from_pool (length cands) top_k lam q_vec
              (MMR.init cands vecs))
    as (st' & picks & Hl & Hs & Hsc & Hp); [by split|done|].
  simpl in *. exists picks. unfold MMR.select, MMR.run. rewrite Hl. simpl.
  rewrite Hs, Hsc, MMRFacts.zip_fst_snd. split; [done|].
  assert (Hsub : picks ⊆+ cands).
  { rewrite <- Hp. by apply submseteq_inserts_r. }
  split; [done|]. split.
  - intros c Hc. by eapply elem_of_submseteq.
  - intros Hnd. rewrite <- Hp, map_app in Hnd.
    by apply NoDup_app in Hnd as [? _].
Qed.

(** X7: the loop of the two searches selects candidates of its pool, each
    with its own index score, and no candidate twice: the selection is a
    sub-multiset of the pool, so with the distinct rows that an index
    returns it holds distinct rows. *)
Theorem selection_is_part_of_pool top_k lam q_vec cands vecs :
  length vecs = length cands ->
  exists picks,
    MMR.select top_k lam q_vec cands vecs = Ok picks
    /\ picks ⊆+ cands
    /\ (forall c, c ∈ picks -> c ∈ cands)
    /\ (NoDup (map fst cands) -> NoDup (map fst picks)).
Proof. apply select_from_pool. Qed.

Lemma selection_is_part_of_pool_witness :
  exists picks,
    MMR.select 2 (1 # 2) Scenario.q_vec Scenario.pool Scenario.pool_vecs
    = Ok picks
    /\ picks ⊆+ Scenario.pool
    /\ (forall c, c ∈ picks -> c ∈ Scenario.pool)
    /\ (NoDup (map fst Scenario.pool) -> NoDup (map fst picks)).
Proof.
  exact (selection_is_part_of_pool 2 (1 # 2) Scenario.q_vec Scenario.pool
           Scenario.pool_vecs eq_refl).
Defined.

(** ** When the hierarchy plays no role *)

Lemma ensure_loaded_sections env env1 :
  _ensure_loaded env = (Ok tt, env1) ->
  disk env1 = disk env
  /\ s_index (self env1)
     = match s_index (self env) with
       | Some six => Some six
       | None => index_sections_faiss (disk env)
       end.
Proof.
  unfold _ensure_loaded, mbind_, get. simpl.
  destruct (index (self env)); simpl.
  - destruct (s_index (self env)) eqn:Es; simpl.
    + intros [= <-]. simpl. by rewrite ?Es.
    + destruct (index_sections_faiss (disk env)) eqn:Ef; simpl;
        intros [= <-]; simpl; by rewrite ?Es.
  - destruct (index_faiss (disk env)); simpl; [|discriminate].
    destruct (s_index (self env)) eqn:Es; simpl.
    + intros [= <-]. simpl. by rewrite ?Es.
    + destruct (index_sections_faiss (disk env)) eqn:Ef; simpl;
        intros [= <-]; simpl; by rewrite ?Es.
Qed.

Lemma allowed_sections_inactive os use_h sec_k q env1 :
  use_h = false \/ s_index (self env1) = None
  \/ store_sections_jsonl (disk env1) = None ->
  allowed_sections_of os use_h sec_k q env1 = (Ok None, env1).
Proof.
  unfold allowed_sections_of, mbind_, get. simpl. intros [->|[H|H]].
  - done.
  - rewrite H. by destruct use_h.
  - rewrite H. destruct use_h; [|done]. by destruct (s_index (self env1)).
Qed.

(** X8: the hierarchical filter is active only with a section index and a
    section store: when the section store file is missing, or when no
    section index is cached or on file, [search_advanced] with the
    hierarchy requested does exactly what it does with the hierarchy
    switched off, without a search in any section index. *)
Theorem hierarchy_needs_section_files settings encode norm index_search
    cross_encoder query top_k lam mmc hyde stk env :
  store_sections_jsonl (disk env) = None
  \/ (s_index (self env) = None /\ index_sections_faiss (disk env) = None) ->
  search_advanced settings encode norm index_search cross_encoder
    query top_k lam mmc hyde (Some true) stk env
  = search_advanced settings encode norm index_search cross_encoder
      query top_k lam mmc hyde (Some false) stk env.
Proof.
  intros Hcond. unfold search_advanced, mbind_.
  destruct (_ensure_loaded env) as [[[]|e] env1] eqn:E1; [|done].
  apply ensure_loaded_sections in E1 as [Hd Hs].
  unfold the_index, mbind_, get. simpl.
  destruct (index (self env1)) as [ix|]; simpl; [|done].
  unfold lift. destruct (query_vector encode norm query hyde) as [q|]; [|done].
  destruct (index_search ix q _) as [found|]; [|done].
  destruct (item (fst found) 0) as [scores|]; [|done].
  destruct (item (snd found) 0) as [idxs|]; [|done].
  unfold _load_store, mbind_, get. simpl.
  destruct (store_jsonl (disk env1)) as [store|]; simpl; [|done].
  assert (Hnone : forall u sec_k,
            allowed_sections_of index_search u sec_k q env1 = (Ok None, env1)).
  { intros u sec_k. apply allowed_sections_inactive.
    destruct Hcond as [Hc|[Hc1 Hc2]].
    - right. right. by rewrite Hd.
    - right. left. by rewrite Hs, Hc1. }
  by rewrite !Hnone.
Qed.

Lemma hierarchy_needs_section_files_witness :
  search_advanced Scenario.settings Scenario.encode norm10 flat_ip_search
    Scenario.no_reranker "q" 2 (1 # 2) 24 None (Some true) None
    {| self := Scenario.fresh_store; disk := disk Scenario.built |}
  = search_advanced Scenario.settings Scenario.encode norm10 flat_ip_search
      Scenario.no_reranker "q" 2 (1 # 2) 24 None (Some false) None
      {| self := Scenario.fresh_store; disk := disk Scenario.built |}.
Proof.
  apply (hierarchy_needs_section_files Scenario.settings Scenario.encode
           norm10 flat_ip_search Scenario.no_reranker "q" 2 (1 # 2) 24 None
           None
           {| self := Scenario.fresh_store; disk := disk Scenario.built |}).
  left. vm_compute. reflexivity.
Defined.

(** ** Where the results come from *)

Lemma map_res_Forall2 {A B : Type} (P : A -> B -> Prop) (f : A -> Res B)
    (l : list A) (r : list B) :
  (forall a b, f a = Ok b -> P a b) -> map_res f l = Ok r -> Forall2 P l r.
Proof.
  intros Hf. revert r. induction l as [|a t IH]; simpl; intros r.
  - intros [= <-]. constructor.
  - destruct (f a) as [b|] eqn:E; simpl; [|discriminate].
    destruct (map_res f t) as [bs|]; simpl; [|discriminate].
    intros [= <-]. constructor; [by apply Hf|by apply IH].
Qed.

Lemma make_result_hit store c r : make_result store c = Ok r -> hit_of store c r.
Proof.
  unfold make_result, hit_of.
  destruct (py_item store (fst c)) as [it|]; simpl; [|discriminate].
  intros [= <-]. exists it. by repeat split.
Qed.

Lemma hit_of_same store c r r' : hit_of store c r -> same_hit r r' -> hit_of store c r'.
Proof.
  intros (it & H0 & H1 & H2 & H3 & H4 & H5 & H6) (S1 & S2 & S3 & S4 & S5 & S6).
  exists it. repeat split; congruence.
Qed.

Section Provenance.

Variable settings : Settings.
Variable encode : list string -> Res (list vec).
Variable norm : vec -> Q.
Variable index_search :
  Index -> list vec -> Z -> Res (list (list Q) * list (list Z)).
Variable cross_encoder : string -> Res Reranker.

Hypothesis encode_rows :
  forall texts vs, encode texts = Ok vs -> length vs = length texts.

Lemma rerank_same query results env out env' :
  rerank settings cross_encoder query results env = (Ok out, env') ->
  Forall (fun r' => exists r, r ∈ results /\ same_hit r r') out
  /\ disk env' = disk env.
Proof.
  assert (Hid : Forall (fun r' => exists r, r ∈ results /\ same_hit r r') results).
  { apply Forall_forall. intros r Hr. exists r. split; [done|]. by repeat split. }
  assert (Hsort : forall scores,
    Forall (fun r' => exists r, r ∈ results /\ same_hit r r')
           (sort_desc sort_key (assign_rerank results scores))).
  { intros scores. rewrite sort_desc_perm. apply Forall_forall. intros r' Hr'.
    apply list_elem_of_lookup in Hr' as [i Hi].
    destruct (Forall2_lookup_r _ _ _ _ _ (assign_rerank_same results scores) Hi)
      as (r & Hr & Hsame).
    exists r. split; [by eapply list_elem_of_lookup_2|done]. }
  unfold rerank. destruct (_ && _); [|by intros [= <- <-]].
  unfold try_except, mbind_, get, lift, ret, set_reranker, modify.
  destruct (_reranker (self env)) as [rr|]; simpl.
  - destruct (rr _); simpl; intros [= <- <-]; auto.
  - destruct (cross_encoder _) as [ce|]; simpl; [|intros [= <- <-]; auto].
    destruct (ce _); simpl; intros [= <- <-]; auto.
Qed.

Lemma mmr_and_results_hits store cands q top_k lam results :
  mmr_and_results encode norm store cands q top_k lam = Ok results ->
  Forall (fun r => exists c, c ∈ cands /\ hit_of store c r) results.
Proof.
  unfold mmr_and_results.
  destruct (map_res _ cands) as [texts|] eqn:Et; simpl; [|discriminate].
  destruct (encode texts) as [cv|] eqn:Ec; simpl; [|discriminate].
  destruct (item q 0) as [q_single|]; simpl; [|discriminate].
  destruct (MMR.select _ _ _ _ _) as [picks|] eqn:Es; simpl; [|discriminate].
  intros Hres.
  destruct (select_from_pool top_k lam q_single cands
              (_normalize norm cv)) as (picks' & Hs' & _ & Hin & _).
  { unfold _normalize. rewrite length_map, (encode_rows _ _ Ec).
    by apply map_res_length in Et. }
  rewrite Hs' in Es. injection Es as ->.
  apply (map_res_Forall2 (hit_of store)) in Hres; [|apply make_result_hit].
  apply Forall_forall. intros r Hr.
  apply list_elem_of_lookup in Hr as [i Hi].
  destruct (Forall2_lookup_r _ _ _ _ _ Hres Hi) as (c & Hc & Hhit).
  exists c. split; [|done]. apply Hin. by eapply list_elem_of_lookup_2.
Qed.

Lemma search_hits query top_k lam mmc env results env' :
  search settings encode norm index_search cross_encoder
    query top_k lam mmc env = (Ok results, env') ->
  exists ix q found scores idxs store,
    available env = Some ix
    /\ _encode_query encode norm [query] = Ok q
    /\ index_search ix q (search_k top_k mmc ix) = Ok found
    /\ item (fst found) 0 = Ok scores
    /\ item (snd found) 0 = Ok idxs
    /\ store_jsonl (disk env) = Some store
    /\ disk env' = disk env
    /\ Forall (fun r => exists c, c ∈ zip idxs scores /\ fst c <> -1
                                  /\ hit_of store c r) results.
Proof.
  unfold search, mbind_.
  destruct (_ensure_loaded env) as [[[]|] env1] eqn:E1; [|discriminate].
  destruct (available env) as [ix|] eqn:Eav.
  2:{ unfold available in Eav. destruct (index (self env)) eqn:Ei; [discriminate|].
      rewrite ensure_loaded_missing in E1 by done. discriminate. }
  destruct (ensure_loaded_ok env ix Eav) as (env1' & Hl & Hix & _ & Hd).
  rewrite Hl in E1. injection E1 as <-.
  unfold the_index, mbind_, get. simpl. rewrite Hix. simpl.
  unfold lift.
  destruct (_encode_query encode norm [query]) as [q|] eqn:Eq; [|discriminate].
  destruct (index_search ix q _) as [found|] eqn:Ef; [|discriminate].
  destruct (item (fst found) 0) as [scores|] eqn:Esc; [|discriminate].
  destruct (item (snd found) 0) as [idxs|] eqn:Eid; [|discriminate].
  unfold _load_store, mbind_, get. simpl. rewrite Hd.
  destruct (store_jsonl (disk env)) as [store|] eqn:Est; simpl; [|discriminate].
  destruct (mmr_and_results _ _ _ _ _ _ _) as [res|] eqn:Em; [|discriminate].
  intros Hr. apply rerank_same in Hr as [Hsame Hd'].
  apply mmr_and_results_hits in Em.
  exists ix, q, found, scores, idxs, store.
  repeat (split; [done|]). split; [by rewrite Hd'|].
  eapply Forall_impl; [exact Hsame|]. simpl. intros r' (r & Hr & Hrr').
  rewrite Forall_forall in Em. destruct (Em r Hr) as (c & Hc & Hhit).
  apply drop_sentinel_spec in Hc as [Hc1 Hc2].
  exists c. split; [done|]. split; [done|]. by eapply hit_of_same.
Qed.

End Provenance.

(** X9: every result that [search] returns is a row of the store file that
    the index search found (its row number is not the sentinel -1), with the
    id, text, title and pages of that row, and its [score] is the score the
    index gave to the row: neither the MMR objective nor the cross-encoder
    changes it. The search leaves the files as they are. *)
Theorem search_results_are_index_hits settings encode norm index_search
    cross_encoder query top_k lam mmc env results env' :
  (forall texts vs, encode texts = Ok vs -> length vs = length texts) ->
  search settings encode norm index_search cross_encoder
    query top_k lam mmc env = (Ok results, env') ->
  exists ix q found scores idxs store,
    available env = Some ix
    /\ _encode_query encode norm [query] = Ok q
    /\ index_search ix q (search_k top_k mmc ix) = Ok found
    /\ item (fst found) 0 = Ok scores
    /\ item (snd found) 0 = Ok idxs
    /\ store_jsonl (disk env) = Some store
    /\ disk env' = disk env
    /\ Forall (fun r => exists c, c ∈ zip idxs scores /\ fst c <> -1
                                  /\ hit_of store c r) results.
Proof. intros Henc Hs. eapply search_hits; eauto. Qed.

(** ** Selection by first maximum is a stable sort *)







(** ** The loop with [mmr_lambda = 1] *)



Section AtLambdaOne.

Variables (lam : Q) (q : vec).
Hypothesis lam_one : (lam == 1)%Q.




End AtLambdaOne.

(** ** The searches, from the index to the results *)

Lemma map_res_ok {A B : Type} (f : A -> Res B) (l : list A) :
  Forall (fun a => exists b, f a = Ok b) l -> exists r, map_res f l = Ok r.
Proof.
  induction 1 as [|a l [b Hb] _ [r IH]]; simpl; [eauto|].
  rewrite Hb. simpl. rewrite IH. simpl. eauto.
Qed.

Lemma map_res_each {A B : Type} (f : A -> Res B) (l : list A) (r : list B) :
  map_res f l = Ok r -> Forall (fun a => exists b, f a = Ok b) l.
Proof.
  revert r. induction l as [|a l IH]; simpl; intros r; [constructor|].
  destruct (f a) as [b|] eqn:E; simpl; [|discriminate].
  destruct (map_res f l) as [bs|] eqn:E2; simpl; [|discriminate].
  intros _. constructor; eauto.
Qed.

Lemma py_item_ok {A : Type} (l : list A) (i : Z) :
  - Z.of_nat (length l) <= i < Z.of_nat (length l) ->
  exists a, py_item l i = Ok a.
Proof.
  intros Hi. unfold py_item, item.
  destruct ((0 <=? i) && (i <? Z.of_nat (length l))) eqn:E1.
  - apply andb_true_iff in E1 as [H1 H2].
    apply Z.leb_le in H1. apply Z.ltb_lt in H2.
    destruct (lookup_lt_is_Some_2 l (Z.to_nat i)) as [a ->]; [lia|eauto].
  - assert (i < 0) as Hneg.
    { apply andb_false_iff in E1 as [H|H];
        [apply Z.leb_gt in H|apply Z.ltb_ge in H]; lia. }
    rewrite (proj2 (andb_true_iff _ _)).
    2:{ split; [apply Z.leb_le|apply Z.ltb_lt]; lia. }
    destruct (lookup_lt_is_Some_2 l (Z.to_nat (Z.of_nat (length l) + i)))
      as [a ->]; [lia|eauto].
Qed.

Lemma allowed_sections_of_state os use_h sec_k q env :
  snd (allowed_sections_of os use_h sec_k q env) = env.
Proof.
  unfold allowed_sections_of, mbind_, get, lift, ret. simpl.
  destruct use_h; [|done]. destruct (s_index (self env)); [|done].
  destruct (store_sections_jsonl (disk env)); [|done].
  destruct (os _ _ _) as [found|]; [|done].
  destruct (item _ _); [|done]. by destruct (section_ids _ _).
Qed.

Section EndToEnd.

Variable settings : Settings.
Variable encode : list string -> Res (list vec).
Variable norm : vec -> Q.
Variable index_search :
  Index -> list vec -> Z -> Res (list (list Q) * list (list Z)).
Variable cross_encoder : string -> Res Reranker.

(** Lines 140-182 return when every candidate is a row of the store and the
    provider gives one row per text; the results are the picks of the loop,
    one for one. *)
Lemma mmr_and_results_runs store cands q q_single top_k lam texts cv :
  map_res (fun c => let! it := py_item store (fst c) in Ok (text it)) cands
  = Ok texts ->
  encode texts = Ok cv -> length cv = length texts ->
  item q 0 = Ok q_single ->
  exists picks results,
    MMR.select top_k lam q_single cands (_normalize norm cv) = Ok picks
    /\ mmr_and_results encode norm store cands q top_k lam = Ok results
    /\ Forall2 (hit_of store) picks results
    /\ length picks = picks_of top_k (length cands)
    /\ (forall c, c ∈ picks -> c ∈ cands).
Proof.
  intros Ht Hc Hlen Hq.
  assert (Hl : length (_normalize norm cv) = length cands).
  { unfold _normalize. rewrite length_map, Hlen. by apply map_res_length in Ht. }
  destruct (select_from_pool top_k lam q_single cands _ Hl)
    as (picks & Hsel & _ & Hin & _).
  destruct (MMRFacts.select_length top_k lam q_single cands _ Hl)
    as (picks' & Hsel' & Hn).
  rewrite Hsel in Hsel'. injection Hsel' as <-.
  destruct (map_res_ok (make_result store) picks) as [results Hres].
  { apply Forall_forall. intros c Hc'. apply Hin in Hc'.
    apply map_res_each in Ht. rewrite Forall_forall in Ht.
    destruct (Ht c Hc') as [t Hit]. unfold make_result.
    destruct (py_item store (fst c)); simpl in *; [eauto|discriminate]. }
  exists picks, results. split; [done|]. split.
  { unfold mmr_and_results. rewrite Ht. simpl. rewrite Hc. simpl.
    rewrite Hq. simpl. rewrite Hsel. simpl. done. }
  split.
  { eapply map_res_Forall2; [|exact Hres]. apply make_result_hit. }
  split; [unfold picks_of; lia|done].
Qed.

(** [search] up to the candidates. *)
Lemma search_runs query top_k lam mmc env ix q found scores idxs store :
  available env = Some ix ->
  _encode_query encode norm [query] = Ok q ->
  index_search ix q (search_k top_k mmc ix) = Ok found ->
  item (fst found) 0 = Ok scores ->
  item (snd found) 0 = Ok idxs ->
  store_jsonl (disk env) = Some store ->
  exists env1,
    _ensure_loaded env = (Ok tt, env1)
    /\ disk env1 = disk env
    /\ search settings encode norm index_search cross_encoder
         query top_k lam mmc env
       = (results <- lift (mmr_and_results encode norm store
                             (drop_sentinel idxs scores) q top_k lam) ;;
          rerank settings cross_encoder query results) env1.
Proof.
  intros Hav Hq Hf Hsc Hid Hst.
  destruct (ensure_loaded_ok env ix Hav) as (env1 & Hl & Hix & _ & Hd).
  exists env1. split; [done|]. split; [done|].
  unfold search. unfold mbind_ at 1. rewrite Hl.
  unfold mbind_ at 1. unfold the_index, mbind_ at 1, get. simpl.
  rewrite Hix. simpl. unfold mbind_ at 1, lift at 1. rewrite Hq.
  unfold mbind_ at 1, lift at 1. rewrite Hf.
  unfold mbind_ at 1, lift at 1. rewrite Hsc.
  unfold mbind_ at 1, lift at 1. rewrite Hid.
  unfold mbind_ at 1, _load_store, mbind_ at 1, get. simpl.
  rewrite Hd, Hst. done.
Qed.

(** [search] with the store file missing. *)
Lemma search_without_store query top_k lam mmc env ix q found scores idxs :
  available env = Some ix ->
  _encode_query encode norm [query] = Ok q ->
  index_search ix q (search_k top_k mmc ix) = Ok found ->
  item (fst found) 0 = Ok scores ->
  item (snd found) 0 = Ok idxs ->
  store_jsonl (disk env) = None ->
  fst (search settings encode norm index_search cross_encoder
         query top_k lam mmc env)
  = Raise (no_such_file (store_path settings)).
Proof.
  intros Hav Hq Hf Hsc Hid Hst.
  destruct (ensure_loaded_ok env ix Hav) as (env1 & Hl & Hix & _ & Hd).
  unfold search, mbind_. rewrite Hl. unfold the_index, mbind_, get. simpl.
  rewrite Hix. simpl. unfold lift. rewrite Hq, Hf, Hsc, Hid.
  unfold _load_store, mbind_, get. simpl. by rewrite Hd, Hst.
Qed.

(** [search_advanced] up to the candidates and the allowed sections. *)
Lemma search_advanced_runs query top_k lam mmc hyde use_hierarchical stk
    env env1 ix q found scores idxs store allowed_sections pool :
  _ensure_loaded env = (Ok tt, env1) ->
  index (self env1) = Some ix ->
  query_vector encode norm query hyde = Ok q ->
  index_search ix q (search_advanced_k top_k mmc ix) = Ok found ->
  item (fst found) 0 = Ok scores ->
  item (snd found) 0 = Ok idxs ->
  store_jsonl (disk env1) = Some store ->
  fst (allowed_sections_of index_search
         (match use_hierarchical with
          | None => HIERARCHICAL_RETRIEVAL settings
          | Some b => b
          end)
         (match stk with
          | None => SECTION_TOP_K settings
          | Some k => k
          end) q env1) = Ok allowed_sections ->
  section_filter store allowed_sections top_k mmc (drop_sentinel idxs scores)
  = Ok pool ->
  search_advanced settings encode norm index_search cross_encoder
    query top_k lam mmc hyde use_hierarchical stk env
  = (results <- lift (mmr_and_results encode norm store pool q top_k lam) ;;
     rerank settings cross_encoder query results) env1.
Proof.
  intros Hl Hix Hq Hf Hsc Hid Hst Hal Hpool.
  unfold search_advanced. unfold mbind_ at 1. rewrite Hl.
  unfold mbind_ at 1. unfold the_index, mbind_ at 1, get. simpl.
  rewrite Hix. simpl. unfold mbind_ at 1, lift at 1. rewrite Hq.
  unfold mbind_ at 1, lift at 1. rewrite Hf.
  unfold mbind_ at 1, lift at 1. rewrite Hsc.
  unfold mbind_ at 1, lift at 1. rewrite Hid.
  unfold mbind_ at 1, _load_store, mbind_ at 1, get. simpl.
  rewrite Hst. simpl. unfold mbind_ at 1.
  pose proof (allowed_sections_of_state index_search
                (match use_hierarchical with
                 | None => HIERARCHICAL_RETRIEVAL settings
                 | Some b => b
                 end)
                (match stk with
                 | None => SECTION_TOP_K settings
                 | Some k => k
                 end) q env1) as Hstate.
  destruct (allowed_sections_of _ _ _ _ _) as [r env2].
  simpl in Hal, Hstate. subst r env2.
  unfold mbind_ at 1, lift at 1. by rewrite Hpool.
Qed.

(** The cross-encoder pass leaves the number and the provenance of the
    results as they are. *)
Lemma rerank_keeps store (pool : list (Z * Q)) query results env out env' :
  Forall (fun r => exists c, c ∈ pool /\ hit_of store c r) results ->
  rerank settings cross_encoder query results env = (Ok out, env') ->
  length out = length results
  /\ Forall (fun r => exists c, c ∈ pool /\ hit_of store c r) out.
Proof.
  intros Hres Hr. split; [by eapply rerank_length|].
  apply rerank_same in Hr as [Hsame _].
  eapply Forall_impl; [exact Hsame|]. simpl. intros r' (r & Hin & Hrr').
  rewrite Forall_forall in Hres. destruct (Hres r Hin) as (c & Hc & Hhit).
  exists c. split; [done|]. by eapply hit_of_same.
Qed.

End EndToEnd.

Lemma hits_of_picks store (pool picks : list (Z * Q)) results :
  Forall2 (hit_of store) picks results ->
  (forall c, c ∈ picks -> c ∈ pool) ->
  Forall (fun r => exists c, c ∈ pool /\ hit_of store c r) results.
Proof.
  intros H2 Hin. apply Forall_forall. intros r Hr.
  apply list_elem_of_lookup in Hr as [i Hi].
  destruct (Forall2_lookup_r _ _ _ _ _ H2 Hi) as (c & Hc & Hhit).
  exists c. split; [|done]. apply Hin. by eapply list_elem_of_lookup_2.
Qed.

(** ** The order of the selection *)

(** Replaces a closed term by its value. *)
Ltac evaluated l :=
  let v := eval vm_compute in l in
  replace l with v by (vm_compute; reflexivity).




(** ** The hierarchical filter in [search_advanced] *)

(** C4: in [search_advanced] with a non-empty allowed-section set, the
    filter keeps exactly the candidates whose store row has its
    [section_id] in the set, in their order. When fewer than
    [max(top_k * 2, mmr_candidates)] candidates pass it, what
    [search_advanced] returns is what lines 244-301 (the MMR loop, the
    result dicts, the cross-encoder pass) return on the unfiltered
    candidates, and it is what the same call returns with the hierarchy
    switched off; when at least that many pass, it is what these lines
    return on the filtered candidates, and every result is a filtered
    candidate. *)
Theorem hierarchical_fallback settings encode norm index_search
    cross_encoder query top_k lam mmc hyde use_hierarchical stk env env1
    ix q found scores idxs store (allowed : gset string) filtered :
  _ensure_loaded env = (Ok tt, env1) ->
  index (self env1) = Some ix ->
  query_vector encode norm query hyde = Ok q ->
  index_search ix q (search_advanced_k top_k mmc ix) = Ok found ->
  item (fst found) 0 = Ok scores ->
  item (snd found) 0 = Ok idxs ->
  store_jsonl (disk env1) = Some store ->
  fst (allowed_sections_of index_search
         (match use_hierarchical with
          | None => HIERARCHICAL_RETRIEVAL settings
          | Some b => b
          end)
         (match stk with
          | None => SECTION_TOP_K settings
          | Some k => k
          end) q env1) = Ok (Some allowed) ->
  allowed <> ∅ ->
  filter_res (in_allowed store allowed) (drop_sentinel idxs scores)
  = Ok filtered ->
  filtered = List.filter (keeps store allowed) (drop_sentinel idxs scores)
  /\ (forall c, c ∈ filtered <->
        c ∈ drop_sentinel idxs scores
        /\ exists it sid, py_item store (fst c) = Ok it
                          /\ section_id it = Some sid /\ sid ∈ allowed)
  /\ (Z.of_nat (length filtered) < Z.max (top_k * 2) mmc ->
      search_advanced settings encode norm index_search cross_encoder
        query top_k lam mmc hyde use_hierarchical stk env
      = (results <- lift (mmr_and_results encode norm store
                            (drop_sentinel idxs scores) q top_k lam) ;;
         rerank settings cross_encoder query results) env1
      /\ search_advanced settings encode norm index_search cross_encoder
           query top_k lam mmc hyde use_hierarchical stk env
         = search_advanced settings encode norm index_search cross_encoder
             query top_k lam mmc hyde (Some false) stk env)
  /\ (Z.max (top_k * 2) mmc <= Z.of_nat (length filtered) ->
      search_advanced settings encode norm index_search cross_encoder
        query top_k lam mmc hyde use_hierarchical stk env
      = (results <- lift (mmr_and_results encode norm store filtered
                            q top_k lam) ;;
         rerank settings cross_encoder query results) env1
      /\ ((forall texts vs, encode texts = Ok vs ->
             length vs = length texts) ->
          forall results env',
            search_advanced settings encode norm index_search cross_encoder
              query top_k lam mmc hyde use_hierarchical stk env
            = (Ok results, env') ->
            Forall (fun r => exists c, c ∈ filtered /\ hit_of store c r)
              results)).
Proof.
  intros Hl Hix Hq Hf Hsc Hid Hst Hal Hne Hfil.
  pose proof (filter_res_spec _ _ _ Hfil) as Hspec.
  split; [exact Hspec|]. split.
  { intros c. rewrite Hspec, list_elem_of_In, filter_In, <- list_elem_of_In.
    fold (keeps store allowed c). by rewrite keeps_spec. }
  assert (Hrun : forall pool,
    section_filter store (Some allowed) top_k mmc (drop_sentinel idxs scores)
    = Ok pool ->
    search_advanced settings encode norm index_search cross_encoder
      query top_k lam mmc hyde use_hierarchical stk env
    = (results <- lift (mmr_and_results encode norm store pool q top_k lam) ;;
       rerank settings cross_encoder query results) env1).
  { intros pool Hpool. by eapply search_advanced_runs. }
  assert (Hsf : section_filter store (Some allowed) top_k mmc
                  (drop_sentinel idxs scores)
                = Ok (if Z.max (top_k * 2) mmc <=? Z.of_nat (length filtered)
                      then filtered else drop_sentinel idxs scores)).
  { unfold section_filter. rewrite bool_decide_eq_false_2 by done.
    rewrite Hfil. simpl. by destruct (_ <=? _). }
  split; intros H.
  - apply Z.leb_gt in H. rewrite H in Hsf. split; [by apply Hrun|].
    rewrite (Hrun _ Hsf). symmetry.
    eapply search_advanced_runs; eauto.
  - apply Z.leb_le in H. rewrite H in Hsf. split; [by apply Hrun|].
    intros Henc results env'. rewrite (Hrun _ Hsf). unfold mbind_, lift.
    destruct (mmr_and_results _ _ _ _ _ _ _) as [res|] eqn:Em; [|discriminate].
    intros Hr. apply (mmr_and_results_hits encode norm Henc) in Em.
    by destruct (rerank_keeps settings cross_encoder store filtered query res
                   env1 results env' Em Hr).
Qed.

Lemma hierarchical_fallback_witness :
  (search_advanced Scenario.settings Scenario.encode norm10 flat_ip_search
     Scenario.no_reranker "q" 5 (1 # 2) 24 None (Some true) (Some 1)
     {| self := Scenario.fresh_store;
        disk := disk Scenario.built_with_sections |}
   = search_advanced Scenario.settings Scenario.encode norm10 flat_ip_search
       Scenario.no_reranker "q" 5 (1 # 2) 24 None (Some false) (Some 1)
       {| self := Scenario.fresh_store;
          disk := disk Scenario.built_with_sections |})
  /\ forall results env',
       search_advanced Scenario.settings Scenario.encode norm10
         flat_ip_search Scenario.no_reranker "q" 1 (1 # 2) 1 None (Some true)
         (Some 1)
         {| self := Scenario.fresh_store;
            disk := disk Scenario.built_with_sections |}
       = (Ok results, env') ->
       Forall (fun r => exists c,
                 c ∈ List.filter (keeps Scenario.store {["s2"]})
                       Scenario.found_candidates
                 /\ hit_of Scenario.store c r) results.
Proof.
  pose (env := {| self := Scenario.fresh_store;
                  disk := disk Scenario.built_with_sections |}).
  split.
  - refine (proj2 (proj1 (proj2 (proj2
      (hierarchical_fallback Scenario.settings Scenario.encode norm10
         flat_ip_search Scenario.no_reranker "q" 5 (1 # 2) 24 None (Some true)
         (Some 1) env (snd (_ensure_loaded env)) Scenario.built_index
         Scenario.query_rows Scenario.answer Scenario.found_scores
         Scenario.found_rows Scenario.store {["s2"]}
         (List.filter (keeps Scenario.store {["s2"]})
            Scenario.found_candidates)
         _ _ _ _ _ _ _ _ _ _))) _));
      try (vm_compute; reflexivity).
    apply non_empty_singleton_L.
  - intros results env' Hs.
    refine (proj2 (proj2 (proj2 (proj2
      (hierarchical_fallback Scenario.settings Scenario.encode norm10
         flat_ip_search Scenario.no_reranker "q" 1 (1 # 2) 1 None (Some true)
         (Some 1) env (snd (_ensure_loaded env)) Scenario.built_index
         Scenario.query_rows Scenario.answer Scenario.found_scores
         Scenario.found_rows Scenario.store {["s2"]}
         (List.filter (keeps Scenario.store {["s2"]})
            Scenario.found_candidates)
         _ _ _ _ _ _ _ _ _ _))) _) _ results env' Hs);
      try (vm_compute; reflexivity).
    + apply non_empty_singleton_L.
    + vm_compute. discriminate.
    + intros texts vs. unfold Scenario.encode. intros [= <-]. apply length_map.
Defined.

(** ** Loading the index and returning results *)

(** C9 (amended): [VectorStore.search] raises the index-missing
    [FileNotFoundError] exactly when no index is cached in the object and
    the chunk index file does not exist (the collaborators being assumed not
    to raise that very exception themselves), and then it raises it before
    anything else is done. With an index cached or on file, and the provider
    and the index library answering the query, [search] raises the
    [FileNotFoundError] of [open] when the store file is missing; when the
    store file is there, the provider gives one row per text and the rows
    found are rows of the store, it returns [min(top_k, ceil(n / 2))]
    results, each of them a row that the index found with the score that the
    index gave to it. *)
Theorem search_fails_iff_index_missing settings encode norm index_search
    cross_encoder query top_k lam mmc env :
  (forall texts, encode texts <> Raise index_missing) ->
  (forall ix q k, index_search ix q k <> Raise index_missing) ->
  (fst (search settings encode norm index_search cross_encoder
          query top_k lam mmc env) = Raise index_missing
   <-> index (self env) = None /\ index_faiss (disk env) = None)
  /\ (available env = None ->
      search settings encode norm index_search cross_encoder
        query top_k lam mmc env = (Raise index_missing, env))
  /\ (forall ix q found scores idxs,
        available env = Some ix ->
        _encode_query encode norm [query] = Ok q ->
        index_search ix q (search_k top_k mmc ix) = Ok found ->
        item (fst found) 0 = Ok scores ->
        item (snd found) 0 = Ok idxs ->
        (store_jsonl (disk env) = None ->
         fst (search settings encode norm index_search cross_encoder
                query top_k lam mmc env)
         = Raise (no_such_file (store_path settings)))
        /\ (forall store,
              store_jsonl (disk env) = Some store ->
              (forall texts, exists vs,
                 encode texts = Ok vs /\ length vs = length texts) ->
              Forall (fun c => - Z.of_nat (length store) <= fst c
                               < Z.of_nat (length store))
                (drop_sentinel idxs scores) ->
              exists results env',
                search settings encode norm index_search cross_encoder
                  query top_k lam mmc env = (Ok results, env')
                /\ length results
                   = picks_of top_k (length (drop_sentinel idxs scores))
                /\ Forall (fun r => exists c,
                             c ∈ drop_sentinel idxs scores
                             /\ hit_of store c r) results)).
Proof.
  intros Henc Hidx.
  assert (Hnone : available env = None ->
    index (self env) = None /\ index_faiss (disk env) = None).
  { unfold available. destruct (index (self env)); [discriminate|done]. }
  assert (Hraise : index (self env) = None /\ index_faiss (disk env) = None ->
    search settings encode norm index_search cross_encoder
      query top_k lam mmc env = (Raise index_missing, env)).
  { intros [H1 H2]. unfold search, mbind_. by rewrite ensure_loaded_missing. }
  split; [|split].
  - split.
    + intros H. destruct (available env) as [ix|] eqn:E; [|by apply Hnone].
      exfalso. eapply search_after_load; eauto.
    + intros H. by rewrite (Hraise H).
  - intros H. by apply Hraise, Hnone.
  - intros ix q found scores idxs Hav Hq Hf Hsc Hid. split.
    { intros Hst. by eapply search_without_store. }
    intros store Hst Htot Hrows.
    destruct (search_runs settings encode norm index_search cross_encoder
                query top_k lam mmc env ix q found scores idxs store
                Hav Hq Hf Hsc Hid Hst) as (env1 & Hl & Hd & Hs).
    assert (Hq0 : exists q_single, item q 0 = Ok q_single).
    { unfold _encode_query in Hq. destruct (Htot [query]) as (vs & Hvs & Hlen).
      rewrite Hvs in Hq. simpl in Hq. injection Hq as <-.
      destruct vs as [|v vs]; [discriminate|]. simpl. eauto. }
    destruct Hq0 as [q_single Hq0].
    destruct (map_res_ok
                (fun c => let! it := py_item store (fst c) in Ok (text it))
                (drop_sentinel idxs scores)) as [texts Ht].
    { eapply Forall_impl; [exact Hrows|]. simpl. intros c Hc.
      destruct (py_item_ok store (fst c) Hc) as [it ->]. simpl. eauto. }
    destruct (Htot texts) as (cv & Hcv & Hlen).
    destruct (mmr_and_results_runs encode norm store
                (drop_sentinel idxs scores) q q_single top_k lam texts cv
                Ht Hcv Hlen Hq0)
      as (picks & res & Hsel & Hres & Hhit & Hn & Hin).
    destruct (rerank_never_raises settings cross_encoder query res env1)
      as (results & env' & Hr).
    exists results, env'. rewrite Hs. unfold mbind_, lift. rewrite Hres.
    split; [done|].
    destruct (rerank_keeps settings cross_encoder store
                (drop_sentinel idxs scores) query res env1 results env')
      as [Hlen' Hhits]; [by eapply hits_of_picks|done|].
    split; [|done]. rewrite Hlen', <- Hn. symmetry.
    by eapply Forall2_length.
Qed.

Lemma search_fails_iff_index_missing_witness :
  search Scenario.settings Scenario.encode norm10 flat_ip_search
    Scenario.no_reranker "q" 2 1 24
    {| self := Scenario.fresh_store; disk := Scenario.ingested |}
  = (Raise index_missing,
     {| self := Scenario.fresh_store; disk := Scenario.ingested |})
  /\ fst (search Scenario.settings Scenario.encode norm10 flat_ip_search
            Scenario.no_reranker "q" 2 1 24 Scenario.without_store)
     = Raise (no_such_file (store_path Scenario.settings))
  /\ exists results env',
       search Scenario.settings Scenario.encode norm10 flat_ip_search
         Scenario.no_reranker "q" 2 1 24
         {| self := Scenario.fresh_store; disk := disk Scenario.built |}
       = (Ok results, env')
       /\ length results = 2%nat
       /\ Forall (fun r => exists c, c ∈ Scenario.found_candidates
                                     /\ hit_of Scenario.store c r) results.
Proof.
  assert (He : forall texts, Scenario.encode texts <> Raise index_missing).
  { intros texts. unfold Scenario.encode. discriminate. }
  assert (Hi : forall ix q k, flat_ip_search ix q k <> Raise index_missing).
  { intros ix q k. unfold flat_ip_search. discriminate. }
  split.
  - apply (proj1 (proj2
      (search_fails_iff_index_missing Scenario.settings Scenario.encode
         norm10 flat_ip_search Scenario.no_reranker "q" 2 1 24
         {| self := Scenario.fresh_store; disk := Scenario.ingested |}
         He Hi))).
    reflexivity.
  - split.
    { refine (proj1 (proj2 (proj2
        (search_fails_iff_index_missing Scenario.settings Scenario.encode
           norm10 flat_ip_search Scenario.no_reranker "q" 2 1 24
           Scenario.without_store He Hi)) Scenario.built_index
        Scenario.query_rows Scenario.answer Scenario.found_scores
        Scenario.found_rows _ _ _ _ _) _); vm_compute; reflexivity. }
    refine (proj2 (proj2 (proj2
      (search_fails_iff_index_missing Scenario.settings Scenario.encode
         norm10 flat_ip_search Scenario.no_reranker "q" 2 1 24
         {| self := Scenario.fresh_store; disk := disk Scenario.built |}
         He Hi)) Scenario.built_index Scenario.query_rows Scenario.answer
      Scenario.found_scores Scenario.found_rows _ _ _ _ _)
      Scenario.store _ _ _); try (vm_compute; reflexivity).
    + intros texts. exists (map Scenario.embed texts).
      split; [reflexivity|apply length_map].
    + evaluated (drop_sentinel Scenario.found_rows Scenario.found_scores).
      repeat (apply Forall_cons_2;
              [vm_compute; split; [discriminate|reflexivity]|]).
      apply Forall_nil_2.
Defined.

(** C9 as the specification words it fails: with the index file of the
    build and no store file, [search] returns no list of results; it raises
    the [FileNotFoundError] of [open], an exception of the class of the
    index-missing one with another message. *)
Lemma search_without_store_file :
  available Scenario.without_store = Some Scenario.built_index
  /\ store_jsonl (disk Scenario.without_store) = None
  /\ fst (search Scenario.settings Scenario.encode norm10 flat_ip_search
            Scenario.no_reranker "q" 2 1 24 Scenario.without_store)
     = Raise (FileNotFoundError
                "[Errno 2] No such file or directory: 'storage/store.jsonl'")
  /\ forall results,
       fst (search Scenario.settings Scenario.encode norm10 flat_ip_search
              Scenario.no_reranker "q" 2 1 24 Scenario.without_store)
       <> Ok results.
Proof.
  split; [vm_compute; reflexivity|]. split; [reflexivity|].
  assert (H : fst (search Scenario.settings Scenario.encode norm10
                     flat_ip_search Scenario.no_reranker "q" 2 1 24
                     Scenario.without_store)
              = Raise (FileNotFoundError
                  "[Errno 2] No such file or directory: 'storage/store.jsonl'"))
    by (vm_compute; reflexivity).
  split; [exact H|]. intros results. rewrite H. discriminate.
Qed.

Lemma search_results_are_index_hits_witness :
  exists results env',
    search Scenario.settings Scenario.encode norm10 flat_ip_search
      Scenario.no_reranker "q" 2 (1 # 2) 24
      {| self := Scenario.fresh_store; disk := disk Scenario.built |}
    = (Ok results, env')
    /\ exists ix q found scores idxs store,
         available {| self := Scenario.fresh_store;
                      disk := disk Scenario.built |} = Some ix
         /\ _encode_query Scenario.encode norm10 ["q"] = Ok q
         /\ flat_ip_search ix q (search_k 2 24 ix) = Ok found
         /\ item (fst found) 0 = Ok scores
         /\ item (snd found) 0 = Ok idxs
         /\ store_jsonl (disk Scenario.built) = Some store
         /\ disk env' = disk Scenario.built
         /\ Forall (fun r => exists c, c ∈ zip idxs scores /\ fst c <> -1
                                       /\ hit_of store c r) results.
Proof.
  eexists _, _. split; [vm_compute; reflexivity|].
  refine (search_results_are_index_hits Scenario.settings Scenario.encode
            norm10 flat_ip_search Scenario.no_reranker "q" 2 (1 # 2) 24
            {| self := Scenario.fresh_store; disk := disk Scenario.built |}
            _ _ _ _).
  - intros texts vs. unfold Scenario.encode. intros [= <-].
    apply length_map.
  - vm_compute. reflexivity.
Defined.

(** ** Starting the indexer *)

(** X12: the two cases in which [Indexer.start], called with the lock free,
    starts no run. Called while a thread is alive in status "indexing", it
    does not return: it calls [status_json] inside [with self._lock], which
    waits for the lock that the call holds; nothing is stored, no thread is
    started and the lock stays held. Otherwise, with an index file in the
    storage directory, it reports "ready" with progress 100 and starts no
    thread, whatever PDF path it is given: [start] followed by the thread it
    started leaves every file as it was, so the PDF is neither parsed nor
    embedded. *)
Theorem start_starts_no_second_run settings encode norm abspath ingest_pdf
    new_VectorStore t_start t_end pdf_path w :
  locked w = false ->
  (status (me w) = "indexing" /\ thread_alive w = true ->
     start settings pdf_path w = (Ok Blocks, set_locked true w)
     /\ start_and_join settings encode norm abspath ingest_pdf
          new_VectorStore t_start t_end pdf_path w
        = (Ok Blocks, set_locked true w))
  /\ (~ (status (me w) = "indexing" /\ thread_alive w = true) ->
      is_Some (index_faiss (files w)) ->
      exists i w',
        start settings pdf_path w = (Ok (Returns (i, None)), w')
        /\ start_and_join settings encode norm abspath ingest_pdf
             new_VectorStore t_start t_end pdf_path w = (Ok (Returns i), w')
        /\ files w' = files w
        /\ thread_alive w' = thread_alive w
        /\ locked w' = false
        /\ status i = "ready" /\ progress i = 100 /\ i = me w'
        /\ history w' = history w ++ [i]).
Proof.
  intros Hfree. split.
  - intros [Hs Ha].
    pose proof (start_blocks settings pdf_path w Hfree Hs Ha) as Hb.
    split; [exact Hb|]. unfold start_and_join, wait_bind, mbind_.
    by rewrite Hb.
  - intros Hn [ix Hix].
    pose proof (start_not_live settings pdf_path w Hfree Hn) as Hst.
    rewrite Hix in Hst. unfold wait_bind, mbind_, ret in Hst.
    rewrite set_served in Hst by done.
    rewrite status_json_served in Hst by done. simpl in Hst.
    eexists _, _. split; [exact Hst|]. split.
    { unfold start_and_join, wait_bind, mbind_. by rewrite Hst. }
    done.
Qed.

Lemma start_starts_no_second_run_witness :
  (start Scenario.settings (Some "other.pdf") Scenario.busy_world
   = (Ok Blocks, set_locked true Scenario.busy_world)
   /\ start_and_join Scenario.settings Scenario.encode norm10 (fun p => p)
        Scenario.ingest_ok (Ok Scenario.fresh_store) 0 1
        (Some "other.pdf") Scenario.busy_world
      = (Ok Blocks, set_locked true Scenario.busy_world))
  /\ exists i w',
       start Scenario.settings (Some "other.pdf") Examples.built_world
       = (Ok (Returns (i, None)), w')
       /\ start_and_join Scenario.settings Scenario.encode norm10 (fun p => p)
            Scenario.ingest_ok (Ok Scenario.fresh_store) 0 1
            (Some "other.pdf") Examples.built_world = (Ok (Returns i), w')
       /\ files w' = files Examples.built_world
       /\ thread_alive w' = thread_alive Examples.built_world
       /\ locked w' = false
       /\ status i = "ready" /\ progress i = 100 /\ i = me w'
       /\ history w' = history Examples.built_world ++ [i].
Proof.
  split.
  - apply (start_starts_no_second_run Scenario.settings Scenario.encode
             norm10 (fun p => p) Scenario.ingest_ok
             (Ok Scenario.fresh_store) 0 1 (Some "other.pdf")
             Scenario.busy_world eq_refl).
    split; reflexivity.
  - apply (start_starts_no_second_run Scenario.settings Scenario.encode
             norm10 (fun p => p) Scenario.ingest_ok
             (Ok Scenario.fresh_store) 0 1 (Some "other.pdf")
             Examples.built_world eq_refl).
    + intros [H _]. discriminate H.
    + vm_compute. eauto.
Defined.

(** ** The chunker of [utils/tokenize.py] *)

Lemma startswith_spec d s : startswith d s = true <-> exists r, s = d ++ r.
Proof.
  revert s. induction d as [|a d IH]; intros s; simpl.
  - split; [by exists s|done].
  - destruct s as [|b s]; simpl.
    + split; [done|]. by intros (r & Hr).
    + rewrite andb_true_iff, N.eqb_eq, IH. split.
      * intros (-> & r & ->). by exists r.
      * intros (r & [= -> ->]). split; [done|by exists r].
Qed.

Lemma split_skip_drop d s k : split_skip d s k = split_skip d (drop k s) 0.
Proof.
  revert k. induction s as [|c s IH]; intros [|k]; simpl; done.
Qed.

Lemma split_skip_nonempty d s k : split_skip d s k <> [].
Proof.
  revert k. induction s as [|c s IH]; intros k; simpl; [done|].
  destruct k as [|k]; [|apply IH].
  destruct (startswith d (c :: s)); [done|].
  by destruct (split_skip d s 0).
Qed.

Lemma str_join_cons d p ps :
  ps <> [] -> str_join d (p :: ps) = p ++ d ++ str_join d ps.
Proof. by destruct ps. Qed.

Lemma str_join_head d c p ps :
  str_join d ((c :: p) :: ps) = c :: str_join d (p :: ps).
Proof. by destruct ps. Qed.

(** [d.join(s.split(d)) == s]. *)
Lemma join_split d s : d <> [] -> str_join d (str_split d s) = s.
Proof.
  intros Hd. unfold str_split.
  remember (length s) as n eqn:Hn. revert s Hn.
  induction n as [n IH] using lt_wf_ind. intros [|c s] Hn; [done|].
  cbn [split_skip].
  destruct (startswith d (c :: s)) eqn:E.
  - apply startswith_spec in E as (r & Hr).
    destruct d as [|a d]; [done|]. injection Hr as -> ->.
    replace (length (a :: d) - 1)%nat with (length d) by (simpl; lia).
    rewrite split_skip_drop, drop_app_length.
    rewrite str_join_cons by apply split_skip_nonempty.
    cbn [app]. do 2 f_equal.
    apply (IH (length r)); [|done].
    simpl in Hn. rewrite length_app in Hn. lia.
  - pose proof (IH (length s) ltac:(simpl in Hn; lia) s eq_refl) as Hs.
    destruct (split_skip d s 0) as [|p ps] eqn:Eps.
    + by apply split_skip_nonempty in Eps.
    + cbv beta iota. rewrite str_join_head. f_equal. exact Hs.
Qed.

Lemma occurs_in_refl s : occurs_in s s.
Proof. exists [], []. by rewrite app_nil_r. Qed.

Lemma occurs_in_trans a b c : occurs_in a b -> occurs_in b c -> occurs_in a c.
Proof.
  intros (l & r & ->) (l' & r' & ->).
  exists (l' ++ l), (r ++ r'). by rewrite <- !app_assoc.
Qed.

Lemma occurs_in_app_l a b : occurs_in a (a ++ b).
Proof. by exists [], b. Qed.

Lemma occurs_in_app_r a b : occurs_in b (a ++ b).
Proof. exists a, []. by rewrite app_nil_r. Qed.

Lemma join_occurs d l x : x ∈ l -> occurs_in x (str_join d l).
Proof.
  induction l as [|p ps IH]; [by intros ?%elem_of_nil|].
  intros [->|Hx]%elem_of_cons.
  - destruct ps; [apply occurs_in_refl|apply occurs_in_app_l].
  - destruct ps as [|q qs]; [by apply elem_of_nil in Hx|].
    rewrite str_join_cons by done.
    eapply occurs_in_trans; [by apply IH|].
    rewrite app_assoc. apply occurs_in_app_r.
Qed.

Lemma split_occurs d s x : d <> [] -> x ∈ str_split d s -> occurs_in x s.
Proof.
  intros Hd Hx. rewrite <- (join_split d s Hd). by apply join_occurs.
Qed.

Section TokenizeFacts.

Variable isspace : N -> bool.

Lemma lstrip_suffix s :
  exists k, s = k ++ lstrip isspace s /\ forallb isspace k = true.
Proof.
  induction s as [|c s IH]; simpl.
  - by exists [].
  - destruct (isspace c) eqn:E.
    + destruct IH as (k & Hk & Hs). exists (c :: k). simpl.
      rewrite E, Hs. split; [by f_equal|done].
    + by exists [].
Qed.

Lemma lstrip_head s x : head (lstrip isspace s) = Some x -> isspace x = false.
Proof.
  induction s as [|c s IH]; simpl; [done|].
  destruct (isspace c) eqn:E; [done|]. simpl. by intros [= <-].
Qed.

Lemma lstrip_last s x : last (lstrip isspace s) = Some x -> last s = Some x.
Proof.
  destruct (lstrip_suffix s) as (k & Hk & _). intros H.
  assert (last s = last (k ++ lstrip isspace s)) as -> by (by rewrite <- Hk).
  by rewrite last_app, H.
Qed.

Lemma lstrip_nil s : lstrip isspace s = [] <-> forallb isspace s = true.
Proof.
  induction s as [|c s IH]; simpl; [done|].
  by destruct (isspace c).
Qed.

Lemma forallb_reverse (s : pystr) :
  forallb isspace (reverse s) = forallb isspace s.
Proof.
  induction s as [|c s IH]; [done|].
  rewrite reverse_cons, forallb_app, IH. simpl.
  rewrite andb_true_r. apply andb_comm.
Qed.

Lemma rstrip_prefix s :
  exists k, s = rstrip isspace s ++ k /\ forallb isspace k = true.
Proof.
  destruct (lstrip_suffix (reverse s)) as (k & Hk & Hs).
  exists (reverse k). split; [|by rewrite forallb_reverse].
  unfold rstrip. rewrite <- reverse_app, <- Hk. by rewrite reverse_involutive.
Qed.

(** The result of [strip] neither starts nor ends with whitespace. *)
Lemma strip_ends s :
  (forall x, head (strip isspace s) = Some x -> isspace x = false) /\
  (forall x, last (strip isspace s) = Some x -> isspace x = false).
Proof.
  unfold strip, rstrip. split; intros x H.
  - by apply lstrip_head in H.
  - apply lstrip_last in H. rewrite last_reverse in H.
    by apply lstrip_head in H.
Qed.

Lemma strip_nil s : strip isspace s = [] <-> forallb isspace s = true.
Proof.
  unfold strip. rewrite lstrip_nil.
  destruct (rstrip_prefix s) as (k & Hk & Hs).
  assert (forallb isspace s
          = forallb isspace (rstrip isspace s ++ k)) as ->
    by (by rewrite <- Hk).
  by rewrite forallb_app, Hs, andb_true_r.
Qed.

Lemma strip_occurs s : occurs_in (strip isspace s) s.
Proof.
  destruct (rstrip_prefix s) as (k & Hk & _).
  destruct (lstrip_suffix (rstrip isspace s)) as (k' & Hk' & _).
  exists k', k. unfold strip. by rewrite app_assoc, <- Hk', <- Hk.
Qed.

Lemma concat_re_split_ws s : concat (re_split_ws isspace s) = s.
Proof.
  induction s as [|c s IH]; [done|]. cbn [re_split_ws].
  destruct (isspace c).
  - destruct (re_split_ws isspace s) as [|[|a p] [|ws rest]];
      simpl in *; by rewrite ?IH.
  - destruct (re_split_ws isspace s) as [|p ps]; simpl in *; by rewrite ?IH.
Qed.

(** *** What the word loop puts into [chunks] *)

Lemma word_step_chunks mt ot a w :
  chunks_ (word_step isspace mt ot a w) = chunks_ a \/
  chunks_ (word_step isspace mt ot a w)
  = chunks_ a ++ [strip isspace (concat (cur a))].
Proof.
  unfold word_step.
  destruct ((cur_tokens a + rough_token_count w >? mt) && nonempty (cur a));
    simpl; auto.
Qed.

Section Chunks.

Variable Q : pystr -> Prop.
Hypothesis Q_strip : forall s, Q (strip isspace s).

Lemma words_chunks mt ot ws a :
  Forall Q (chunks_ a) ->
  Forall Q (chunks_ (fold_left (word_step isspace mt ot) ws a)).
Proof.
  revert a. induction ws as [|w ws IH]; intros a Ha; [done|].
  simpl. apply IH.
  destruct (word_step_chunks mt ot a w) as [-> | ->]; [done|].
  apply Forall_app. split; [done|]. by apply Forall_singleton.
Qed.

Lemma part_step_chunks mt ot cs p :
  Forall Q cs -> Forall Q (part_step isspace mt ot cs p).
Proof.
  intros Hcs. unfold part_step.
  set (a := fold_left _ _ _).
  assert (Forall Q (chunks_ a)) as Ha by (by apply words_chunks).
  destruct (nonempty (cur a)); [|done].
  apply Forall_app. split; [done|]. by apply Forall_singleton.
Qed.

Lemma parts_chunks mt ot parts cs :
  Forall Q cs -> Forall Q (fold_left (part_step isspace mt ot) parts cs).
Proof.
  revert cs. induction parts as [|p parts IH]; intros cs Hcs; [done|].
  simpl. apply IH. by apply part_step_chunks.
Qed.

End Chunks.

Lemma nonempty_false {A : Type} (l : list A) : nonempty l = false <-> l = [].
Proof. by destruct l. Qed.

(** The chunks of [smart_split] are stripped, and when one is empty. *)
Lemma smart_split_stripped (text : pystr) (max_tokens overlap_tokens : Z) :
  (forall c, c ∈ smart_split isspace text max_tokens overlap_tokens ->
     (forall x, head c = Some x -> isspace x = false) /\
     (forall x, last c = Some x -> isspace x = false)) /\
  ([] ∈ smart_split isspace text max_tokens overlap_tokens <->
     text <> [] /\ rough_token_count text <= max_tokens /\
     forallb isspace text = true).
Proof.
  unfold smart_split. destruct text as [|c0 text].
  { simpl. split; [by intros c ?%elem_of_nil|].
    split; [by intros ?%elem_of_nil|by intros ([] & _)]. }
  set (t := c0 :: text). cbn [nonempty negb].
  destruct (rough_token_count t <=? max_tokens) eqn:E.
  - apply Z.leb_le in E. split.
    + intros c ->%list_elem_of_singleton. apply strip_ends.
    + split.
      * intros H%list_elem_of_singleton. symmetry in H.
        by apply strip_nil in H.
      * intros (_ & _ & H). apply list_elem_of_singleton. symmetry.
        by apply strip_nil.
  - apply Z.leb_gt in E. split.
    + intros c Hc. apply list_elem_of_In, filter_In in Hc as [Hc _].
      apply list_elem_of_In in Hc. revert c Hc. apply Forall_forall.
      apply parts_chunks; [|done]. intros s. apply strip_ends.
    + split.
      * by intros [_ ?]%list_elem_of_In%filter_In.
      * intros (_ & ? & _). lia.
Qed.

(** X13.  Every chunk that [smart_split] returns is stripped: it neither
    starts nor ends with a whitespace character.  The empty chunk is returned
    in one case only: the text is not empty, is within [max_tokens], and
    consists of whitespace (a longer text loses its empty chunks in the final
    filter). *)
Theorem chunks_are_stripped (text : pystr) (max_tokens overlap_tokens : Z) :
  (forall c, c ∈ smart_split isspace text max_tokens overlap_tokens ->
     (forall x, head c = Some x -> isspace x = false) /\
     (forall x, last c = Some x -> isspace x = false)) /\
  ([] ∈ smart_split isspace text max_tokens overlap_tokens <->
     text <> [] /\ rough_token_count text <= max_tokens /\
     forallb isspace text = true).
Proof. apply smart_split_stripped. Qed.

(** *** Without overlap, chunks are cut out of the text *)

Section NoOverlap.

Variables max_tokens overlap_tokens : Z.
Hypothesis no_overlap : overlap_tokens <= 0.
Variable text : pystr.

Lemma words_cut ws : forall pre a,
  cut_of text (pre ++ concat ws) ->
  Forall (cut_of text) (chunks_ a) ->
  (exists l, pre = l ++ concat (cur a)) ->
  Forall (cut_of text)
    (chunks_ (fold_left (word_step isspace max_tokens overlap_tokens) ws a)) /\
  cut_of text
    (concat
       (cur (fold_left (word_step isspace max_tokens overlap_tokens) ws a))).
Proof.
  induction ws as [|w ws IH]; intros pre a Hpre Ha (l & Hl).
  - simpl in *. split; [done|]. rewrite app_nil_r in Hpre.
    eapply occurs_in_trans; [|exact Hpre]. rewrite Hl. apply occurs_in_app_r.
  - cbn [fold_left]. apply (IH (pre ++ w)).
    + by rewrite <- app_assoc.
    + destruct (word_step_chunks max_tokens overlap_tokens a w) as [-> | ->];
        [done|].
      apply Forall_app. split; [done|]. apply Forall_singleton.
      eapply occurs_in_trans; [apply strip_occurs|].
      eapply occurs_in_trans; [|exact Hpre].
      eapply occurs_in_trans; [|apply occurs_in_app_l].
      rewrite Hl. apply occurs_in_app_r.
    + unfold word_step.
      destruct ((cur_tokens a + rough_token_count w >? max_tokens)
                && nonempty (cur a)).
      * replace (Z.max 0 (overlap_tokens * 5)) with 0 by lia.
        cbn. exists pre. by rewrite app_nil_r.
      * cbn. exists l. by rewrite concat_app, Hl, app_assoc; simpl;
          rewrite app_nil_r.
Qed.

Lemma part_step_cut cs p :
  Forall (cut_of text) cs -> cut_of text p ->
  Forall (cut_of text) (part_step isspace max_tokens overlap_tokens cs p).
Proof.
  intros Hcs Hp. unfold part_step.
  destruct (words_cut (re_split_ws isspace p) []
              {| chunks_ := cs; cur := []; cur_tokens := 0 |}) as [H1 H2].
  - simpl. by rewrite concat_re_split_ws.
  - done.
  - by exists [].
  - destruct (nonempty _); [|done].
    apply Forall_app. split; [done|]. apply Forall_singleton.
    eapply occurs_in_trans; [apply strip_occurs|done].
Qed.

Lemma parts_cut parts cs :
  Forall (cut_of text) cs -> Forall (cut_of text) parts ->
  Forall (cut_of text)
    (fold_left (part_step isspace max_tokens overlap_tokens) parts cs).
Proof.
  revert cs. induction parts as [|p parts IH]; intros cs Hcs Hps; [done|].
  apply Forall_cons in Hps as [Hp Hps].
  simpl. apply IH; [|done]. by apply part_step_cut.
Qed.

Lemma split_parts_cut d parts :
  d <> [] -> Forall (cut_of text) parts ->
  Forall (cut_of text) (split_parts max_tokens d parts).
Proof.
  intros Hd Hps. unfold split_parts. apply Forall_forall. intros x Hx.
  apply list_elem_of_In, in_flat_map in Hx as (p & Hp & Hx).
  apply list_elem_of_In in Hp.
  pose proof (proj1 (Forall_forall _ _) Hps p Hp) as Hcut.
  destruct (rough_token_count p <=? max_tokens).
  - destruct Hx as [<-|[]]. done.
  - apply filter_In in Hx as [Hx _]. apply list_elem_of_In in Hx.
    eapply occurs_in_trans; [|exact Hcut]. by eapply split_occurs.
Qed.

Lemma delim_parts_cut : Forall (cut_of text) (delim_parts max_tokens text).
Proof.
  unfold delim_parts.
  assert (Forall (fun d : pystr => d <> []) _delims) as Hds
    by (repeat constructor; done).
  assert (Forall (cut_of text) [text]) as H0
    by (apply Forall_singleton, occurs_in_refl).
  revert H0. generalize [text]. revert Hds. generalize _delims.
  induction l as [|d ds IH]; intros Hds parts Hparts; [done|].
  apply Forall_cons in Hds as [Hd Hds].
  simpl. apply IH; [done|]. by apply split_parts_cut.
Qed.

Lemma smart_split_cut c :
  c ∈ smart_split isspace text max_tokens overlap_tokens -> cut_of text c.
Proof.
  unfold smart_split. destruct (negb (nonempty text)).
  { by intros ?%elem_of_nil. }
  destruct (rough_token_count text <=? max_tokens).
  { intros ->%list_elem_of_singleton. apply strip_occurs. }
  intros [Hc _]%list_elem_of_In%filter_In. apply list_elem_of_In in Hc.
  revert c Hc. apply Forall_forall.
  apply parts_cut; [done|apply delim_parts_cut].
Qed.

End NoOverlap.

(** X14.  With [overlap_tokens <= 0] the chunker invents nothing: every
    chunk is a run of consecutive characters of the text. *)
Theorem chunks_occur_in_text (text : pystr) (max_tokens overlap_tokens : Z)
    (c : pystr) :
  overlap_tokens <= 0 ->
  c ∈ smart_split isspace text max_tokens overlap_tokens ->
  occurs_in c text.
Proof. intros Ho Hc. by eapply smart_split_cut. Qed.

End TokenizeFacts.

(** ** Chunking the sections: [ingest.chunk_sections] *)

Section ChunkSections.

Variable isspace : N -> bool.
Variable uuid4 : nat -> pystr.

Lemma prefix_take_length {A : Type} (l k : list A) :
  l `prefix_of` k -> l = take (length l) k.
Proof. intros (r & ->). by rewrite take_app_length. Qed.

(** The loop over the pieces of one section: it runs to the end and has
    appended every piece, or it returns with exactly the permitted number of
    chunks, a prefix of what it would have appended. *)
Lemma pieces_loop_spec max_chunks s pieces : forall i chunks n,
  max_chunks = 0 \/ Z.of_nat (length chunks) < Z.max 1 max_chunks ->
  match Ingest.pieces_loop uuid4 max_chunks s pieces i chunks n with
  | Ingest.Continue cs n' =>
      cs = chunks
           ++ imap (fun k txt => Ingest.chunk_of s (i + k) txt (uuid4 (n + k)))
                pieces /\
      n' = (n + length pieces)%nat /\
      (max_chunks = 0 \/ Z.of_nat (length cs) < Z.max 1 max_chunks)
  | Ingest.Return cs n' =>
      max_chunks <> 0 /\
      length cs = Z.to_nat (Z.max 1 max_chunks) /\
      cs `prefix_of`
        chunks
        ++ imap (fun k txt => Ingest.chunk_of s (i + k) txt (uuid4 (n + k)))
             pieces /\
      (n' + length chunks = n + length cs)%nat
  end.
Proof.
  induction pieces as [|txt rest IH]; intros i chunks n Hlen.
  - simpl. by rewrite app_nil_r.
  - cbn [Ingest.pieces_loop].
    set (c := Ingest.chunk_of s i txt (uuid4 n)).
    assert (imap (fun k t => Ingest.chunk_of s (i + k) t (uuid4 (n + k)))
              (txt :: rest)
            = c :: imap (fun k t =>
                           Ingest.chunk_of s (S i + k) t (uuid4 (S n + k)))
                     rest) as ->.
    { cbn [imap]. unfold c. rewrite !Nat.add_0_r. f_equal.
      apply imap_ext. intros k t _. simpl.
      by rewrite !Nat.add_succ_r. }
    destruct (negb (max_chunks =? 0)
              && (Z.of_nat (length (chunks ++ [c])) >=? max_chunks)) eqn:E.
    + apply andb_true_iff in E as [E1 E2].
      apply negb_true_iff, Z.eqb_neq in E1.
      apply Z.geb_le in E2. rewrite length_app in *. simpl in *.
      split; [done|]. split; [lia|]. split; [|lia].
      exists (imap (fun k t =>
                      Ingest.chunk_of s (S i + k) t (uuid4 (S n + k))) rest).
      by rewrite <- app_assoc.
    + assert (max_chunks = 0
              \/ Z.of_nat (length (chunks ++ [c])) < Z.max 1 max_chunks) as H'.
      { apply andb_false_iff in E as [E|E].
        - left. apply negb_false_iff in E. by apply Z.eqb_eq.
        - right. rewrite Z.geb_leb in E. apply Z.leb_gt in E. lia. }
      specialize (IH (S i) (chunks ++ [c]) (S n) H').
      destruct (Ingest.pieces_loop uuid4 max_chunks s rest (S i)
                  (chunks ++ [c]) (S n)) as [cs n'|cs n'].
      * destruct IH as (? & ? & Hp & Hn). rewrite <- app_assoc in Hp.
        rewrite length_app in Hn. simpl in *. repeat split; try done. lia.
      * destruct IH as (-> & -> & Hc). rewrite <- app_assoc in *.
        split; [done|]. split; [simpl; lia|done].
Qed.

Lemma sections_loop_spec ct ot max_chunks secs : forall chunks n,
  max_chunks = 0 \/ Z.of_nat (length chunks) < Z.max 1 max_chunks ->
  let all := chunks ++ Ingest.all_chunks isspace uuid4 ct ot secs n in
  let r := Ingest.sections_loop isspace uuid4 ct ot max_chunks secs chunks n in
  r.1 = Ingest.capped max_chunks all /\
  (r.2 + length chunks = n + length r.1)%nat.
Proof.
  induction secs as [|s rest IH]; intros chunks n Hlen; cbn zeta.
  - simpl. rewrite app_nil_r. split; [|lia].
    unfold Ingest.capped. destruct (Z.eqb_spec max_chunks 0); [done|].
    rewrite take_ge; [done|]. lia.
  - cbn [Ingest.sections_loop Ingest.all_chunks].
    set (pieces := smart_split isspace (Ingest.text s) ct ot).
    pose proof (pieces_loop_spec max_chunks s pieces 0 chunks n Hlen) as Hp.
    cbn [Nat.add] in Hp.
    destruct (Ingest.pieces_loop uuid4 max_chunks s pieces 0 chunks n)
      as [cs n'|cs n'].
    + destruct Hp as (Hne & Hcs & Hpre & Hn). simpl. split; [|lia].
      unfold Ingest.capped. destruct (Z.eqb_spec max_chunks 0); [done|].
      rewrite <- Hcs. apply prefix_take_length.
      destruct Hpre as (k & Hk). rewrite app_assoc, Hk, <- app_assoc.
      by eexists.
    + destruct Hp as (-> & -> & Hlen').
      destruct (IH _ (n + length pieces)%nat Hlen') as [H1 H2].
      rewrite <- app_assoc in H1. split; [done|].
      rewrite length_app, length_imap in H2. lia.
Qed.

(** [chunk_sections] as a prefix of all the chunks. *)
Lemma chunk_sections_spec (sections : list Ingest.Section_)
    (chunk_tokens overlap_tokens max_chunks : Z) (n : nat) :
  let all :=
    Ingest.all_chunks isspace uuid4 chunk_tokens overlap_tokens sections n in
  Ingest.chunk_sections isspace uuid4 sections chunk_tokens overlap_tokens
    max_chunks n
  = (Ingest.capped max_chunks all,
     (n + length (Ingest.capped max_chunks all))%nat).
Proof.
  cbn zeta. unfold Ingest.chunk_sections.
  destruct (sections_loop_spec chunk_tokens overlap_tokens max_chunks
              sections [] n) as [H1 H2].
  { simpl. lia. }
  simpl in H1, H2.
  destruct (Ingest.sections_loop _ _ _ _ _ _ _ _) as [cs n']. simpl in *.
  subst cs. f_equal. lia.
Qed.

(** X15.  [chunk_sections] returns the chunks of all pieces of all sections
    in order, the k-th with the k-th identifier drawn and [chunk_index]
    counting within its section; when [max_chunks] is not 0 it returns the
    first [max(1, max_chunks)] of them, so a negative [max_chunks] gives one
    chunk.  It draws one identifier for each chunk returned. *)
Theorem chunk_sections_capped (sections : list Ingest.Section_)
    (chunk_tokens overlap_tokens max_chunks : Z) (n : nat) :
  let all :=
    Ingest.all_chunks isspace uuid4 chunk_tokens overlap_tokens sections n in
  Ingest.chunk_sections isspace uuid4 sections chunk_tokens overlap_tokens
    max_chunks n
  = (Ingest.capped max_chunks all,
     (n + length (Ingest.capped max_chunks all))%nat).
Proof. apply chunk_sections_spec. Qed.

End ChunkSections.

(** ** Headings and sections: [ingest.detect_headings] and
       [ingest.build_sections] *)

Lemma insert_asc_perm x l : Ingest.insert_asc x l ≡ₚ x :: l.
Proof.
  induction l as [|y t IH]; simpl; [done|].
  destruct (Qle_bool x y); [done|]. rewrite IH. apply Permutation_swap.
Qed.

Lemma sorted_perm l : Ingest.sorted l ≡ₚ l.
Proof.
  induction l as [|x l IH]; simpl; [done|].
  by rewrite insert_asc_perm, IH.
Qed.

Lemma insert_asc_sorted x l :
  StronglySorted Qle l -> StronglySorted Qle (Ingest.insert_asc x l).
Proof.
  induction 1 as [|y t Ht IH Hy]; simpl.
  - repeat constructor.
  - destruct (Qle_bool x y) eqn:E.
    + apply Qle_bool_iff in E. constructor; [by constructor|].
      constructor; [done|].
      eapply Forall_impl; [exact Hy|]. intros z Hz. by eapply Qle_trans.
    + constructor; [done|]. rewrite insert_asc_perm. constructor; [|done].
      apply Qlt_le_weak, Qnot_le_lt. intros Hc.
      apply Qle_bool_iff in Hc. congruence.
Qed.

Lemma sorted_sorted l : StronglySorted Qle (Ingest.sorted l).
Proof.
  induction l as [|x l IH]; simpl; [constructor|by apply insert_asc_sorted].
Qed.

Lemma filter_sublist {A : Type} (f : A -> bool) (l : list A) :
  List.filter f l `sublist_of` l.
Proof.
  induction l as [|x l IH]; simpl; [done|].
  destruct (f x); by constructor.
Qed.

Section Headings.

Variable isspace : N -> bool.

(** The candidates of a page. *)
Lemma detect_headings_spec (page : Ingest.Page) :
  exists cands,
    Ingest.detect_headings isspace page = Ok cands /\
    cands `sublist_of` Ingest.sized_lines isspace page /\
    (forall t s, (t, s) ∈ cands -> (length t < 180)%nat) /\
    (forall t s,
       (t, s) ∈ Ingest.sized_lines isspace page ->
       (length t < 180)%nat ->
       (forall t' s', (t', s') ∈ Ingest.sized_lines isspace page ->
                      (s' <= s)%Q) ->
       (t, s) ∈ cands) /\
    ((length (Ingest.sized_lines isspace page) <= 2)%nat ->
     forall t s,
       (t, s) ∈ Ingest.sized_lines isspace page ->
       (length t < 180)%nat -> (t, s) ∈ cands).
Proof.
  unfold Ingest.detect_headings.
  generalize (Ingest.sized_lines isspace page). intros ls.
  destruct (nonempty ls) eqn:Ene; cbn [negb].
  2: { apply nonempty_false in Ene as ->. exists []. split; [done|].
       split; [done|]. split; [by intros ? ? ?%elem_of_nil|].
       split; [by intros ? ? ?%elem_of_nil|by intros _ ? ? ?%elem_of_nil]. }
  assert (1 <= length ls)%nat as Hls
    by (destruct ls; simpl in *; [done|lia]).
  set (sizes := Ingest.sorted (map snd ls)).
  set (idx := Z.to_nat (Z.max 0 (3 * (Z.of_nat (length sizes) - 1) / 4))).
  assert (length sizes = length ls) as Hlen.
  { unfold sizes. by rewrite (Permutation_length (sorted_perm _)), length_map. }
  assert (idx < length sizes)%nat as Hidx.
  { unfold idx. rewrite Hlen.
    assert (3 * (Z.of_nat (length ls) - 1) / 4 <= Z.of_nat (length ls) - 1)
      by (apply Z.div_le_upper_bound; lia).
    lia. }
  destruct (lookup_lt_is_Some_2 _ _ Hidx) as [thr Hthr].
  unfold item. rewrite Hthr. cbn [bind].
  eexists. split; [reflexivity|].
  assert (exists t0, (t0, thr) ∈ ls) as (t0 & Ht0).
  { apply list_elem_of_lookup_2 in Hthr. unfold sizes in Hthr.
    rewrite sorted_perm in Hthr.
    apply list_elem_of_fmap in Hthr as ([t0 s0] & -> & H0). by exists t0. }
  split; [apply filter_sublist|].
  split.
  { intros t s [_ H]%list_elem_of_In%filter_In.
    apply andb_true_iff in H as [_ H]. by apply Nat.ltb_lt in H. }
  split.
  { intros t s Hts Hshort Hmax.
    apply list_elem_of_In, filter_In. split; [by apply list_elem_of_In|].
    simpl. apply andb_true_iff. split; [|by apply Nat.ltb_lt].
    apply Qle_bool_iff. by eapply Hmax. }
  intros Hsmall t s Hts Hshort.
  apply list_elem_of_In, filter_In. split; [by apply list_elem_of_In|].
  simpl. apply andb_true_iff. split; [|by apply Nat.ltb_lt].
  apply Qle_bool_iff.
  assert (idx = 0%nat) as Hz.
  { unfold idx. rewrite Hlen.
    assert (3 * (Z.of_nat (length ls) - 1) / 4 < 1)
      by (apply Z.div_lt_upper_bound; lia).
    lia. }
  rewrite Hz in Hthr.
  assert (s ∈ sizes) as Hs.
  { unfold sizes. rewrite sorted_perm.
    apply list_elem_of_fmap. by exists (t, s). }
  pose proof (sorted_sorted (map snd ls)) as Hsorted. fold sizes in Hsorted.
  destruct sizes as [|m sz]; [done|]. simplify_eq/=.
  apply StronglySorted_inv in Hsorted as [_ Hm].
  apply elem_of_cons in Hs as [->|Hs]; [apply Qle_refl|].
  by apply (proj1 (Forall_forall _ _) Hm).
Qed.

(** X16.  [detect_headings] raises nothing and returns lines of the page in
    their order, each shorter than 180 characters.  A line in the largest
    font of the page is a candidate whenever it is shorter than 180
    characters, so a page set in one font offers all its short lines; on a
    page of one or two lines every short line is a candidate. *)
Theorem detect_headings_candidates (page : Ingest.Page) :
  exists cands,
    Ingest.detect_headings isspace page = Ok cands /\
    cands `sublist_of` Ingest.sized_lines isspace page /\
    (forall t s, (t, s) ∈ cands -> (length t < 180)%nat) /\
    (forall t s,
       (t, s) ∈ Ingest.sized_lines isspace page ->
       (length t < 180)%nat ->
       (forall t' s', (t', s') ∈ Ingest.sized_lines isspace page ->
                      (s' <= s)%Q) ->
       (t, s) ∈ cands) /\
    ((length (Ingest.sized_lines isspace page) <= 2)%nat ->
     forall t s,
       (t, s) ∈ Ingest.sized_lines isspace page ->
       (length t < 180)%nat -> (t, s) ∈ cands).
Proof. apply detect_headings_spec. Qed.

End Headings.

Lemma page_marker_bracket idx : 91%N ∈ Ingest.page_marker idx.
Proof.
  unfold Ingest.page_marker. apply elem_of_app. right.
  apply elem_of_app. left. vm_compute. apply list_elem_of_here.
Qed.

Lemma tiles_snoc a secs s :
  Ingest.tiles a secs (Ingest.page_start s) ->
  Ingest.page_start s <= Ingest.page_end s ->
  Ingest.tiles a (secs ++ [s]) (Ingest.page_end s + 1).
Proof.
  revert a. induction secs as [|s0 secs IH]; intros a; simpl.
  - by intros ->.
  - intros (? & ? & ?) ?. auto.
Qed.

(** Sections that tile [from .. upto - 1] lie within these pages. *)
Lemma tiles_within a secs b :
  Ingest.tiles a secs b ->
  a <= b /\
  Forall (fun s => a <= Ingest.page_start s /\
                   Ingest.page_start s <= Ingest.page_end s /\
                   Ingest.page_end s < b) secs.
Proof.
  revert a. induction secs as [|s secs IH]; intros a; simpl.
  - intros ->. split; [lia|done].
  - intros (Hs & Hle & Ht). destruct (IH _ Ht) as [Hb Hf].
    split; [lia|]. constructor; [lia|].
    eapply Forall_impl; [exact Hf|]. simpl. lia.
Qed.

Section BuildSections.

Variable isspace : N -> bool.
Variable lower : pystr -> pystr.
Variable isdigit : N -> bool.
Variable uuid4 : nat -> pystr.

Lemma runs_nonblank s :
  forallb isspace s = false -> exists p, p ∈ Ingest.runs isspace s /\ p <> [].
Proof.
  induction s as [|c s IH]; simpl; [done|].
  destruct (isspace c); simpl.
  - intros (p & Hp & Hne)%IH. exists p. split; [by right|done].
  - intros _. destruct (Ingest.runs isspace s) as [|p ps].
    + exists [c]. split; [left|done].
    + exists (c :: p). split; [left|done].
Qed.

Lemma split_ws_nonblank s :
  forallb isspace s = false -> Ingest.split_ws isspace s <> [].
Proof.
  intros (p & Hp & Hne)%runs_nonblank. unfold Ingest.split_ws.
  assert (p ∈ List.filter nonempty (Ingest.runs isspace s)) as Hin.
  { apply list_elem_of_In, filter_In. split; [by apply list_elem_of_In|].
    by destruct p. }
  intros E. rewrite E in Hin. by apply elem_of_nil in Hin.
Qed.

Lemma strip_nonblank s :
  strip isspace s <> [] -> forallb isspace s = false.
Proof.
  intros H. destruct (forallb isspace s) eqn:E; [|done].
  by apply strip_nil in E.
Qed.

Lemma nonblank_elem s x :
  x ∈ s -> isspace x = false -> strip isspace s <> [].
Proof.
  intros Hx Hsp E. apply strip_nil in E.
  rewrite forallb_forall in E. apply list_elem_of_In, E in Hx. congruence.
Qed.

Lemma stripped_nonblank s :
  strip isspace s <> [] -> forallb isspace (strip isspace s) = false.
Proof.
  intros H. destruct (strip isspace s) as [|y r] eqn:E; [done|].
  destruct (strip_ends isspace s) as [Hh _]. rewrite E in Hh.
  simpl. by rewrite (Hh y eq_refl).
Qed.

(** The level of a heading is found without an error and lies in 1..3. *)
Lemma heading_level_ok h :
  exists l, Ingest.heading_level isspace isdigit h = Ok l /\ 1 <= l <= 3.
Proof.
  unfold Ingest.heading_level.
  destruct (take 1 (strip isspace (take 10 h))) as [|c [|]] eqn:E;
    try (exists 1; split; [done|lia]).
  destruct (isdigit c); [|exists 1; split; [done|lia]].
  assert (forallb isspace h = false) as Hh.
  { assert (forallb isspace (take 10 h) = false) as Ht.
    { apply strip_nonblank. intros E'. by rewrite E' in E. }
    rewrite <- (take_drop 10 h), forallb_app, Ht. done. }
  apply split_ws_nonblank in Hh.
  destruct (Ingest.split_ws isspace h) as [|first ws]; [done|].
  simpl. eexists. split; [reflexivity|]. lia.
Qed.

Lemma building_commit n idx b last :
  Ingest.building isspace uuid4 n idx b ->
  91%N ∈ concat (Ingest.cur_text_parts b) ->
  Ingest.cur_start b <= last ->
  Ingest.tiles 1 (Ingest.sections b ++ [Ingest.commit isspace uuid4 b last])
    (last + 1) /\
  Forall (fun s => 1 <= Ingest.level s <= 3)
    (Ingest.sections b ++ [Ingest.commit isspace uuid4 b last]) /\
  (isspace 91%N = false ->
   Forall (fun s => forallb isspace (Ingest.text s) = false)
     (Ingest.sections b ++ [Ingest.commit isspace uuid4 b last])) /\
  map Ingest.id (Ingest.sections b ++ [Ingest.commit isspace uuid4 b last])
  = map (fun k => Some (uuid4 k))
      (seq n (length (Ingest.sections b
                      ++ [Ingest.commit isspace uuid4 b last]))) /\
  S (Ingest.drawn b)
  = (n + length (Ingest.sections b
                 ++ [Ingest.commit isspace uuid4 b last]))%nat.
Proof.
  intros (Ht & _ & Hl & Hls & Htx & Hid & Hd) H91 Hlast.
  split.
  { apply (tiles_snoc 1 _ (Ingest.commit isspace uuid4 b last)); done. }
  split.
  { apply Forall_app. split; [done|]. by apply Forall_singleton. }
  split.
  { intros Hsp. apply Forall_app. split; [by apply Htx|].
    apply Forall_singleton. simpl. apply stripped_nonblank.
    by eapply nonblank_elem. }
  rewrite length_app, map_app, Hid. simpl.
  rewrite Nat.add_1_r, seq_S, map_app. simpl. rewrite Hd.
  split; [done|lia].
Qed.

Lemma page_step_building n idx page b :
  Ingest.building isspace uuid4 n idx b ->
  exists b',
    Ingest.page_step isspace lower isdigit uuid4 idx page b = Ok b' /\
    Ingest.building isspace uuid4 n (idx + 1) b'.
Proof.
  intros Hb. unfold Ingest.page_step.
  destruct (detect_headings_spec isspace page) as (cands & -> & _).
  cbn [bind].
  assert (forall b0 : Ingest.Building,
            Ingest.tiles 1 (Ingest.sections b0) (Ingest.cur_start b0) ->
            Ingest.cur_start b0 <= idx ->
            1 <= Ingest.cur_level b0 <= 3 ->
            Forall (fun s => 1 <= Ingest.level s <= 3) (Ingest.sections b0) ->
            (isspace 91%N = false ->
             Forall (fun s => forallb isspace (Ingest.text s) = false)
               (Ingest.sections b0)) ->
            map Ingest.id (Ingest.sections b0)
            = map (fun k => Some (uuid4 k))
                (seq n (length (Ingest.sections b0))) ->
            Ingest.drawn b0 = (n + length (Ingest.sections b0))%nat ->
            Ingest.building isspace uuid4 n (idx + 1)
              {| Ingest.sections := Ingest.sections b0;
                 Ingest.cur_title := Ingest.cur_title b0;
                 Ingest.cur_level := Ingest.cur_level b0;
                 Ingest.cur_text_parts :=
                   Ingest.cur_text_parts b0
                   ++ [Ingest.page_marker idx;
                       Ingest.get_or_empty (Ingest.plain_text page)];
                 Ingest.cur_start := Ingest.cur_start b0;
                 Ingest.drawn := Ingest.drawn b0 |}) as Hnext.
  { intros b0 ? ? ? ? ? ? ?. unfold Ingest.building.
    cbn [Ingest.sections Ingest.cur_level Ingest.cur_text_parts
         Ingest.cur_start Ingest.drawn].
    split; [done|]. split; [|done]. right. split; [|lia].
    rewrite concat_app. apply elem_of_app. right. cbn [concat].
    apply elem_of_app. left. apply page_marker_bracket. }
  assert (Ingest.cur_start b <= idx) as Hle
    by (destruct Hb as (_ & [(_ & ? & _)|[_ ?]] & _); lia).
  assert (exists b', Ok b = Ok b' /\ Ingest.building isspace uuid4 n (idx + 1)
            {| Ingest.sections := Ingest.sections b';
               Ingest.cur_title := Ingest.cur_title b';
               Ingest.cur_level := Ingest.cur_level b';
               Ingest.cur_text_parts :=
                 Ingest.cur_text_parts b'
                 ++ [Ingest.page_marker idx;
                     Ingest.get_or_empty (Ingest.plain_text page)];
               Ingest.cur_start := Ingest.cur_start b';
               Ingest.drawn := Ingest.drawn b' |}) as Hsame.
  { exists b. split; [done|].
    destruct Hb as (? & ? & ? & ? & ? & ? & ?). by apply Hnext. }
  destruct cands as [|[t sz] cands].
  { destruct Hsame as (b' & [= <-] & ?). cbn [bind]. by eexists. }
  destruct (Ingest.is_toc isspace lower (strip isspace t)).
  { destruct Hsame as (b' & [= <-] & ?). cbn [bind]. by eexists. }
  destruct (heading_level_ok (strip isspace t)) as (l & -> & Hl).
  cbn [bind]. eexists. split; [reflexivity|].
  destruct (Ingest.cur_text_parts b) as [|p0 ps] eqn:Eparts;
    cbn [nonempty].
  - destruct Hb as (Ht & Hcase & ? & ? & ? & ? & ?).
    apply Hnext; simpl; try done; try lia.
    destruct Hcase as [(_ & <- & _)|[H91 _]]; [done|].
    rewrite Eparts in H91. by apply elem_of_nil in H91.
  - assert (91%N ∈ concat (Ingest.cur_text_parts b)
            /\ Ingest.cur_start b <= idx - 1) as [H91 Hlast].
    { destruct Hb as (_ & [[E _]|[? ?]] & _); [congruence|].
      split; [done|lia]. }
    destruct (building_commit n idx b (idx - 1) Hb H91 Hlast)
      as (Ht & Hls & Htx & Hid & Hd).
    apply Hnext; simpl; try done; try lia.
    by replace (idx - 1 + 1) with idx in Ht by lia.
Qed.

Lemma pages_loop_building n pages : forall idx b,
  Ingest.building isspace uuid4 n idx b ->
  exists b',
    Ingest.pages_loop isspace lower isdigit uuid4 idx pages b = Ok b' /\
    Ingest.building isspace uuid4 n (idx + Z.of_nat (length pages)) b'.
Proof.
  induction pages as [|page pages IH]; intros idx b Hb.
  - exists b. split; [done|]. simpl. by rewrite Z.add_0_r.
  - cbn [Ingest.pages_loop].
    destruct (page_step_building n idx page b Hb) as (b1 & -> & Hb1).
    cbn [bind]. destruct (IH _ _ Hb1) as (b' & -> & Hb').
    exists b'. split; [done|].
    by replace (idx + Z.of_nat (length (page :: pages)))
      with (idx + 1 + Z.of_nat (length pages)) by (simpl length; lia).
Qed.

(** [build_sections] and the pages. *)
Lemma build_sections_spec (page_blocks : list Ingest.Page) (n : nat) :
  exists secs,
    Ingest.build_sections isspace lower isdigit uuid4 page_blocks n
    = Ok (secs, (n + length secs)%nat) /\
    Ingest.tiles 1 secs (Z.of_nat (length page_blocks) + 1) /\
    (page_blocks = [] <-> secs = []) /\
    Forall (fun s => 1 <= Ingest.level s <= 3) secs /\
    map Ingest.id secs = map (fun k => Some (uuid4 k)) (seq n (length secs)) /\
    (isspace 91%N = false ->
     Forall (fun s => forallb isspace (Ingest.text s) = false) secs).
Proof.
  unfold Ingest.build_sections.
  destruct (pages_loop_building n page_blocks 1
              {| Ingest.sections := []; Ingest.cur_title := chars "Document";
                 Ingest.cur_level := 1; Ingest.cur_text_parts := [];
                 Ingest.cur_start := 1; Ingest.drawn := n |})
    as (b & -> & Hb).
  { unfold Ingest.building. simpl. repeat split; try done; try lia. by left. }
  cbn [bind].
  destruct (Ingest.cur_text_parts b) as [|p0 ps] eqn:Eparts; cbn [nonempty].
  - destruct Hb as (Ht & Hcase & _ & Hls & Htx & Hid & Hd).
    destruct Hcase as [(_ & Hs & H1)|[H91 _]];
      [|rewrite Eparts in H91; by apply elem_of_nil in H91].
    assert (page_blocks = []) as ->.
    { destruct page_blocks; [done|]. simpl length in H1. lia. }
    assert (Ingest.sections b = []) as Hnil.
    { apply tiles_within in Ht as [_ Ht]. rewrite Hs in Ht. simpl in Ht.
      destruct (Ingest.sections b) as [|s ss]; [done|].
      apply Forall_cons in Ht as [? _]. lia. }
    exists []. rewrite Hnil in *. simpl. rewrite Hd. simpl.
    rewrite Nat.add_0_r. repeat split; try done.
  - assert (91%N ∈ concat (Ingest.cur_text_parts b)
            /\ Ingest.cur_start b <= Z.of_nat (length page_blocks))
      as [H91 Hlast].
    { destruct Hb as (_ & [[E _]|[? ?]] & _); [congruence|].
      split; [done|lia]. }
    destruct (building_commit n _ b (Z.of_nat (length page_blocks)) Hb H91
                Hlast) as (Ht & Hls & Htx & Hid & Hd).
    eexists. rewrite Hd. split; [reflexivity|]. split; [done|].
    split; [|done]. split.
    + intros ->. destruct Hb as (Htl & _).
      apply tiles_within in Htl as [? _]. simpl in *. lia.
    + intros E. by apply app_eq_nil in E as [_ ?].
Qed.

(** X17.  [build_sections] raises nothing, whatever the pages hold.  Its
    sections cover the pages 1 .. [len(page_blocks)] one after the other:
    the first starts at page 1, each next one starts on the page after the
    end of the one before, the last ends on the last page, and none is
    empty of pages (no pages give no sections).  Every level lies in 1..3,
    one identifier is drawn for each section, in order, and no section has
    a blank text when '[' is not whitespace. *)
Theorem build_sections_tiles (page_blocks : list Ingest.Page) (n : nat) :
  exists secs,
    Ingest.build_sections isspace lower isdigit uuid4 page_blocks n
    = Ok (secs, (n + length secs)%nat) /\
    Ingest.tiles 1 secs (Z.of_nat (length page_blocks) + 1) /\
    (page_blocks = [] <-> secs = []) /\
    Forall (fun s => 1 <= Ingest.level s <= 3) secs /\
    map Ingest.id secs = map (fun k => Some (uuid4 k)) (seq n (length secs)) /\
    (isspace 91%N = false ->
     Forall (fun s => forallb isspace (Ingest.text s) = false) secs).
Proof. apply build_sections_spec. Qed.

End BuildSections.

(** ** From pages to chunks: [ingest.ingest_pdf], lines 159-160 *)

Section Pipeline.

Variable isspace : N -> bool.
Variable lower : pystr -> pystr.
Variable isdigit : N -> bool.
Variable uuid4 : nat -> pystr.

Lemma all_chunks_elem ct ot secs : forall n c,
  c ∈ Ingest.all_chunks isspace uuid4 ct ot secs n ->
  exists s i txt k,
    s ∈ secs /\
    smart_split isspace (Ingest.text s) ct ot !! i = Some txt /\
    c = Ingest.chunk_of s i txt (uuid4 k).
Proof.
  induction secs as [|s0 secs IH]; intros n c; simpl.
  - by intros ?%elem_of_nil.
  - intros [H|H]%elem_of_app.
    + apply elem_of_lookup_imap in H as (i & txt & -> & Hl).
      exists s0, i, txt, (n + i)%nat. split; [left|done].
    + destruct (IH _ _ H) as (s & i & txt & k & ? & ? & ?).
      exists s, i, txt, k. split; [by right|done].
Qed.

Lemma capped_elem {A : Type} (max_chunks : Z) (l : list A) (x : A) :
  x ∈ Ingest.capped max_chunks l -> x ∈ l.
Proof.
  unfold Ingest.capped. destruct (max_chunks =? 0); [done|].
  intros (i & ? & _)%elem_of_take. by eapply list_elem_of_lookup_2.
Qed.

(** X18.  The chunks that [ingest_pdf] makes of the pages of a document
    (where '[' is not whitespace): every
    chunk has a text that is not empty and neither starts nor ends with
    whitespace, at least one approximate token, a level in 1..3, and a page
    range inside the document; it carries the identifier of a section that
    was built. *)
Theorem ingested_chunks_wellformed (page_blocks : list Ingest.Page) (n : nat)
    (chunk_tokens overlap_tokens max_chunks : Z) :
  isspace 91%N = false ->
  exists secs,
    Ingest.build_sections isspace lower isdigit uuid4 page_blocks n
    = Ok (secs, (n + length secs)%nat) /\
    forall c,
      c ∈ (Ingest.chunk_sections isspace uuid4 secs chunk_tokens
             overlap_tokens max_chunks (n + length secs)).1 ->
      Ingest.c_text c <> [] /\
      (forall x, head (Ingest.c_text c) = Some x -> isspace x = false) /\
      (forall x, last (Ingest.c_text c) = Some x -> isspace x = false) /\
      1 <= Ingest.c_approx_tokens c /\
      1 <= Ingest.c_level c <= 3 /\
      1 <= Ingest.c_page_start c /\
      Ingest.c_page_start c <= Ingest.c_page_end c /\
      Ingest.c_page_end c <= Z.of_nat (length page_blocks) /\
      exists s k,
        s ∈ secs /\ Ingest.id s = Some (uuid4 k) /\
        Ingest.c_section_id c = Some (uuid4 k) /\
        Ingest.c_section_title c = Ingest.title s.
Proof.
  intros Hsp.
  destruct (build_sections_spec isspace lower isdigit uuid4 page_blocks n)
    as (secs & Hb & Ht & _ & Hl & Hid & Htx).
  exists secs. split; [done|]. intros c Hc.
  rewrite chunk_sections_spec in Hc. cbn [fst] in Hc.
  apply capped_elem, all_chunks_elem in Hc
    as (s & i & txt & k & Hs & Htxt & ->).
  apply list_elem_of_lookup_2 in Htxt.
  destruct (smart_split_stripped isspace (Ingest.text s) chunk_tokens
              overlap_tokens) as [Hends Hempty].
  pose proof (proj1 (Forall_forall _ _) (Htx Hsp) s Hs) as Hblank.
  apply tiles_within in Ht as [_ Ht].
  pose proof (proj1 (Forall_forall _ _) Ht s Hs) as (? & ? & ?).
  pose proof (proj1 (Forall_forall _ _) Hl s Hs) as ?.
  assert (exists j, Ingest.id s = Some (uuid4 j)) as (j & Hj).
  { apply list_elem_of_lookup_1 in Hs as (m & Hm).
    assert (map Ingest.id secs !! m = Some (Ingest.id s)) as Hm'
      by (by rewrite list_lookup_fmap, Hm).
    rewrite Hid, list_lookup_fmap in Hm'.
    destruct (seq n (length secs) !! m) as [j|]; [|done].
    exists j. by simplify_eq/=. }
  simpl. split.
  { intros ->. apply Hempty in Htxt as (_ & _ & Hall). congruence. }
  split; [by apply Hends|]. split; [by apply Hends|].
  split; [unfold rough_token_count; lia|].
  split; [done|]. split; [lia|]. split; [done|]. split; [lia|].
  exists s, j. by rewrite Hj.
Qed.

End Pipeline.

(** ** The two-page document *)

Lemma chunks_occur_in_text_witness :
  occurs_in (chars "alpha beta") Manual.sentence.
Proof.
  apply (chunks_occur_in_text ascii_space Manual.sentence 3 0).
  - lia.
  - vm_compute. apply list_elem_of_here.
Defined.

Lemma ingested_chunks_wellformed_witness :
  exists secs,
    Manual.build_sections Manual.pages 0 = Ok (secs, (0 + length secs)%nat) /\
    forall c,
      c ∈ (Manual.chunk_sections secs 4 1 0 (0 + length secs)).1 ->
      Ingest.c_text c <> [] /\
      (forall x, head (Ingest.c_text c) = Some x -> ascii_space x = false) /\
      (forall x, last (Ingest.c_text c) = Some x -> ascii_space x = false) /\
      1 <= Ingest.c_approx_tokens c /\
      1 <= Ingest.c_level c <= 3 /\
      1 <= Ingest.c_page_start c /\
      Ingest.c_page_start c <= Ingest.c_page_end c /\
      Ingest.c_page_end c <= Z.of_nat (length Manual.pages) /\
      exists s k,
        s ∈ secs /\ Ingest.id s = Some (Ingest.numbered k) /\
        Ingest.c_section_id c = Some (Ingest.numbered k) /\
        Ingest.c_section_title c = Ingest.title s.
Proof.
  exact (ingested_chunks_wellformed ascii_space Ingest.ascii_lower
           Ingest.ascii_digit Ingest.numbered Manual.pages 0 4 1 0 eq_refl).
Defined.

(** The document has one section, headed by the numbered line of page 1;
    page 2 has no text lines and starts no section. *)
Example manual_sections :
  exists t,
    Manual.build_sections Manual.pages 0
    = Ok ([ {| Ingest.title := chars "1.2 Scope"; Ingest.level := 2;
               Ingest.page_start := 1; Ingest.page_end := 2;
               Ingest.text := t; Ingest.id := Some (chars "0") |} ], 1%nat).
Proof. eexists. vm_compute. reflexivity. Qed.

(** ** The language-model paths of [qa.py] *)

Lemma llm_provider_missing : "LLM_PROVIDER"%string ∉ QA.Settings_attributes.
Proof. apply (bool_decide_eq_false_1 _). vm_compute. reflexivity. Qed.

Section LLMPaths.

Variable isspace : N -> bool.
Variable lower : pystr -> pystr.
Variable capitalize : pystr -> pystr.

Lemma hf_enabled_raises settings_value :
  QA.hf_enabled lower settings_value = QA.Raised.
Proof.
  unfold QA.hf_enabled, QA.getattr.
  by rewrite (bool_decide_eq_false_2 _ llm_provider_missing).
Qed.

(** X19.  [settings.LLM_PROVIDER] does not exist, so the three functions
    that test it never reach the language model, whatever the settings hold
    and whatever the client would answer: [generate_hypothetical_answer]
    returns [None]; the quiz question is a function of the contexts alone;
    and the evaluation of the user's answer is a function of the contexts
    alone, the same for every answer and every directive. *)
Theorem llm_provider_paths_are_dead
    (settings_value settings_value' : string -> QA.Value)
    (chat chat' :
       QA.Value -> QA.Value -> QA.Value -> pystr -> pystr -> Q ->
       QA.Tried (option pystr))
    (question user_answer user_answer' : pystr)
    (contexts : list QA.Context)
    (history history' : option (list QA.Message))
    (directives directives' : option pystr) :
  QA.generate_hypothetical_answer isspace lower capitalize settings_value
    chat question history = None /\
  QA.generate_quiz_question isspace lower settings_value chat contexts
    history directives
  = QA.generate_quiz_question isspace lower settings_value' chat' contexts
      history' directives' /\
  (contexts = [] ->
   QA.generate_quiz_question isspace lower settings_value chat contexts
     history directives
   = Some (chars "From the manual, describe the key instruction mentioned in the provided section.")) /\
  QA.validate_user_answer isspace lower settings_value chat user_answer
    contexts directives
  = QA.validate_user_answer isspace lower settings_value' chat' user_answer'
      contexts directives'.
Proof.
  unfold QA.generate_hypothetical_answer, QA.generate_quiz_question,
    QA.validate_user_answer.
  rewrite !hf_enabled_raises. cbn [QA.tbind].
  repeat split; try done. by intros ->.
Qed.

(** *** [generate_answer] *)

Lemma getattr_present settings_value name :
  name ∈ QA.Settings_attributes ->
  QA.getattr settings_value name = QA.Returned (settings_value name).
Proof. intros H. unfold QA.getattr. by rewrite (bool_decide_eq_true_2 _ H). Qed.

Lemma llm_attributes_present :
  Forall (fun name => name ∈ QA.Settings_attributes)
    ["USE_LLM"; "HF_TOKEN"; "HF_PROVIDER"; "HF_MODEL"]%string.
Proof.
  repeat constructor; apply (bool_decide_eq_true_1 _); vm_compute;
    reflexivity.
Qed.

(** X20.  [generate_answer] raises nothing.  When [USE_LLM] or [HF_TOKEN] is
    falsy, or the client fails or returns no content, it returns the
    extractive answer and [used_llm = False].  [used_llm] is [True] exactly
    when the client returned a non-empty content; the answer is then the
    stripped content, unless that is empty (a blank content), in which case
    the extractive answer is returned with [used_llm = True]. *)
Theorem generate_answer_outcomes
    (settings_value : string -> QA.Value)
    (chat :
       QA.Value -> QA.Value -> QA.Value -> pystr -> pystr -> Q ->
       QA.Tried (option pystr))
    (question : pystr) (contexts : list QA.Context)
    (history : option (list QA.Message)) (directives : option pystr) :
  let extractive :=
    QA.extractive_answer isspace lower question contexts directives in
  let enabled :=
    QA.truthy (settings_value "USE_LLM")
    && QA.truthy (settings_value "HF_TOKEN") in
  let reply :=
    chat (settings_value "HF_PROVIDER") (settings_value "HF_TOKEN")
      (settings_value "HF_MODEL") QA.SYS_PROMPT
      (QA.build_prompt isspace capitalize question contexts history
         directives)
      (2 # 10) in
  exists answer used_llm,
    QA.generate_answer isspace lower capitalize settings_value chat question
      contexts history directives
    = QA.Returned (answer, used_llm) /\
    (used_llm = true <->
     enabled = true /\
     exists content, reply = QA.Returned (Some content) /\ content <> []) /\
    (used_llm = false -> answer = extractive) /\
    (forall content,
       enabled = true -> reply = QA.Returned (Some content) ->
       content <> [] ->
       answer = if nonempty (strip isspace content)
                then strip isspace content else extractive).
Proof.
  cbn zeta. unfold QA.generate_answer.
  pose proof llm_attributes_present as Hp.
  apply Forall_cons in Hp as [H1 Hp]. apply Forall_cons in Hp as [H2 Hp].
  apply Forall_cons in Hp as [H3 Hp]. apply Forall_cons in Hp as [H4 _].
  rewrite !getattr_present by done. cbn [QA.tbind].
  destruct (QA.truthy (settings_value "USE_LLM")); cbn [QA.tbind andb].
  2: { eexists _, _. split; [reflexivity|]. simpl.
       split; [split; [done|by intros [? _]]|]. split; [done|done]. }
  destruct (QA.truthy (settings_value "HF_TOKEN")); cbn [QA.tbind].
  2: { eexists _, _. split; [reflexivity|]. simpl.
       split; [split; [done|by intros [? _]]|]. split; [done|done]. }
  destruct (chat _ _ _ _ _ _) as [[[|c s]|]|].
  - eexists _, _. split; [reflexivity|]. simpl.
    split; [split; [done|by intros (_ & ? & [= <-] & ?)]|].
    split; [done|]. by intros ? _ [= <-].
  - eexists _, _. split; [reflexivity|]. simpl.
    split; [split; [by intros _; split; [|exists (c :: s)]|done]|].
    split; [done|]. intros ? _ [= <-] _.
    by destruct (strip isspace (c :: s)).
  - eexists _, _. split; [reflexivity|]. simpl.
    split; [split; [done|by intros (_ & ? & ? & ?)]|].
    split; [done|]. by intros ? _ ?.
  - eexists _, _. split; [reflexivity|]. simpl.
    split; [split; [done|by intros (_ & ? & ? & ?)]|].
    split; [done|]. by intros ? _ ?.
Qed.

End LLMPaths.

(** ** The extractive answer of [qa.py] *)

Lemma contains_elems sub s x :
  QA.contains sub s = true -> x ∈ sub -> x ∈ s.
Proof.
  induction s as [|c s IH]; simpl.
  - rewrite orb_false_r. intros (r & Hr)%startswith_spec Hx.
    rewrite Hr. apply elem_of_app. by left.
  - intros [H|H]%orb_true_iff Hx.
    + apply startswith_spec in H as (r & ->). apply elem_of_app. by left.
    + right. by apply IH.
Qed.

Lemma before_last_space_spec s p :
  QA.before_last_space s = Some p -> exists r, s = p ++ 32%N :: r.
Proof.
  revert p. induction s as [|c s IH]; intros p; simpl; [done|].
  destruct (QA.before_last_space s) as [p'|].
  - intros [= <-]. destruct (IH p' eq_refl) as (r & ->). by exists r.
  - destruct (N.eqb_spec c 32) as [->|]; [|done].
    intros [= <-]. by exists s.
Qed.

Lemma rsplit_head_prefix s : QA.rsplit_head s `prefix_of` s.
Proof.
  unfold QA.rsplit_head.
  destruct (QA.before_last_space s) as [p|] eqn:E; [|done].
  apply before_last_space_spec in E as (r & ->). by eexists.
Qed.

Section Extractive.

Variable isspace : N -> bool.
Variable lower : pystr -> pystr.

(** [str.lower] yields no capital Q. *)
Hypothesis lower_no_Q : forall s, 81%N ∉ lower s.

Lemma quiz_mode_never_found d :
  QA.contains (chars "Quiz mode") (lower d) = false.
Proof.
  destruct (QA.contains (chars "Quiz mode") (lower d)) eqn:E; [|done].
  exfalso. apply (lower_no_Q d). eapply contains_elems; [exact E|].
  vm_compute. apply list_elem_of_here.
Qed.

(** X21.  In [extractive_answer] the test ['Quiz mode' in directives.lower()]
    never succeeds (a lower-cased string has no capital Q): directives that
    do not contain the exact phrase 'Do not reveal answers' have no effect,
    and the answer is one line per context.  The excerpt in a line is the
    stripped text when that has at most 600 characters; otherwise it is a
    prefix of the first 600 characters followed by an ellipsis, at most 601
    characters in all. *)
Theorem extractive_answer_excerpts (question : pystr)
    (contexts : list QA.Context) (directives : pystr) :
  QA.contains (chars "Do not reveal answers") directives = false ->
  QA.extractive_answer isspace lower question contexts (Some directives)
  = QA.extractive_answer isspace lower question contexts None /\
  QA.extractive_answer isspace lower question contexts None
  = str_join QA.nl (map (QA.bullet isspace) contexts) /\
  forall c, exists excerpt,
    QA.bullet isspace c
    = chars "- " ++ excerpt ++ chars " [" ++ QA.pages_of c ++ chars ", "
      ++ QA.or_else (QA.section_title c) [] ++ chars "]" /\
    (length excerpt <= 601)%nat /\
    ((length (strip isspace (QA.text c)) <= 600)%nat ->
     excerpt = strip isspace (QA.text c)) /\
    ((600 < length (strip isspace (QA.text c)))%nat ->
     exists p, excerpt = p ++ [8230%N] /\
               p `prefix_of` strip isspace (QA.text c)).
Proof.
  intros Hd. split; [|split].
  - unfold QA.extractive_answer. destruct directives as [|c d]; [done|].
    by rewrite Hd, quiz_mode_never_found.
  - done.
  - intros c. unfold QA.bullet.
    set (x := strip isspace (QA.text c)).
    destruct (Nat.ltb_spec 600 (length x)) as [Hlong|Hshort].
    + eexists. split; [reflexivity|].
      destruct (rsplit_head_prefix (take 600 x)) as (r & Hr).
      assert (length (QA.rsplit_head (take 600 x)) <= 600)%nat as Hlen.
      { pose proof (f_equal length Hr) as Hl.
        rewrite length_app, length_take in Hl. lia. }
      split; [rewrite length_app; simpl; lia|].
      split; [lia|]. intros _. eexists. split; [reflexivity|].
      exists (r ++ drop 600 x). rewrite app_assoc, <- Hr.
      by rewrite take_drop.
    + eexists. split; [reflexivity|]. split; [lia|]. split; [done|lia].
Qed.

End Extractive.

Lemma ascii_lower_no_Q s : 81%N ∉ Ingest.ascii_lower s.
Proof.
  unfold Ingest.ascii_lower. intros (c & Hc & _)%list_elem_of_fmap.
  destruct ((65 <=? c)%N && (c <=? 90)%N) eqn:E.
  - apply andb_true_iff in E as [E1 E2].
    apply N.leb_le in E1. apply N.leb_le in E2. lia.
  - subst c. done.
Qed.

Lemma extractive_answer_excerpts_witness :
  QA.extractive_answer ascii_space Ingest.ascii_lower [] Manual.contexts
    (Some Manual.quiz_directives)
  = QA.extractive_answer ascii_space Ingest.ascii_lower [] Manual.contexts
      None /\
  QA.extractive_answer ascii_space Ingest.ascii_lower [] Manual.contexts None
  = str_join QA.nl (map (QA.bullet ascii_space) Manual.contexts) /\
  forall c, exists excerpt,
    QA.bullet ascii_space c
    = chars "- " ++ excerpt ++ chars " [" ++ QA.pages_of c ++ chars ", "
      ++ QA.or_else (QA.section_title c) [] ++ chars "]" /\
    (length excerpt <= 601)%nat /\
    ((length (strip ascii_space (QA.text c)) <= 600)%nat ->
     excerpt = strip ascii_space (QA.text c)) /\
    ((600 < length (strip ascii_space (QA.text c)))%nat ->
     exists p, excerpt = p ++ [8230%N] /\
               p `prefix_of` strip ascii_space (QA.text c)).
Proof.
  exact (extractive_answer_excerpts ascii_space Ingest.ascii_lower
           ascii_lower_no_Q [] Manual.contexts Manual.quiz_directives
           eq_refl).
Defined.

(** ** The search query of [main.py] *)

Lemma str_join_snoc d l q :
  l <> [] -> str_join d (l ++ [q]) = str_join d l ++ d ++ q.
Proof.
  induction l as [|p ps IH]; [intros H; by destruct H|]. intros _.
  destruct ps as [|p' ps]; [reflexivity|].
  change ((p :: p' :: ps) ++ [q]) with (p :: (p' :: ps) ++ [q]).
  rewrite str_join_cons by (intros E; discriminate E). rewrite IH by done.
  rewrite (str_join_cons d p (p' :: ps)) by done.
  by rewrite <- !app_assoc.
Qed.

Lemma last_chars_nonempty {A : Type} (n : nat) (l : list A) :
  (0 < n)%nat -> l <> [] -> last_chars n l <> [].
Proof.
  intros Hn Hl E. apply (f_equal length) in E. unfold last_chars in E.
  rewrite length_drop in E. destruct l; [done|]. simpl in E. lia.
Qed.

Section SearchQuery.

Variable isspace : N -> bool.

Lemma lstrip_app_space a y :
  forallb isspace a = true -> lstrip isspace (a ++ y) = lstrip isspace y.
Proof.
  induction a as [|c a IH]; simpl; [done|].
  intros [-> ?]%andb_true_iff. auto.
Qed.

Lemma lstrip_fixed y :
  (forall c, head y = Some c -> isspace c = false) -> lstrip isspace y = y.
Proof. destruct y as [|c y]; simpl; [done|]. intros H. by rewrite H. Qed.

Lemma head_app_nonempty {A : Type} (l k : list A) :
  l <> [] -> head (l ++ k) = head l.
Proof. by destruct l. Qed.

(** [strip] finds the part between the leading and the trailing
    whitespace. *)
Lemma strip_unique a m b :
  forallb isspace a = true -> forallb isspace b = true ->
  (forall c, head m = Some c -> isspace c = false) ->
  (forall c, last m = Some c -> isspace c = false) ->
  strip isspace (a ++ m ++ b) = m.
Proof.
  intros Ha Hb Hh Hl. destruct (decide (m = [])) as [->|Hm].
  { apply strip_nil. simpl. by rewrite forallb_app, Ha, Hb. }
  unfold strip, rstrip.
  rewrite !reverse_app, <- app_assoc.
  rewrite lstrip_app_space by (by rewrite forallb_reverse).
  rewrite (lstrip_fixed (reverse m ++ reverse a)).
  - rewrite <- (reverse_app a m), reverse_involutive.
    rewrite lstrip_app_space by done.
    by apply lstrip_fixed.
  - intros c. rewrite head_app_nonempty.
    + rewrite head_reverse. apply Hl.
    + intros E. apply Hm. by rewrite <- (reverse_involutive m), E.
Qed.

Lemma strip_decompose s :
  exists a b, s = a ++ strip isspace s ++ b /\
              forallb isspace a = true /\ forallb isspace b = true.
Proof.
  destruct (rstrip_prefix isspace s) as (k & Hk & Hks).
  destruct (lstrip_suffix isspace (rstrip isspace s)) as (k' & Hk' & Hks').
  exists k', k. split; [|done]. unfold strip.
  by rewrite app_assoc, <- Hk', <- Hk.
Qed.

(** What follows a text that is not blank does not change where its
    stripped form starts. *)
Lemma strip_app_prefix s x :
  strip isspace s <> [] ->
  strip isspace s `prefix_of` strip isspace (s ++ x).
Proof.
  intros Hs.
  destruct (strip_decompose s) as (a & b & Es & Ha & Hb).
  destruct (strip_decompose x) as (a' & b' & Ex & Ha' & Hb').
  destruct (strip_ends isspace s) as [Hh Hl].
  destruct (strip_ends isspace x) as [Hh' Hl'].
  set (m := strip isspace s) in *. set (m' := strip isspace x) in *.
  destruct (decide (m' = [])) as [E|Hm'].
  - assert (s ++ x = a ++ m ++ (b ++ x)) as ->
      by (rewrite Es at 1; by rewrite <- !app_assoc).
    rewrite strip_unique; try done.
    rewrite forallb_app, Hb. simpl.
    rewrite Ex, E. simpl. by rewrite forallb_app, Ha', Hb'.
  - assert (s ++ x = a ++ (m ++ b ++ a' ++ m') ++ b') as ->
      by (rewrite Es at 1; rewrite Ex at 1; by rewrite <- !app_assoc).
    rewrite strip_unique; try done.
    + by eexists.
    + intros c. rewrite head_app_nonempty by done. apply Hh.
    + intros c. rewrite !app_assoc, last_app.
      destruct (last m') as [y|] eqn:Ey.
      * intros [= <-]. by apply Hl'.
      * by apply last_None in Ey.
Qed.

(** X22.  [_build_search_query] returns the question as it is for an empty
    history.  Otherwise the query has at most 512 characters and starts
    with no whitespace; it is made of the last two user turns and the
    question, in this order, the FIRST 512 characters being kept: without
    user turns it is the stripped question, and when the last two user
    turns fill 512 characters the question is not part of the query at
    all. *)
Theorem search_query_window (question : pystr)
    (history : list Main.ChatMessage) :
  let r := Main._build_search_query isspace question history in
  let prev :=
    str_join (chars " ") (last_chars 2 (Main.user_turns history)) in
  (history = [] -> r = question) /\
  (history <> [] ->
   (length r <= 512)%nat /\
   (forall x, head r = Some x -> isspace x = false)) /\
  (history <> [] -> Main.user_turns history = [] ->
   r = take 512 (strip isspace question)) /\
  (Main.user_turns history <> [] ->
   (512 <= length (strip isspace prev))%nat ->
   r = take 512 (strip isspace prev)).
Proof.
  cbn zeta. unfold Main._build_search_query.
  destruct history as [|m h].
  { split; [done|]. split; [done|]. split; [done|]. by intros []. }
  cbn [nonempty negb]. set (hist := m :: h).
  split; [done|]. split; [|split].
  - intros _. split.
    + rewrite length_take. lia.
    + intros x Hx. destruct (strip_ends isspace
        (str_join (chars " ")
           (last_chars 2 (Main.user_turns hist) ++ [question]))) as [Hh _].
      apply Hh. by destruct (strip isspace _).
  - intros _ ->. done.
  - intros Hu Hlen.
    rewrite str_join_snoc by (by apply last_chars_nonempty; [lia|]).
    set (prev := str_join (chars " ") (last_chars 2 (Main.user_turns hist)))
      in *.
    destruct (strip_app_prefix prev (chars " " ++ question)) as (r & ->).
    { intros E. rewrite E in Hlen. simpl in Hlen. lia. }
    by rewrite take_app_le.
Qed.

End SearchQuery.

(** ** From the history to the extractive answer *)

Lemma render_reveals flags :
  QA.contains (chars "Do not reveal answers") (Main.render flags)
  = Main.NO_REVEAL flags.
Proof. destruct flags as [[] [] []]; vm_compute; reflexivity. Qed.

Lemma render_nonempty flags : Main.render flags <> [].
Proof. destruct flags as [[] [] []]; vm_compute; discriminate. Qed.

Section DirectivesFacts.

Variable isspace : N -> bool.
Variable lower : pystr -> pystr.
Hypothesis lower_no_Q : forall s, 81%N ∉ lower s.

(** X23.  The directives that [query] derives from the history and hands
    to the answer ([_derive_directives], then [extractive_answer]): the
    extractive answer withholds the excerpts and lists the sources exactly
    when some message of the history contains, in any letter case, 'do not
    tell me the answer' or 'don't tell me the answer'.  A history that only
    asks for a quiz ('ask me questions ... validate') gets the excerpts. *)
Theorem extractive_answer_of_history (question : pystr)
    (contexts : list QA.Context) (history : list Main.ChatMessage) :
  let joined := Main.joined_texts lower history in
  let no_reveal :=
    QA.contains (chars "do not tell me the answer") joined
    || QA.contains (chars "don't tell me the answer") joined in
  QA.extractive_answer isspace lower question contexts
    (Some (Main._derive_directives lower history))
  = if no_reveal
    then chars "I will evaluate your answer against the manual. Please reply with your answer."
         ++ QA.nl ++ QA.nl ++ chars "Sources:" ++ QA.nl
         ++ str_join QA.nl (map QA.source_line contexts)
    else str_join QA.nl (map (QA.bullet isspace) contexts).
Proof.
  cbn zeta. unfold Main._derive_directives, QA.extractive_answer.
  set (flags := Main.flags_of (Main.joined_texts lower history)).
  pose proof (render_nonempty flags) as Hne.
  pose proof (render_reveals flags) as Hr.
  pose proof (quiz_mode_never_found lower lower_no_Q (Main.render flags))
    as Hq.
  destruct (Main.render flags) as [|c d]; [done|].
  rewrite Hr, Hq, orb_false_r. done.
Qed.

End DirectivesFacts.

Lemma extractive_answer_of_history_witness :
  QA.extractive_answer ascii_space Ingest.ascii_lower [] Manual.contexts
    (Some (Main._derive_directives Ingest.ascii_lower Manual.quiz_history))
  = if QA.contains (chars "do not tell me the answer")
         (Main.joined_texts Ingest.ascii_lower Manual.quiz_history)
       || QA.contains (chars "don't tell me the answer")
            (Main.joined_texts Ingest.ascii_lower Manual.quiz_history)
    then chars "I will evaluate your answer against the manual. Please reply with your answer."
         ++ QA.nl ++ QA.nl ++ chars "Sources:" ++ QA.nl
         ++ str_join QA.nl (map QA.source_line Manual.contexts)
    else str_join QA.nl (map (QA.bullet ascii_space) Manual.contexts).
Proof.
  exact (extractive_answer_of_history ascii_space Ingest.ascii_lower
           ascii_lower_no_Q [] Manual.contexts Manual.quiz_history).
Defined.

(** A history that asks for a quiz, and nothing else, gets the excerpt. *)
Example quiz_history_gets_excerpts :
  QA.extractive_answer ascii_space Ingest.ascii_lower [] Manual.contexts
    (Some (Main._derive_directives Ingest.ascii_lower Manual.quiz_history))
  = chars "- Scores run from 0 to 6. [p.3-4, Scope]".
Proof. vm_compute. reflexivity. Qed.

(** ** The chunker with overlap *)

Section Overlap.

Variable isspace : N -> bool.
Variables max_tokens overlap_tokens : Z.
Variable text : pystr.

Lemma tail_and_run_mono n cs cs' c :
  (forall x, x ∈ cs -> x ∈ cs') ->
  tail_and_run isspace text n cs c -> tail_and_run isspace text n cs' c.
Proof.
  intros Hsub (tail & s & ? & ? & ? & Ht). exists tail, s.
  repeat split; try done. destruct Ht as [?|(c' & ? & ? & ?)]; [by left|].
  right. exists c'. auto.
Qed.

Lemma Forall_tail_and_run_snoc n cs c :
  Forall (tail_and_run isspace text n cs) cs ->
  tail_and_run isspace text n cs c ->
  Forall (tail_and_run isspace text n (cs ++ [c])) (cs ++ [c]).
Proof.
  intros Hcs Hc. apply Forall_app. split.
  - eapply Forall_impl; [exact Hcs|]. intros x.
    apply tail_and_run_mono. intros y Hy. apply elem_of_app. by left.
  - apply Forall_singleton. revert Hc.
    apply tail_and_run_mono. intros y Hy. apply elem_of_app. by left.
Qed.

(** What the word loop keeps true of [chunks] and of [cur], [pre] being
    the words that have been read. *)
Lemma words_tails ws : forall pre a,
  occurs_in (pre ++ concat ws) text ->
  Forall
    (tail_and_run isspace text (Z.to_nat (Z.max 0 (overlap_tokens * 5)))
       (chunks_ a))
    (chunks_ a) ->
  (exists tail s l,
     concat (cur a) = tail ++ s /\ pre = l ++ s /\
     (length tail <= Z.to_nat (Z.max 0 (overlap_tokens * 5)))%nat /\
     (tail = [] \/
      exists c', c' ∈ chunks_ a /\ c' <> [] /\ tail `suffix_of` c')) ->
  Forall
    (tail_and_run isspace text (Z.to_nat (Z.max 0 (overlap_tokens * 5)))
       (chunks_ (fold_left (word_step isspace max_tokens overlap_tokens)
                   ws a)))
    (chunks_ (fold_left (word_step isspace max_tokens overlap_tokens) ws a))
  /\
  tail_and_run isspace text (Z.to_nat (Z.max 0 (overlap_tokens * 5)))
    (chunks_ (fold_left (word_step isspace max_tokens overlap_tokens) ws a))
    (strip isspace
       (concat
          (cur (fold_left (word_step isspace max_tokens overlap_tokens)
                  ws a)))).
Proof.
  set (n := Z.to_nat (Z.max 0 (overlap_tokens * 5))).
  induction ws as [|w ws IH]; intros pre a Hpre Ha (tail & s & l & Hc & Hl & Hn & Ht).
  - simpl in *. split; [done|]. exists tail, s. rewrite Hc.
    split; [done|]. split; [|done]. rewrite app_nil_r in Hpre.
    eapply occurs_in_trans; [|exact Hpre]. rewrite Hl. apply occurs_in_app_r.
  - cbn [fold_left].
    assert (occurs_in s text) as Hs.
    { eapply occurs_in_trans; [|exact Hpre].
      eapply occurs_in_trans; [|apply occurs_in_app_l].
      rewrite Hl. apply occurs_in_app_r. }
    assert (tail_and_run isspace text n (chunks_ a)
              (strip isspace (concat (cur a)))) as Hchunk.
    { exists tail, s. by rewrite Hc. }
    apply (IH (pre ++ w)).
    + by rewrite <- app_assoc.
    + destruct (word_step_chunks isspace max_tokens overlap_tokens a w)
        as [-> | ->]; [done|].
      by apply Forall_tail_and_run_snoc.
    + unfold word_step.
      destruct ((cur_tokens a + rough_token_count w >? max_tokens)
                && nonempty (cur a)).
      * cbn [cur chunks_].
        set (chunk := strip isspace (concat (cur a))).
        destruct ((Z.max 0 (overlap_tokens * 5) >? 0) && nonempty chunk)
          eqn:E.
        -- exists (last_chars n chunk), w, pre.
           split; [simpl; by rewrite app_nil_r|]. split; [done|].
           split.
           { unfold last_chars. rewrite length_drop. lia. }
           right. exists chunk. split; [apply elem_of_app; right; left|].
           split.
           { apply andb_true_iff in E as [_ E]. by destruct chunk. }
           unfold last_chars. eexists. symmetry. apply take_drop.
        -- exists [], w, pre.
           split; [simpl; by rewrite app_nil_r|]. split; [done|].
           split; [simpl; lia|by left].
      * cbn [cur chunks_]. exists tail, (s ++ w), l.
        split; [rewrite concat_app, Hc; simpl;
                by rewrite app_nil_r, app_assoc|].
        split; [by rewrite Hl, app_assoc|]. done.
Qed.

Lemma part_step_tails cs p :
  Forall
    (tail_and_run isspace text (Z.to_nat (Z.max 0 (overlap_tokens * 5))) cs)
    cs ->
  occurs_in p text ->
  Forall
    (tail_and_run isspace text (Z.to_nat (Z.max 0 (overlap_tokens * 5)))
       (part_step isspace max_tokens overlap_tokens cs p))
    (part_step isspace max_tokens overlap_tokens cs p).
Proof.
  intros Hcs Hp. unfold part_step.
  destruct (words_tails (re_split_ws isspace p) []
              {| chunks_ := cs; cur := []; cur_tokens := 0 |}) as [H1 H2].
  - simpl. by rewrite concat_re_split_ws.
  - done.
  - exists [], [], []. simpl. split; [done|]. split; [done|].
    split; [lia|by left].
  - destruct (nonempty _); [|done]. by apply Forall_tail_and_run_snoc.
Qed.

Lemma parts_tails parts : forall cs,
  Forall
    (tail_and_run isspace text (Z.to_nat (Z.max 0 (overlap_tokens * 5))) cs)
    cs ->
  Forall (fun p => occurs_in p text) parts ->
  Forall
    (tail_and_run isspace text (Z.to_nat (Z.max 0 (overlap_tokens * 5)))
       (fold_left (part_step isspace max_tokens overlap_tokens) parts cs))
    (fold_left (part_step isspace max_tokens overlap_tokens) parts cs).
Proof.
  induction parts as [|p parts IH]; intros cs Hcs Hps; [done|].
  apply Forall_cons in Hps as [Hp Hps].
  simpl. apply IH; [|done]. by apply part_step_tails.
Qed.

(** X24.  Whatever the overlap, a chunk of [smart_split] is the stripped
    join of a tail and of a run of consecutive characters of the text; the
    tail has at most [max(0, overlap_tokens * 5)] characters and is empty or
    the end of a chunk that is also returned.  The tail and the run are
    joined without a separator. *)
Theorem chunks_are_tail_and_run (c : pystr) :
  c ∈ smart_split isspace text max_tokens overlap_tokens ->
  tail_and_run isspace text (Z.to_nat (Z.max 0 (overlap_tokens * 5)))
    (smart_split isspace text max_tokens overlap_tokens) c.
Proof.
  unfold smart_split. destruct (negb (nonempty text)).
  { by intros ?%elem_of_nil. }
  destruct (rough_token_count text <=? max_tokens).
  { intros ->%list_elem_of_singleton. exists [], text.
    split; [done|]. split; [apply occurs_in_refl|].
    split; [simpl; lia|by left]. }
  set (cs := fold_left _ _ _).
  intros [Hc _]%list_elem_of_In%filter_In. apply list_elem_of_In in Hc.
  assert (Forall
            (tail_and_run isspace text
               (Z.to_nat (Z.max 0 (overlap_tokens * 5))) cs) cs) as Hcs.
  { apply parts_tails; [done|].
    apply (delim_parts_cut max_tokens text). }
  pose proof (proj1 (Forall_forall _ _) Hcs c Hc)
    as (tail & s & ? & ? & ? & Ht).
  exists tail, s. repeat split; try done.
  destruct Ht as [?|(c' & Hc' & Hne & ?)]; [by left|].
  right. exists c'. split; [|done].
  apply list_elem_of_In, filter_In. split; [by apply list_elem_of_In|].
  by destruct c'.
Qed.

End Overlap.

(** With an overlap of one token the second chunk of the sentence is the
    end of the first chunk and the next word, joined without the space. *)
Lemma chunks_are_tail_and_run_witness :
  tail_and_run ascii_space Manual.sentence
    (Z.to_nat (Z.max 0 (1 * 5)))
    (smart_split ascii_space Manual.sentence 2 1) (chars "alphabeta").
Proof.
  apply (chunks_are_tail_and_run ascii_space 2 1 Manual.sentence).
  vm_compute. apply list_elem_of_further, list_elem_of_here.
Defined.
